(** * DeliveryDrones: the grid world of [env.py]

    A shallow embedding of the classes [Grid] and [DeliveryDrones] of
    [env.py] (the NumPy environment) and of its observation wrappers
    [CompassQTable], [LidarCompassQTable] and [GridView], with the properties
    of the tick function [step], of [reset] and of the observations.

    Conventions of the embedding.
    - A NumPy object array of shape [(h, w)] is its row-major buffer: a
      list of [h * w] cells, [None] for the Python [None].
    - Python objects that [step] mutates ([Drone.packet]) are stored by
      value in the cell (or in the local list) that holds them; every place
      where the source relies on two names denoting one object says so.
    - The process-global generator behind [np.random.choice] is an explicit
      [RandomState] threaded through [spawn] and [step].
    - An uncaught Python exception is the [Raise] outcome of [result].
    - The fields [n_drones] and [shape] that [DeliveryDrones.__init__] sets
      are arguments of the functions that read them. *)

From stdpp Require Import base numbers option list sorting strings gmap.

Set Default Proof Using "Type".

(** ** Exceptions *)

Inductive Exception :=
  | ValueError      (* Action(v) with v outside 0..4; np.random.choice with too
                       few cells; np.vectorize on an array without cells *)
  | IndexError      (* drones[0] on an empty list *)
  | AttributeError. (* None.packet *)

Inductive result (A : Type) :=
  | Ok (a : A)
  | Raise (e : Exception).
Arguments Ok {A} a.
Arguments Raise {A} e.

Global Instance result_ret : MRet result := @Ok.
Global Instance result_bind : MBind result := λ A B f m,
  match m with
  | Ok a => f a
  | Raise e => Raise e
  end.
Global Instance result_fmap : FMap result := λ A B f m,
  match m with
  | Ok a => Ok (f a)
  | Raise e => Raise e
  end.

Fixpoint foldM {A S : Type} (f : S → A → result S) (s : S) (l : list A) : result S :=
  match l with
  | [] => Ok s
  | a :: l' => s' ← f s a; foldM f s' l'
  end.

(** ** The classes of env.py *)

Inductive Action := LEFT | DOWN | RIGHT | UP | STAY.

(** [Action(v)]: the enum member of value [v], [ValueError] otherwise. *)
Definition Action_of_value (v : Z) : result Action :=
  if decide (v = 0)%Z then Ok LEFT
  else if decide (v = 1)%Z then Ok DOWN
  else if decide (v = 2)%Z then Ok RIGHT
  else if decide (v = 3)%Z then Ok UP
  else if decide (v = 4)%Z then Ok STAY
  else Raise ValueError.

Record Dropzone := mkDropzone { dropzone_index : Z }.
Record Packet := mkPacket { packet_index : Z }.
Record Drone := mkDrone { index : Z; packet : option Packet }.

(** What a cell of the ground grid (and the list [ground_respawns]) holds. *)
Inductive Tile :=
  | TPacket (p : Packet)
  | TDropzone (z : Dropzone).

Global Instance Dropzone_eq_dec : EqDecision Dropzone.
Proof. solve_decision. Defined.
Global Instance Packet_eq_dec : EqDecision Packet.
Proof. solve_decision. Defined.
Global Instance Drone_eq_dec : EqDecision Drone.
Proof. solve_decision. Defined.
Global Instance Tile_eq_dec : EqDecision Tile.
Proof. solve_decision. Defined.

(** [(y, x)]; the candidates of a move may leave the grid, hence [Z]. *)
Definition Position : Type := Z * Z.

(** ** class Grid *)

Record Grid (A : Type) := mkGrid {
  shape : nat * nat;
  grid : list (option A)
}.
Arguments mkGrid {A} shape grid.
Arguments shape {A} g.
Arguments grid {A} g.

(** The buffer has as many cells as the shape says. *)
Definition Grid_wf {A} (g : Grid A) : Prop :=
  length (grid g) = ((shape g).1 * (shape g).2)%nat.

(** Row-major flat index of a position, and back ([np.unravel_index]). *)
Definition ravel_index (sh : nat * nat) (p : Position) : nat :=
  Z.to_nat (p.1 * Z.of_nat sh.2 + p.2).

Definition unravel_index (sh : nat * nat) (i : nat) : Position :=
  (Z.of_nat (i / sh.2), Z.of_nat (i mod sh.2)).

(** A position of a grid of shape [sh]. *)
Definition inside (sh : nat * nat) (p : Position) : Prop :=
  (0 ≤ p.1 < Z.of_nat sh.1)%Z ∧ (0 ≤ p.2 < Z.of_nat sh.2)%Z.

Global Instance inside_dec sh p : Decision (inside sh p).
Proof. unfold inside. apply _. Defined.

(** [Grid.is_inside]: [np.ravel_multi_index(..., mode='raise')] succeeds,
    that is, both coordinates are within the shape. This is what the source
    answers for coordinates that fit a 64-bit integer ([int64] below);
    beyond that range [np.ravel_multi_index] fails with an uncaught
    TypeError instead of the caught ValueError, a case [step] never gets to:
    its candidates are one move away from a cell of the grid. *)
Definition is_inside {A} (g : Grid A) (p : Position) : bool :=
  bool_decide (inside (shape g) p).

(** [Grid.__getitem__] and [Grid.__setitem__] at one position. [step] only
    indexes at positions that passed [is_inside] or that NumPy itself
    produced ([np.nonzero], [np.unravel_index]), on two grids of the same
    shape, and the functions below are the source's for the positions
    [inside] the shape only. Outside the shape NumPy raises IndexError or,
    for a negative index, wraps around; the functions below do neither: they
    go to the flat index that [ravel_index] gives (0 when the sum is
    negative) and read or write that cell, or answer [None] and leave the
    grid alone past the end of the buffer. Every statement about them is
    about positions inside the shape. *)
Definition getitem {A} (g : Grid A) (p : Position) : option A :=
  mjoin (grid g !! ravel_index (shape g) p).

Definition setitem {A} (g : Grid A) (p : Position) (v : option A) : Grid A :=
  mkGrid (shape g) (<[ravel_index (shape g) p := v]> (grid g)).

(** Flat indices of the cells satisfying [P], in increasing order
    ([np.flatnonzero] of a mask). *)
Fixpoint flatnonzero_from {A} (P : option A → bool) (i : nat) (l : list (option A)) : list nat :=
  match l with
  | [] => []
  | c :: l' => if P c then i :: flatnonzero_from P (S i) l' else flatnonzero_from P (S i) l'
  end.

Definition is_None {A} (c : option A) : bool := if c is None then true else false.
Definition is_not_None {A} (c : option A) : bool := if c is None then false else true.

(** [self[objects_mask]]: the objects of a grid in row-major order. *)
Definition objects {A} (g : Grid A) : list A := omap id (grid g).

(** The pairs that [Grid.get_objects(object_type, zip_results=True)] zips
    on a grid all of whose objects are of [object_type]: the objects with
    their positions, in row-major order ([self[objects_mask]] and
    [np.nonzero(objects_mask)]). *)
Definition zip_results {A} (g : Grid A) : list (A * Position) :=
  zip (objects g)
      (unravel_index (shape g) <$> flatnonzero_from is_not_None 0 (grid g)).

(** [Grid.get_objects(object_type, zip_results=True)]. The mask is computed
    by [np.vectorize], which raises ValueError on an array without cells. The
    zip is consumed by a loop at once, so it is a list here. *)
Definition get_objects {A} (g : Grid A) : result (list (A * Position)) :=
  if decide (grid g = []) then Raise ValueError else Ok (zip_results g).

(** ** The global generator *)

(** The state of NumPy's process-global generator, abstracted as a list
    of raw draws that decide what [np.random.choice] answers (0 once the
    list is used up). *)
Definition RandomState : Type := list nat.

(** [k] draws without replacement from [pool]: each raw draw, reduced
    modulo the number of cells left, picks the next cell, which leaves the
    pool. This stands for the possible answers of [np.random.choice], not
    for its algorithm: NumPy permutes the whole pool and keeps a prefix, and
    advances its generator on every call, also for an empty sample. What is
    kept is which answers there are (any [k] distinct cells of the pool, in
    any order); how many draws a call uses up and what state it leaves are
    those of this function, not NumPy's. *)
Fixpoint sample (pool : list nat) (k : nat) (rs : RandomState) : list nat * RandomState :=
  match k with
  | O => ([], rs)
  | S k' =>
      let j := (hd 0 rs mod length pool)%nat in
      match pool !! j with
      | Some c => let '(cs, rs') := sample (delete j pool) k' (tl rs) in (c :: cs, rs')
      | None => ([], tl rs)
      end
  end.

(** [np.random.choice(pool, size=k, replace=False)]: ValueError when the
    sample is larger than the population. *)
Definition random_choice (pool : list nat) (k : nat) (rs : RandomState)
  : result (list nat * RandomState) :=
  if decide (k ≤ length pool) then Ok (sample pool k rs) else Raise ValueError.

(** [self.grid[idxs] = objects]. *)
Definition assign {A} (g : Grid A) (idxs : list Position) (objects : list A) : Grid A :=
  foldl (λ g' po, setitem g' po.1 (Some po.2)) g (zip idxs objects).

(** [np.flatnonzero(self.grid == None)]: the cells of this grid that are empty. *)
Definition empty_cells {A} (self : Grid A) : list nat :=
  flatnonzero_from is_None 0 (grid self).

(** [Grid.spawn]. *)
Definition spawn {A} (self : Grid A) (objects : list A) (rs : RandomState)
  : result (Grid A * list Position * RandomState) :=
  '(flat_idxs, rs') ← random_choice (empty_cells self) (length objects) rs;
  let idxs := unravel_index (shape self) <$> flat_idxs in
  Ok (assign self idxs objects, idxs, rs').

(** ** class DeliveryDrones *)

(** The fields [step] works on ([self.air], [self.ground]); this is also
    what [_get_grids] returns. *)
Record DeliveryDrones := mkEnv {
  air : Grid Drone;
  ground : Grid Tile
}.

(** The locals of [step] together with the two grids it mutates. *)
Record Locals := mkLocals {
  l_air : Grid Drone;
  l_ground : Grid Tile;
  rewards : gmap Z Z;
  new_positions : list (Position * list Drone);   (* defaultdict(list), insertion order *)
  air_respawns : list Drone;
  ground_respawns : list Tile
}.

(** [new_positions[key].append(drone)] on a [defaultdict(list)]. *)
Fixpoint dd_append (key : Position) (drone : Drone) (d : list (Position * list Drone))
  : list (Position * list Drone) :=
  match d with
  | [] => [(key, [drone])]
  | (k, ds) :: rest =>
      if decide (k = key) then (k, ds ++ [drone]) :: rest
      else (k, ds) :: dd_append key drone rest
  end.

(** [Action.STAY if drone.index not in actions else Action(actions[drone.index])] *)
Definition get_action (actions : gmap Z Z) (drone : Drone) : result Action :=
  match actions !! index drone with
  | None => Ok STAY
  | Some v => Action_of_value v
  end.

Definition new_position (action : Action) (position : Position) : Position :=
  match action with
  | LEFT => (position.1, position.2 - 1)%Z
  | DOWN => (position.1 + 1, position.2)%Z
  | RIGHT => (position.1, position.2 + 1)%Z
  | UP => (position.1 - 1, position.2)%Z
  | STAY => position
  end.

Definition crash_reward : Z := -1.     (* the literal -1 of lines 136 and 149 *)
Definition delivery_reward : Z := 1.   (* the literal 1 of line 182 *)

(** [drone.packet = None] *)
Definition drop_packet (drone : Drone) : Drone := mkDrone (index drone) None.

(** The packet a crashing drone loses, as an item of [ground_respawns]. *)
Definition lost_packet (drone : Drone) : option Tile := TPacket <$> packet drone.

(** [rewards.update({drone.index: -1 for drone in drones})] *)
Definition crash_all (r : gmap Z Z) (drones : list Drone) : gmap Z Z :=
  foldl (λ r d, <[index d := crash_reward]> r) r drones.

(** Body of the first loop (lines 112-142), for one [(drone, position)] of
    the snapshot taken by [zip_results]. The drone appended to
    [air_respawns] is the object whose [packet] is set to [None] two lines
    later, so the list holds it without its packet. *)
Definition air_navigation (actions : gmap Z Z) (st : Locals) (dp : Drone * Position)
  : result Locals :=
  let '(drone, position) := dp in
  let air' := setitem (l_air st) position None in
  action ← get_action actions drone;
  let np := new_position action position in
  if is_inside air' np then
    Ok (mkLocals air' (l_ground st) (rewards st)
          (dd_append np drone (new_positions st))
          (air_respawns st) (ground_respawns st))
  else
    Ok (mkLocals air' (l_ground st)
          (<[index drone := crash_reward]> (rewards st))
          (new_positions st)
          (air_respawns st ++ [drop_packet drone])
          (ground_respawns st ++ option_list (lost_packet drone))).

(** Body of the second loop (lines 145-187), for one item of
    [new_positions]. As above, the drones of a colliding group sit in
    [air_respawns] with [packet = None]. *)
Definition further_air_navigation (st : Locals) (item : Position * list Drone)
  : result Locals :=
  let '(position, drones) := item in
  if decide (1 < length drones) then
    Ok (mkLocals (l_air st) (l_ground st)
          (crash_all (rewards st) drones)
          (new_positions st)
          (air_respawns st ++ (drop_packet <$> drones))
          (ground_respawns st ++ omap lost_packet drones))
  else
    match drones with
    | [] => Raise IndexError
    | drone :: _ =>
        match getitem (l_ground st) position with
        | Some (TPacket on_ground) =>
            match packet drone with
            | Some carried =>
                (* switch the packets *)
                Ok (mkLocals
                      (setitem (l_air st) position (Some (mkDrone (index drone) (Some on_ground))))
                      (setitem (l_ground st) position (Some (TPacket carried)))
                      (rewards st) (new_positions st) (air_respawns st) (ground_respawns st))
            | None =>
                (* just take the packet *)
                Ok (mkLocals
                      (setitem (l_air st) position (Some (mkDrone (index drone) (Some on_ground))))
                      (setitem (l_ground st) position None)
                      (rewards st) (new_positions st) (air_respawns st) (ground_respawns st))
            end
        | Some (TDropzone dropzone) =>
            match packet drone with
            | Some carried =>
                if decide (packet_index carried = dropzone_index dropzone) then
                  Ok (mkLocals
                        (setitem (l_air st) position (Some (drop_packet drone)))
                        (setitem (l_ground st) position None)
                        (<[index drone := delivery_reward]> (rewards st))
                        (new_positions st) (air_respawns st)
                        (ground_respawns st ++ [TPacket carried; TDropzone dropzone]))
                else
                  Ok (mkLocals (setitem (l_air st) position (Some drone)) (l_ground st)
                        (rewards st) (new_positions st) (air_respawns st) (ground_respawns st))
            | None =>
                Ok (mkLocals (setitem (l_air st) position (Some drone)) (l_ground st)
                      (rewards st) (new_positions st) (air_respawns st) (ground_respawns st))
            end
        | None =>
            Ok (mkLocals (setitem (l_air st) position (Some drone)) (l_ground st)
                  (rewards st) (new_positions st) (air_respawns st) (ground_respawns st))
        end
    end.

(** [_pick_packets_after_respawn], one position. *)
Definition pick_packet (ag : Grid Drone * Grid Tile) (p : Position)
  : result (Grid Drone * Grid Tile) :=
  match getitem ag.2 p with
  | Some (TPacket pk) =>
      match getitem ag.1 p with
      | Some drone => Ok (setitem ag.1 p (Some (mkDrone (index drone) (Some pk))),
                          setitem ag.2 p None)
      | None => Raise AttributeError
      end
  | _ => Ok ag
  end.

Definition _pick_packets_after_respawn (air0 : Grid Drone) (ground0 : Grid Tile)
    (positions : list Position) : result (Grid Drone * Grid Tile) :=
  foldM pick_packet (air0, ground0) positions.

(** What [step] hands back: the grids, [rewards], [dones] and [info]; the
    generator state is the one left behind in [np.random]. The drones of
    [info['air_respawns']] are the objects that now sit in the air grid at
    the spawn positions, so they are read from there. *)
Record StepResult := mkStepResult {
  grids : DeliveryDrones;
  r_rewards : gmap Z Z;
  r_dones : gmap Z bool;
  info_air_respawns : list Drone;
  info_ground_respawns : list Tile;
  r_random : RandomState
}.

(** The two navigation loops (lines 105-187). *)
Definition navigate (self : DeliveryDrones) (actions : gmap Z Z) : result Locals :=
  let st0 := mkLocals (air self) (ground self) ((λ _, 0%Z) <$> actions) [] [] [] in
  snapshot ← get_objects (air self);
  st1 ← foldM (air_navigation actions) st0 snapshot;
  foldM further_air_navigation st1 (new_positions st1).

Definition make_dones (actions : gmap Z Z) (respawned : list Drone) : gmap Z bool :=
  foldl (λ m d, <[index d := true]> m) ((λ _, false) <$> actions) respawned.

(** Lines 189-200, from the locals the loops leave behind. *)
Definition respawn (actions : gmap Z Z) (st : Locals) (rs : RandomState) : result StepResult :=
  '(ground1, _, rs1) ← spawn (l_ground st) (ground_respawns st) rs;
  '(air1, positions, rs2) ← spawn (l_air st) (air_respawns st) rs1;
  '(air2, ground2) ← _pick_packets_after_respawn air1 ground1 positions;
  Ok (mkStepResult (mkEnv air2 ground2) (rewards st)
        (make_dones actions (air_respawns st))
        (omap (getitem air2) positions)
        (ground_respawns st) rs2).

(** [DeliveryDrones.step]. *)
Definition step (self : DeliveryDrones) (actions : gmap Z Z) (rs : RandomState)
  : result StepResult :=
  st ← navigate self actions;
  respawn actions st rs.

(** ** Vocabulary of the statements *)

(** A state as [reset] and [step] build it: both grids have the shape
    [self.shape]. *)
Definition Env_wf (self : DeliveryDrones) : Prop :=
  Grid_wf (air self) ∧ Grid_wf (ground self) ∧ shape (ground self) = shape (air self).

(** [new_positions[key]], the empty list for a key that is not there. *)
Fixpoint group (key : Position) (d : list (Position * list Drone)) : list Drone :=
  match d with
  | [] => []
  | (k, ds) :: rest => if decide (k = key) then ds else group key rest
  end.

(** The drone of [dp] plans to move to the cell [q] of the grid. *)
Definition heads_to (actions : gmap Z Z) (sh : nat * nat) (q : Position)
    (dp : Drone * Position) : bool :=
  match get_action actions dp.1 with
  | Ok a => bool_decide (new_position a dp.2 = q ∧ inside sh q)
  | Raise _ => false
  end.

(** The drone of [dp] plans to move outside the grid. *)
Definition leaves (actions : gmap Z Z) (sh : nat * nat) (dp : Drone * Position) : bool :=
  match get_action actions dp.1 with
  | Ok a => bool_decide (¬ inside sh (new_position a dp.2))
  | Raise _ => false
  end.

(** Both grids of the locals are well-formed grids of shape [sh]. *)
Definition Locals_wf (sh : nat * nat) (st : Locals) : Prop :=
  shape (l_air st) = sh ∧ shape (l_ground st) = sh ∧
  Grid_wf (l_air st) ∧ Grid_wf (l_ground st).

(** The packets a list of drones carries, as ground tiles. *)
Definition cargo (drones : list Drone) : list Tile := omap lost_packet drones.

(** The drone [d] is in the cell [p] of the air grid. *)
Definition drone_at (self : DeliveryDrones) (d : Drone) (p : Position) : Prop :=
  inside (shape (air self)) p ∧ getitem (air self) p = Some d.

(** The drone [d] at [p] has a valid action that takes it to the cell [q]
    of the grid: it passes the boundary test of the first loop. *)
Definition plans (self : DeliveryDrones) (actions : gmap Z Z)
    (d : Drone) (p q : Position) : Prop :=
  ∃ a, get_action actions d = Ok a ∧ new_position a p = q ∧ inside (shape (air self)) q.

(** The drone [d] at [p] survives both crash tests with destination [q]:
    it plans to move to [q] and no other drone does. *)
Definition survives (self : DeliveryDrones) (actions : gmap Z Z)
    (d : Drone) (p q : Position) : Prop :=
  drone_at self d p ∧ plans self actions d p q ∧
  ∀ d' p', drone_at self d' p' → plans self actions d' p' q → p' = p.

(** No two drones of the air grid have the same index. *)
Definition distinct_indices (self : DeliveryDrones) : Prop :=
  NoDup (index <$> objects (air self)).

(** The reward [step] starts from: 0 for the drones named in [actions]. *)
Definition no_reward (actions : gmap Z Z) (i : Z) : option Z :=
  ((λ _, 0%Z) <$> actions) !! i.

(** [k] raw draws for a pool of [n] cells, the i-th below the number of
    cells still in the pool: the draws on which [sample] does not wrap. *)
Fixpoint valid_draws (n k : nat) (rs : RandomState) : Prop :=
  match k with
  | O => rs = []
  | S k' =>
      match rs with
      | [] => False
      | r :: rs' => r < n ∧ valid_draws (n - 1) k' rs'
      end
  end.

(** Drone [i] is in exactly one cell of the air grid. *)
Definition occupies_one_cell (self : DeliveryDrones) (i : Z) : Prop :=
  length (filter (λ d, index d = i) (objects (air self))) = 1.

(** The air grid of [D] drones: each of the drones 1..D is in exactly one
    cell, and a cell holds one of them or nothing. *)
Definition air_legal (D : nat) (self : DeliveryDrones) : Prop :=
  (∀ i, (1 ≤ i ≤ Z.of_nat D)%Z → occupies_one_cell self i) ∧
  (∀ d, d ∈ objects (air self) → (1 ≤ index d ≤ Z.of_nat D)%Z).

Definition is_packet (t : Tile) : bool :=
  match t with TPacket _ => true | TDropzone _ => false end.

(** The packages of the world: the packets on the ground and the packets
    held by drones. *)
Definition n_packets (self : DeliveryDrones) : nat :=
  length (filter (λ t, is_packet t = true) (objects (ground self)))
  + length (cargo (objects (air self))).

(** What the first loop keeps true of [new_positions]: the keys are
    distinct cells of the grid and no list is empty. *)
Definition np_wf (sh : nat * nat) (d : list (Position * list Drone)) : Prop :=
  NoDup d.*1 ∧ Forall (λ e, inside sh e.1 ∧ e.2 ≠ []) d.

(** ** Concrete worlds *)

Definition empty_grid {A} (h w : nat) : Grid A := mkGrid (h, w) (replicate (h * w) None).

(** The result of a step that is known not to raise. *)
Definition returned (r : result StepResult) : StepResult :=
  match r with
  | Ok out => out
  | Raise _ => mkStepResult (mkEnv (empty_grid 0 0) (empty_grid 0 0)) ∅ ∅ [] [] []
  end.

(** The locals of loops that are known not to raise. *)
Definition navigated (r : result Locals) : Locals :=
  match r with
  | Ok st => st
  | Raise _ => mkLocals (empty_grid 0 0) (empty_grid 0 0) ∅ [] [] []
  end.

(** A world of 3 x 3 cells with drone 1 in the middle and drone 2, loaded
    with packet 2, in the top left corner; packet 1 lies right of drone 1
    and dropzone 1 in the bottom right corner. *)
Definition world_a : DeliveryDrones :=
  mkEnv
    (setitem (setitem (empty_grid 3 3) (1, 1)%Z (Some (mkDrone 1 None)))
       (0, 0)%Z (Some (mkDrone 2 (Some (mkPacket 2)))))
    (setitem (setitem (empty_grid 3 3) (1, 2)%Z (Some (TPacket (mkPacket 1))))
       (2, 2)%Z (Some (TDropzone (mkDropzone 1)))).

(** Drone 1 moves right, drone 2 moves left. *)
Definition actions_a : gmap Z Z := <[1%Z := 2%Z]> (<[2%Z := 0%Z]> ∅).

(** A world of 3 x 3 cells with a single drone in the middle, packet 1 to
    its right and dropzone 1 in the bottom right corner. *)
Definition world_b : DeliveryDrones :=
  mkEnv
    (setitem (empty_grid 3 3) (1, 1)%Z (Some (mkDrone 1 None)))
    (setitem (setitem (empty_grid 3 3) (1, 2)%Z (Some (TPacket (mkPacket 1))))
       (2, 2)%Z (Some (TDropzone (mkDropzone 1)))).

(** Drone 1 moves right. *)
Definition actions_b : gmap Z Z := {[1%Z := 2%Z]}.

(** A world of 3 x 3 cells: drone 1, loaded with packet 2, in the middle,
    and packet 1 to its right. *)
Definition world_c : DeliveryDrones :=
  mkEnv
    (setitem (empty_grid 3 3) (1, 1)%Z (Some (mkDrone 1 (Some (mkPacket 2)))))
    (setitem (empty_grid 3 3) (1, 2)%Z (Some (TPacket (mkPacket 1)))).

(** Two worlds of 3 x 3 cells with drone 1 in the middle and dropzone 1 to
    its right: in [world_d] the drone is loaded with packet 2, in [world_e]
    with packet 1. *)
Definition world_d : DeliveryDrones :=
  mkEnv
    (setitem (empty_grid 3 3) (1, 1)%Z (Some (mkDrone 1 (Some (mkPacket 2)))))
    (setitem (empty_grid 3 3) (1, 2)%Z (Some (TDropzone (mkDropzone 1)))).

Definition world_e : DeliveryDrones :=
  mkEnv
    (setitem (empty_grid 3 3) (1, 1)%Z (Some (mkDrone 1 (Some (mkPacket 1)))))
    (setitem (empty_grid 3 3) (1, 2)%Z (Some (TDropzone (mkDropzone 1)))).

(** A world of 3 x 3 cells in which drone 1, loaded with packet 1, and
    drone 2 face each other across the middle cell of the top row. *)
Definition world_f : DeliveryDrones :=
  mkEnv
    (setitem (setitem (empty_grid 3 3) (0, 0)%Z (Some (mkDrone 1 (Some (mkPacket 1)))))
       (0, 2)%Z (Some (mkDrone 2 None)))
    (empty_grid 3 3).

(** A world of 3 x 3 cells with drone 1 and drone 2 side by side in the
    middle row. *)
Definition world_g : DeliveryDrones :=
  mkEnv
    (setitem (setitem (empty_grid 3 3) (1, 0)%Z (Some (mkDrone 1 None)))
       (1, 1)%Z (Some (mkDrone 2 None)))
    (empty_grid 3 3).

(** Drone 1 stays where it is, drone 2 moves left. *)
Definition actions_h : gmap Z Z := <[1%Z := 4%Z]> (<[2%Z := 0%Z]> ∅).

(** A world of 3 x 3 cells whose middle row holds drone 1, drone 2 and
    drone 3, from left to right. *)
Definition world_i : DeliveryDrones :=
  mkEnv
    (setitem (setitem (setitem (empty_grid 3 3) (1, 0)%Z (Some (mkDrone 1 None)))
       (1, 1)%Z (Some (mkDrone 2 None)))
       (1, 2)%Z (Some (mkDrone 3 None)))
    (empty_grid 3 3).

(** Drone 1 moves right, drone 2 and drone 3 move left. *)
Definition actions_i : gmap Z Z := <[1%Z := 2%Z]> (<[2%Z := 0%Z]> (<[3%Z := 0%Z]> ∅)).

(** ** [Grid.__init__] and [Grid.get_objects] with all its arguments *)

(** [Grid(shape)]: [np.full(shape, fill_value=None)]. *)
Definition Grid_init {A} (shape : nat * nat) : Grid A := empty_grid shape.1 shape.2.

Definition is_dropzone (t : Tile) : bool :=
  match t with TDropzone _ => true | TPacket _ => false end.

(** Every object of the air grid is a [Drone]. *)
Definition is_drone (d : Drone) : bool := true.

(** [isinstance(tile, object_type)] on a cell: [None] is an instance of
    none of the classes. *)
Definition isinstance {A} (object_type : A → bool) (tile : option A) : bool :=
  match tile with
  | Some a => object_type a
  | None => false
  end.

(** [position_mask]: all [False], then [True] at each of [positions] that
    passes [is_inside]. *)
Definition position_mask {A} (self : Grid A) (positions : list Position) : list bool :=
  foldl (λ mask p, <[ravel_index (shape self) p := true]> mask)
    (replicate ((shape self).1 * (shape self).2) false)
    (filter (λ p, is_inside self p = true) positions).

(** [objects_mask] as [get_objects] has it before it builds its result;
    [np.vectorize] raises ValueError on an array without cells. *)
Definition objects_mask {A} (object_type : A → bool) (positions : option (list Position))
    (self : Grid A) : result (list bool) :=
  if decide (grid self = []) then Raise ValueError
  else
    let objects_mask := isinstance object_type <$> grid self in
    match positions with
    | None => Ok objects_mask
    | Some positions => Ok (zip_with andb objects_mask (position_mask self positions))
    end.

(** [self[mask]] for a boolean mask: the cells where the mask is [True],
    in row-major order. *)
Definition getitem_mask {A} (self : Grid A) (mask : list bool) : list (option A) :=
  (filter (λ cm, cm.2 = true) (zip (grid self) mask)).*1.

(** [np.flatnonzero(mask)] and [np.nonzero(mask)] for a mask of shape [sh]:
    the latter is the pair of the row indices and the column indices. *)
Fixpoint flatnonzero_mask (i : nat) (mask : list bool) : list nat :=
  match mask with
  | [] => []
  | b :: mask' => if b then i :: flatnonzero_mask (S i) mask' else flatnonzero_mask (S i) mask'
  end.

Definition nonzero (sh : nat * nat) (mask : list bool) : list Z * list Z :=
  let positions := unravel_index sh <$> flatnonzero_mask 0 mask in
  (positions.*1, positions.*2).

(** [Grid.get_objects(object_type, positions)], which returns
    [self[objects_mask], np.nonzero(objects_mask)], and
    [Grid.get_objects(object_type, positions, zip_results=True)]. *)
Definition get_objects_arrays {A} (object_type : A → bool) (positions : option (list Position))
    (self : Grid A) : result (list (option A) * (list Z * list Z)) :=
  mask ← objects_mask object_type positions self;
  Ok (getitem_mask self mask, nonzero (shape self) mask).

Definition get_objects_zipped {A} (object_type : A → bool) (positions : option (list Position))
    (self : Grid A) : result (list (option A * Position)) :=
  mask ← objects_mask object_type positions self;
  let '(ys, xs) := nonzero (shape self) mask in
  Ok (zip (getitem_mask self mask) (zip ys xs)).

(** ** [DeliveryDrones.reset] *)

(** [range(1, n + 1)] *)
Definition range1 (n : nat) : list Z := Z.of_nat <$> seq 1 n.

Definition new_packets (n_drones : nat) : list Tile :=
  (λ index, TPacket (mkPacket index)) <$> range1 n_drones.
Definition new_dropzones (n_drones : nat) : list Tile :=
  (λ index, TDropzone (mkDropzone index)) <$> range1 n_drones.
Definition new_drones (n_drones : nat) : list Drone :=
  (λ index, mkDrone index None) <$> range1 n_drones.

(** [DeliveryDrones.reset] for the fields [self.n_drones] and [self.shape]
    that [__init__] has set; it returns the grids and leaves the generator in
    a new state. *)
Definition reset (n_drones : nat) (shape : nat * nat) (rs : RandomState)
  : result (DeliveryDrones * RandomState) :=
  let air0 : Grid Drone := Grid_init shape in
  let ground0 : Grid Tile := Grid_init shape in
  '(ground1, _, rs1) ← spawn ground0 (new_packets n_drones) rs;
  '(ground2, _, rs2) ← spawn ground1 (new_dropzones n_drones) rs1;
  '(air1, positions, rs3) ← spawn air0 (new_drones n_drones) rs2;
  '(air2, ground3) ← _pick_packets_after_respawn air1 ground2 positions;
  Ok (mkEnv air2 ground3, rs3).

(** ** class CompassQTable *)

(** [a.argmin()]: the index of the first least element; ValueError on an
    empty array. *)
Fixpoint argmin_from (best_i : nat) (best : Z) (i : nat) (l : list Z) : nat :=
  match l with
  | [] => best_i
  | v :: l' =>
      if decide (v < best)%Z then argmin_from i v (S i) l'
      else argmin_from best_i best (S i) l'
  end.

Definition argmin (l : list Z) : result nat :=
  match l with
  | [] => Raise ValueError
  | v :: l' => Ok (argmin_from 0 v 1 l')
  end.

(** [l.index(v)]: the index of the first element equal to [v]; ValueError
    if there is none. *)
Fixpoint list_index_from (v : Z) (i : nat) (l : list Z) : result nat :=
  match l with
  | [] => Raise ValueError
  | w :: l' => if decide (w = v) then Ok i else list_index_from v (S i) l'
  end.

Definition list_index (v : Z) (l : list Z) : result nat := list_index_from v 0 l.

(** [np.argmax] of a list of booleans: the index of the first [True], 0 if
    all are [False]; ValueError on an empty list. *)
Definition argmax (l : list bool) : result nat :=
  match l with
  | [] => Raise ValueError
  | _ => Ok (default 0 (fst <$> list_find (λ b, b = true) l))
  end.

(** [l[i]] for an index that is not negative. *)
Definition list_getitem {A} (l : list A) (i : nat) : result A :=
  match l !! i with
  | Some a => Ok a
  | None => Raise IndexError
  end.

(** [tile.index], for what a cell of the ground grid may hold. *)
Definition attr_index (tile : option Tile) : result Z :=
  match tile with
  | Some (TPacket p) => Ok (packet_index p)
  | Some (TDropzone z) => Ok (dropzone_index z)
  | None => Raise AttributeError
  end.

(** [[f(x) for x in l]] where [f] may raise. *)
Fixpoint mapM {A B} (f : A → result B) (l : list A) : result (list B) :=
  match l with
  | [] => Ok []
  | a :: l' => b ← f a; bs ← mapM f l'; Ok (b :: bs)
  end.

(** The eight compass points; [self.cardinals] lists them, and they are the
    keys of [self.lidar_positions]. *)
Inductive Cardinal :=
  West | SouthWest | South | SouthEast | East | NorthEast | North | NorthWest.

Global Instance Cardinal_eq_dec : EqDecision Cardinal.
Proof. solve_decision. Defined.

Definition cardinals : list Cardinal :=
  [West; SouthWest; South; SouthEast; East; NorthEast; North; NorthWest].

Definition cardinal_name (c : Cardinal) : string :=
  match c with
  | West => "W" | SouthWest => "SW" | South => "S" | SouthEast => "SE"
  | East => "E" | NorthEast => "NE" | North => "N" | NorthWest => "NW"
  end.

Module CompassQTable.

(** [get_drone_state(drone, drone_y, drone_x)] on the ground grid
    [self.env.ground]. The positions are [int64] arrays and so are the
    differences and distances computed from them, which wrap around outside
    that range; they are computed in [Z] here, which is the same as long as
    nothing wraps ([no_wrap] below), as for a drone in a cell of the grid. *)
Definition get_drone_state (ground : Grid Tile) (drone : Drone) (drone_y drone_x : Z)
  : result nat :=
  '(targets, positions) ←
    get_objects_arrays (if packet drone is None then is_packet else is_dropzone) None ground;
  target_idx ←
    match packet drone with
    | None =>
        let l1_distances :=
          zip_with Z.add ((λ y, Z.abs (y - drone_y)) <$> positions.1)
                         ((λ x, Z.abs (x - drone_x)) <$> positions.2) in
        argmin l1_distances
    | Some carried =>
        indices ← mapM attr_index targets;
        list_index (packet_index carried) indices
    end;
  target_y ← list_getitem positions.1 target_idx;
  target_x ← list_getitem positions.2 target_idx;
  let west := (drone_x - target_x)%Z in
  let south := (target_y - drone_y)%Z in
  argmax [
    bool_decide (west > 0)%Z && bool_decide (south = 0)%Z;
    bool_decide (west > 0)%Z && bool_decide (south > 0)%Z;
    bool_decide (west = 0)%Z && bool_decide (south > 0)%Z;
    bool_decide (west < 0)%Z && bool_decide (south > 0)%Z;
    bool_decide (west < 0)%Z && bool_decide (south = 0)%Z;
    bool_decide (west < 0)%Z && bool_decide (south < 0)%Z;
    bool_decide (west = 0)%Z && bool_decide (south < 0)%Z;
    bool_decide (west > 0)%Z && bool_decide (south < 0)%Z
  ].

(** [observation(_)]: the dict comprehension over the drones of the air
    grid. *)
Definition observation (env : DeliveryDrones) : result (gmap Z nat) :=
  snapshot ← get_objects (air env);
  foldM (λ obs dp,
           s ← get_drone_state (ground env) dp.1 dp.2.1 dp.2.2;
           Ok (<[index dp.1 := s]> obs))
        ∅ snapshot.

(** [format_state(s)]: [self.cardinals[s]], where a negative index counts
    from the end of the list. *)
Definition format_state (s : Z) : result string :=
  let n := Z.of_nat (length cardinals) in
  let i := if decide (s < 0)%Z then (s + n)%Z else s in
  if decide (0 ≤ i)%Z then cardinal_name <$> list_getitem cardinals (Z.to_nat i)
  else Raise IndexError.

End CompassQTable.

(** ** class LidarCompassQTable *)

Module LidarCompassQTable.

(** [self.lidar_positions[c]] *)
Definition lidar_positions (c : Cardinal) : list Position :=
  match c with
  | West => [(0, -1); (0, -2)]
  | SouthWest => [(1, -1)]
  | South => [(1, 0); (2, 0)]
  | SouthEast => [(1, 1)]
  | East => [(0, 1); (0, 2)]
  | NorthEast => [(-1, 1)]
  | North => [(-1, 0); (-2, 0)]
  | NorthWest => [(-1, -1)]
  end%Z.

(** [sense_obstacles(positions, drone_y, drone_x)] on the air grid
    [self.env.air]. *)
Fixpoint sense_obstacles (air : Grid Drone) (positions : list Position)
    (drone_y drone_x : Z) : Z :=
  match positions with
  | [] => 0
  | (y, x) :: positions' =>
      let y := (y + drone_y)%Z in
      let x := (x + drone_x)%Z in
      if negb (is_inside air (y, x)) then 1
      else if isinstance is_drone (getitem air (y, x)) then 1
      else sense_obstacles air positions' drone_y drone_x
  end.

(** [get_drone_state]: the [OrderedDict] of ['target'] and ['lidar'], as a
    pair. *)
Definition get_drone_state (env : DeliveryDrones) (drone : Drone) (drone_y drone_x : Z)
  : result (nat * list Z) :=
  target ← CompassQTable.get_drone_state (ground env) drone drone_y drone_x;
  let lidar :=
    (λ c, sense_obstacles (air env) (lidar_positions c) drone_y drone_x) <$> cardinals in
  Ok (target, lidar).

End LidarCompassQTable.

(** ** class GridView *)

Module GridView.

(** An array of shape [(h, w, 3)] is its row-major buffer: the three
    channels of a cell are next to each other. The array holds floats
    (float64), and a cell of the list below is the integer written to it:
    this is the value stored for an integer of magnitude up to 2^53
    ([exact_float] below), beyond which float64 rounds. [observation]
    writes only at positions that [get_objects] returned, which are cells
    of the array. *)
Definition getitem3 (sh : nat * nat) (arr : list Z) (p : Position) (c : nat) : Z :=
  default 0%Z (arr !! (3 * ravel_index sh p + c)).

Definition setitem3 (sh : nat * nat) (arr : list Z) (p : Position) (c : nat) (v : Z)
  : list Z :=
  <[3 * ravel_index sh p + c := v]> arr.

(** Bodies of the three loops of [observation]. *)
Definition mark_drone (sh : nat * nat) (arr : list Z) (dp : Drone * Position) : list Z :=
  let arr := setitem3 sh arr dp.2 0 (index dp.1) in
  match packet dp.1 with
  | Some carried => setitem3 sh arr dp.2 1 (packet_index carried)
  | None => arr
  end.

Definition mark_tile (sh : nat * nat) (c : nat) (arr : list Z) (tp : option Tile * Position)
  : result (list Z) :=
  i ← attr_index tp.1;
  Ok (setitem3 sh arr tp.2 c i).

(** [observation(_)] for the fields [self.env.n_drones] and
    [self.env.shape]. *)
Definition observation (n_drones : nat) (shape : nat * nat) (env : DeliveryDrones)
  : result (gmap Z (list Z)) :=
  let grid0 := replicate (shape.1 * shape.2 * 3) 0%Z in
  drones ← get_objects (air env);
  let grid1 := foldl (mark_drone shape) grid0 drones in
  packets ← get_objects_zipped is_packet None (ground env);
  grid2 ← foldM (mark_tile shape 1) grid1 packets;
  dropzones ← get_objects_zipped is_dropzone None (ground env);
  grid3 ← foldM (mark_tile shape 2) grid2 dropzones;
  Ok (foldl (λ obs index, <[index := grid3]> obs) ∅ (range1 n_drones)).

End GridView.

(** ** Vocabulary of the further statements *)

(** A world as [reset] builds it for [n] drones: the drones of the air grid
    are the drones 1..n, the packets 1..n and the dropzones 1..n are on the
    ground or (the packets) carried by drones, and the grid has a cell for
    each tile. *)
Definition legal_world (n : nat) (self : DeliveryDrones) : Prop :=
  Env_wf self ∧
  index <$> objects (air self) ≡ₚ range1 n ∧
  2 * n ≤ (shape (air self)).1 * (shape (air self)).2 ∧
  objects (ground self) ++ cargo (objects (air self))
    ≡ₚ new_packets n ++ new_dropzones n.

(** Every action of the dict is the value of a member of [Action]. *)
Definition valid_actions (actions : gmap Z Z) : Prop :=
  ∀ i v, actions !! i = Some v → (0 ≤ v ≤ 4)%Z.

(** What both loops of [step] keep true of [rewards]: a reward is -1, 0 or
    1; the drones with reward -1 are scheduled for respawn; the drones
    scheduled for respawn and the drones named in [actions] have a reward. *)
Definition rewards_inv (actions : gmap Z Z) (st : Locals) : Prop :=
  (∀ i r, rewards st !! i = Some r → r = (-1)%Z ∨ r = 0%Z ∨ r = 1%Z) ∧
  (∀ i, rewards st !! i = Some (-1)%Z → i ∈ index <$> air_respawns st) ∧
  (∀ i, i ∈ index <$> air_respawns st → is_Some (rewards st !! i)) ∧
  (∀ i, is_Some (actions !! i) → is_Some (rewards st !! i)).

(** The distance [get_drone_state] minimises: the number of moves between
    two cells. *)
Definition l1_distance (p q : Position) : Z := (Z.abs (q.1 - p.1) + Z.abs (q.2 - p.2))%Z.

(** What [get_drone_state] looks for on the ground: a packet for a drone
    that has none, the dropzone of its packet for a drone that has one. *)
Definition is_target (drone : Drone) (t : Tile) : Prop :=
  match packet drone, t with
  | None, TPacket _ => True
  | Some carried, TDropzone z => dropzone_index z = packet_index carried
  | _, _ => False
  end.

Global Instance is_target_dec drone t : Decision (is_target drone t).
Proof. unfold is_target. destruct (packet drone), t; apply _. Defined.

(** The cell [t] of the ground holds a target of the drone. *)
Definition target_at (ground : Grid Tile) (drone : Drone) (t : Position) : Prop :=
  inside (shape ground) t ∧ ∃ tile, getitem ground t = Some tile ∧ is_target drone tile.

(** The state [get_drone_state] computes from the position of the drone and
    the position of its target. *)
Definition compass_state (drone_y drone_x target_y target_x : Z) : result nat :=
  let west := (drone_x - target_x)%Z in
  let south := (target_y - drone_y)%Z in
  argmax [
    bool_decide (west > 0)%Z && bool_decide (south = 0)%Z;
    bool_decide (west > 0)%Z && bool_decide (south > 0)%Z;
    bool_decide (west = 0)%Z && bool_decide (south > 0)%Z;
    bool_decide (west < 0)%Z && bool_decide (south > 0)%Z;
    bool_decide (west < 0)%Z && bool_decide (south = 0)%Z;
    bool_decide (west < 0)%Z && bool_decide (south < 0)%Z;
    bool_decide (west = 0)%Z && bool_decide (south < 0)%Z;
    bool_decide (west > 0)%Z && bool_decide (south < 0)%Z
  ].

(** The class [get_drone_state] asks [get_objects] for. *)
Definition target_type (drone : Drone) : Tile → bool :=
  if packet drone is None then is_packet else is_dropzone.

(** What the three channels of the array of [GridView.observation] show of
    a cell: the index of the drone in it; the index of the packet on its
    ground or, if there is none, of the packet that the drone in it carries;
    the index of the dropzone on its ground; 0 for what is not there. *)
Definition drone_channel (env : DeliveryDrones) (p : Position) : Z :=
  match getitem (air env) p with
  | Some d => index d
  | None => 0
  end.

Definition packet_channel (env : DeliveryDrones) (p : Position) : Z :=
  match getitem (ground env) p, getitem (air env) p with
  | Some (TPacket on_ground), _ => packet_index on_ground
  | _, Some (mkDrone _ (Some carried)) => packet_index carried
  | _, _ => 0
  end.

Definition dropzone_channel (env : DeliveryDrones) (p : Position) : Z :=
  match getitem (ground env) p with
  | Some (TDropzone z) => dropzone_index z
  | _ => 0
  end.

(** [tile.index] of a tile. *)
Definition tile_index (t : Tile) : Z :=
  match t with
  | TPacket p => packet_index p
  | TDropzone z => dropzone_index z
  end.

(** The dict that [GridView.observation] returns when its array is [arr]. *)
Definition same_for_all (n_drones : nat) (arr : list Z) : gmap Z (list Z) :=
  foldl (λ obs index, <[index := arr]> obs) ∅ (range1 n_drones).

(** The integers of NumPy's [int64]: the coordinates that [np.nonzero]
    returns are of this type, and so are the sums, differences and distances
    that the wrappers compute from them, which wrap around outside this
    range; [np.ravel_multi_index] takes no other coordinates. *)
Definition int64 (z : Z) : Prop := (- 2 ^ 63 ≤ z < 2 ^ 63)%Z.

Definition int64_position (p : Position) : Prop := int64 p.1 ∧ int64 p.2.

(** The drone coordinates for which nothing wraps around in
    [get_drone_state]: the differences and the distances between [(y, x)]
    and a cell of a grid of shape [sh], and the coordinates that the lidar
    looks at, at most two cells from [(y, x)], all fit [int64]. The
    coordinates of a cell of a grid whose two sides add up to less than
    2^62 are of this kind. *)
Definition no_wrap (sh : nat * nat) (y x : Z) : Prop :=
  (Z.abs y + Z.abs x + Z.of_nat sh.1 + Z.of_nat sh.2 + 2 < 2 ^ 63)%Z.

(** The integers that a float64 holds exactly, whatever their sign: up to
    2^53. *)
Definition exact_float (z : Z) : Prop := (Z.abs z ≤ 2 ^ 53)%Z.

(** Every index that [GridView.observation] writes into its array of
    floats is held exactly: those of the drones, of the packets they carry
    and of the tiles on the ground. *)
Definition exact_indices (env : DeliveryDrones) : Prop :=
  (∀ d, d ∈ objects (air env) →
        exact_float (index d) ∧
        ∀ carried, packet d = Some carried → exact_float (packet_index carried)) ∧
  (∀ t, t ∈ objects (ground env) → exact_float (tile_index t)).

(** ** More concrete worlds *)

(** The world and the generator of a [reset] that is known not to raise. *)
Definition reset_world (r : result (DeliveryDrones * RandomState)) : DeliveryDrones :=
  match r with
  | Ok (env, _) => env
  | Raise _ => mkEnv (empty_grid 0 0) (empty_grid 0 0)
  end.

Definition reset_random (r : result (DeliveryDrones * RandomState)) : RandomState :=
  match r with
  | Ok (_, rs) => rs
  | Raise _ => []
  end.


(** An action that is none of 0..4, for an index that is no drone's. *)
Definition actions_x : gmap Z Z := {[7%Z := 9%Z]}.

(** An action that is none of 0..4, for drone 1. *)
Definition actions_y : gmap Z Z := {[1%Z := 9%Z]}.

(** A world of 5 x 5 cells with drone 1 in the middle and drone 2 two cells
    to its left, at the border; packet 1 lies two cells below drone 1. *)
Definition world_k : DeliveryDrones :=
  mkEnv
    (setitem (setitem (empty_grid 5 5) (2, 2)%Z (Some (mkDrone 1 None)))
       (2, 0)%Z (Some (mkDrone 2 None)))
    (setitem (empty_grid 5 5) (4, 2)%Z (Some (TPacket (mkPacket 1)))).

(** * Properties *)

(** ** The exception monad *)

Lemma bind_Ok {A B} (f : A → result B) (m : result A) (b : B) :
  m ≫= f = Ok b ↔ ∃ a, m = Ok a ∧ f a = Ok b.
Proof.
  destruct m as [a|e]; simpl.
  - split; [eauto|]. by intros (a' & [= <-] & ?).
  - split; [done|]. by intros (? & ? & ?).
Qed.

Lemma foldM_cons {A S} (f : S → A → result S) (s : S) (a : A) (l : list A) :
  foldM f s (a :: l) = f s a ≫= λ s', foldM f s' l.
Proof. done. Qed.

Lemma foldM_app {A S} (f : S → A → result S) (s : S) (l1 l2 : list A) :
  foldM f s (l1 ++ l2) = foldM f s l1 ≫= λ s', foldM f s' l2.
Proof.
  revert s. induction l1 as [|a l1 IH]; intros s; simpl; [done|].
  destruct (f s a) as [s'|e]; simpl; [apply IH|done].
Qed.

(** A property kept by every iteration holds when the loop ends. *)
Lemma foldM_invariant {A S} (I : S → Prop) (f : S → A → result S) (l : list A) (s s' : S) :
  (∀ a t t', a ∈ l → I t → f t a = Ok t' → I t') →
  I s → foldM f s l = Ok s' → I s'.
Proof.
  revert s. induction l as [|a l IH]; intros s Hf Hs Hl; simpl in *.
  - by injection Hl as <-.
  - apply bind_Ok in Hl as (t & Ht & Hl).
    apply (IH t); [|eapply Hf; [left|done..]|done].
    intros a' u u' Ha'. apply Hf. by right.
Qed.

(** ** Flat indices and positions *)

Section indices.
Context (sh : nat * nat).

Lemma ravel_index_lt p : inside sh p → ravel_index sh p < sh.1 * sh.2.
Proof. unfold inside, ravel_index. destruct p as [y x]; simpl. intros [??]. nia. Qed.

Lemma ravel_index_inj p q :
  inside sh p → inside sh q → ravel_index sh p = ravel_index sh q → p = q.
Proof.
  unfold inside, ravel_index. destruct p as [y x], q as [y' x']; simpl.
  intros [??] [??] Heq.
  assert (y * Z.of_nat sh.2 + x = y' * Z.of_nat sh.2 + x')%Z as Hz by nia.
  assert (y = y') by nia. subst y'. f_equal. lia.
Qed.

Lemma unravel_index_inside i : i < sh.1 * sh.2 → inside sh (unravel_index sh i).
Proof.
  intros Hi. assert (sh.2 ≠ 0) by nia.
  unfold inside, unravel_index; simpl. split.
  - split; [lia|]. apply inj_lt, Nat.Div0.div_lt_upper_bound. nia.
  - split; [lia|]. apply inj_lt, Nat.mod_upper_bound. done.
Qed.

Lemma ravel_unravel_index i : i < sh.1 * sh.2 → ravel_index sh (unravel_index sh i) = i.
Proof.
  intros Hi. assert (sh.2 ≠ 0) by nia.
  unfold ravel_index, unravel_index; simpl.
  rewrite <- Nat2Z.inj_mul, <- Nat2Z.inj_add, Nat2Z.id.
  rewrite (Nat.div_mod_eq i sh.2) at 3. lia.
Qed.

Lemma unravel_ravel_index p : inside sh p → unravel_index sh (ravel_index sh p) = p.
Proof.
  intros Hp. apply ravel_index_inj; [|done|].
  - apply unravel_index_inside, ravel_index_lt, Hp.
  - apply ravel_unravel_index, ravel_index_lt, Hp.
Qed.
End indices.

Lemma is_inside_spec {A} (g : Grid A) p : is_inside g p = true ↔ inside (shape g) p.
Proof. unfold is_inside. by rewrite bool_decide_eq_true. Qed.

(** ** Reading and writing cells *)

Section cells.
Context {A : Type}.
Implicit Types (g : Grid A) (p q : Position) (v : option A).

Lemma shape_setitem g p v : shape (setitem g p v) = shape g.
Proof. done. Qed.

Lemma Grid_wf_setitem g p v : Grid_wf g → Grid_wf (setitem g p v).
Proof. unfold Grid_wf, setitem; simpl. by rewrite length_insert. Qed.

Lemma getitem_setitem_eq g p v :
  Grid_wf g → inside (shape g) p → getitem (setitem g p v) p = v.
Proof.
  intros Hwf Hp. unfold getitem, setitem; simpl.
  rewrite list_lookup_insert_eq; [done|].
  rewrite Hwf. by apply ravel_index_lt.
Qed.

Lemma getitem_setitem_ne g p q v :
  inside (shape g) p → inside (shape g) q → p ≠ q →
  getitem (setitem g p v) q = getitem g q.
Proof.
  intros Hp Hq Hne. unfold getitem, setitem; simpl.
  rewrite list_lookup_insert_ne; [done|].
  intros Heq. by apply Hne, (ravel_index_inj (shape g)).
Qed.

Lemma getitem_Some_lookup g p a :
  getitem g p = Some a ↔ grid g !! ravel_index (shape g) p = Some (Some a).
Proof.
  unfold getitem. destruct (grid g !! _) as [[?|]|]; simpl; naive_solver.
Qed.

Lemma getitem_unravel g i :
  Grid_wf g → i < length (grid g) →
  grid g !! i = Some (getitem g (unravel_index (shape g) i)).
Proof.
  intros Hwf Hi. unfold getitem. rewrite ravel_unravel_index by (by rewrite <- Hwf).
  destruct (lookup_lt_is_Some_2 (grid g) i Hi) as [c ->]. done.
Qed.
End cells.

(** ** The objects of a grid *)

(** [simpl] exposes the instance behind [omap]; this folds it back. *)
Ltac fold_omap :=
  repeat match goal with
  | |- context [list_omap ?A ?B ?f ?l] =>
      progress change (list_omap A B f l) with (omap f l)
  | H : context [list_omap ?A ?B ?f ?l] |- _ =>
      progress change (list_omap A B f l) with (omap f l) in H
  end.

Section objects.
Context {A : Type}.
Implicit Types (g : Grid A) (l : list (option A)) (c v : option A).

Lemma omap_id_insert l i c v :
  l !! i = Some c →
  option_list c ++ omap id (<[i:=v]> l) ≡ₚ option_list v ++ omap id l.
Proof.
  intros Hi. assert (i < length l) by (by eapply lookup_lt_Some).
  assert (∀ (o : option A) k, omap id (o :: k) = option_list o ++ omap id k) as Hcons.
  { by intros [?|] k. }
  rewrite insert_take_drop by done.
  rewrite <- (take_drop_middle l i c) at 3 by done.
  rewrite !omap_app, !Hcons.
  generalize (omap id (take i l)) (omap id (drop (S i) l)) (option_list c) (option_list v).
  intros l1 l2 lc lv.
  rewrite (Permutation_app_swap_app lc l1), (Permutation_app_swap_app lv l1).
  f_equiv. apply Permutation_app_swap_app.
Qed.

Lemma objects_setitem g p v :
  Grid_wf g → inside (shape g) p →
  option_list (getitem g p) ++ objects (setitem g p v) ≡ₚ option_list v ++ objects g.
Proof.
  intros Hwf Hp. unfold objects, getitem, setitem; simpl.
  destruct (lookup_lt_is_Some_2 (grid g) (ravel_index (shape g) p)) as [c Hc].
  { rewrite Hwf. by apply ravel_index_lt. }
  rewrite Hc; simpl. by apply omap_id_insert.
Qed.

Lemma elem_of_flatnonzero_from (P : option A → bool) i l j :
  j ∈ flatnonzero_from P i l ↔ i ≤ j ∧ ∃ c, l !! (j - i) = Some c ∧ P c = true.
Proof.
  revert i. induction l as [|c l IH]; intros i; simpl.
  - rewrite elem_of_nil. split; [done|]. by intros (_ & c & ? & _).
  - assert (j ∈ flatnonzero_from P (S i) l ↔
            i < j ∧ ∃ c', (c :: l) !! (j - i) = Some c' ∧ P c' = true) as Hrest.
    { rewrite IH. split.
      - intros (? & c' & Hc' & ?). split; [lia|]. exists c'.
        by replace (j - i) with (S (j - S i)) by lia.
      - intros (? & c' & Hc' & ?). split; [lia|]. exists c'.
        by replace (j - i) with (S (j - S i)) in Hc' by lia. }
    destruct (P c) eqn:HP.
    + rewrite elem_of_cons, Hrest. split.
      * intros [->|[? ?]]; [|split; [lia|done]].
        split; [done|]. exists c. by rewrite Nat.sub_diag.
      * intros [Hle Hc]. destruct (decide (j = i)) as [|Hne]; [by left|right].
        split; [lia|done].
    + rewrite Hrest. split; [intros [? ?]; split; [lia|done]|].
      intros [Hle (c' & Hc' & HP')]. split; [|by exists c'].
      destruct (decide (j = i)) as [->|]; [|lia].
      rewrite Nat.sub_diag in Hc'. simpl in Hc'. congruence.
Qed.

Lemma NoDup_flatnonzero_from (P : option A → bool) i l : NoDup (flatnonzero_from P i l).
Proof.
  revert i. induction l as [|c l IH]; intros i; simpl; [constructor|].
  destruct (P c); [|done]. constructor; [|done].
  rewrite elem_of_flatnonzero_from. intros [? _]. lia.
Qed.

(** The empty cells and the objects make up the buffer. *)
Lemma length_flatnonzero_None i l :
  length (flatnonzero_from is_None i l) + length (omap id l) = length l.
Proof.
  revert i. induction l as [|[a|] l IH]; intros i; simpl; [done|..]; fold_omap.
  - specialize (IH (S i)). lia.
  - specialize (IH (S i)). lia.
Qed.

Lemma length_flatnonzero_not_None i l :
  length (flatnonzero_from is_not_None i l) = length (omap id l).
Proof.
  revert i. induction l as [|[a|] l IH]; intros i; simpl; [done|..]; fold_omap;
    by rewrite IH.
Qed.

(** An object is listed with the flat index of its cell. *)
Lemma elem_of_zip_flatnonzero i l a j :
  (a, j) ∈ zip (omap id l) (flatnonzero_from is_not_None i l) ↔
  i ≤ j ∧ l !! (j - i) = Some (Some a).
Proof.
  revert i. induction l as [|c l IH]; intros i.
  - simpl. rewrite elem_of_nil. split; [done|]. by intros [_ ?].
  - assert ((a, j) ∈ zip (omap id l) (flatnonzero_from is_not_None (S i) l) ↔
            i < j ∧ (c :: l) !! (j - i) = Some (Some a)) as Hrest.
    { rewrite IH. split; intros [Hlt Hj]; (split; [lia|]).
      - by replace (j - i) with (S (j - S i)) by lia.
      - by replace (j - i) with (S (j - S i)) in Hj by lia. }
    destruct c as [b|]; simpl; fold_omap.
    + rewrite elem_of_cons. split.
      * intros [[= -> ->]|Hin]; [by rewrite Nat.sub_diag|].
        apply Hrest in Hin as [? ?]. split; [lia|done].
      * intros [Hle Hj]. destruct (decide (j = i)) as [->|].
        { rewrite Nat.sub_diag in Hj. simpl in Hj. left. congruence. }
        right. apply Hrest. split; [lia|done].
    + split.
      * intros Hin. apply Hrest in Hin as [? ?]. split; [lia|done].
      * intros [Hle Hj]. apply Hrest. split; [|done].
        destruct (decide (j = i)) as [->|]; [|lia].
        rewrite Nat.sub_diag in Hj. simpl in Hj. congruence.
Qed.
End objects.

(** ** [zip_results] *)

Section zip_results.
Context {A : Type}.
Implicit Types (g : Grid A) (p : Position).

Lemma zip_results_fst g : (zip_results g).*1 = objects g.
Proof.
  unfold zip_results, objects. apply fst_zip.
  by rewrite length_fmap, length_flatnonzero_not_None.
Qed.

Lemma zip_results_snd g :
  (zip_results g).*2 = unravel_index (shape g) <$> flatnonzero_from is_not_None 0 (grid g).
Proof.
  unfold zip_results. apply snd_zip.
  by rewrite length_fmap, length_flatnonzero_not_None.
Qed.

Lemma zip_results_alt g :
  zip_results g =
  prod_map id (unravel_index (shape g))
    <$> zip (objects g) (flatnonzero_from is_not_None 0 (grid g)).
Proof.
  unfold zip_results, objects.
  generalize (omap id (grid g)) (flatnonzero_from is_not_None 0 (grid g)).
  intros l. induction l as [|a l IH]; intros [|j k]; simpl; [done..|].
  f_equal. apply IH.
Qed.

Lemma elem_of_zip_results g a p :
  Grid_wf g →
  (a, p) ∈ zip_results g ↔ inside (shape g) p ∧ getitem g p = Some a.
Proof.
  intros Hwf. rewrite zip_results_alt, list_elem_of_fmap. split.
  - intros ([b j] & [= -> ->] & Hin).
    apply elem_of_zip_flatnonzero in Hin as [_ Hj]. rewrite Nat.sub_0_r in Hj.
    assert (j < (shape g).1 * (shape g).2) as Hlt.
    { rewrite <- Hwf. by eapply lookup_lt_Some. }
    split; [by apply unravel_index_inside|].
    apply getitem_Some_lookup. by rewrite ravel_unravel_index.
  - intros [Hp Ha]. apply getitem_Some_lookup in Ha.
    exists (a, ravel_index (shape g) p). split.
    + simpl. by rewrite unravel_ravel_index.
    + apply elem_of_zip_flatnonzero. rewrite Nat.sub_0_r. split; [lia|done].
Qed.

Lemma NoDup_zip_results_snd g : Grid_wf g → NoDup (zip_results g).*2.
Proof.
  intros Hwf. rewrite zip_results_snd. apply NoDup_fmap_2_strong.
  - intros i j Hi Hj Heq.
    apply elem_of_flatnonzero_from in Hi as (_ & ? & Hi%lookup_lt_Some & _).
    apply elem_of_flatnonzero_from in Hj as (_ & ? & Hj%lookup_lt_Some & _).
    rewrite Nat.sub_0_r, Hwf in Hi, Hj.
    rewrite <- (ravel_unravel_index (shape g) i), <- (ravel_unravel_index (shape g) j) by done.
    by rewrite Heq.
  - apply NoDup_flatnonzero_from.
Qed.
End zip_results.

(** ** Sampling without replacement *)

Lemma sample_spec pool k rs :
  k ≤ length pool → NoDup pool →
  length (sample pool k rs).1 = k ∧ NoDup (sample pool k rs).1 ∧
  ∀ c, c ∈ (sample pool k rs).1 → c ∈ pool.
Proof.
  revert pool rs. induction k as [|k IH]; intros pool rs Hk Hnd; simpl.
  { split; [done|]. split; [constructor|]. by intros c ?%elem_of_nil. }
  destruct (lookup_lt_is_Some_2 pool (hd 0 rs mod length pool)) as [c Hc].
  { apply Nat.mod_upper_bound. lia. }
  rewrite Hc.
  destruct (IH (delete (hd 0 rs mod length pool) pool) (tl rs)) as (Hlen & Hnd' & Hsub).
  { rewrite length_delete by eauto. lia. }
  { eapply sublist_NoDup; [done|]. apply sublist_delete. }
  destruct (sample (delete _ pool) k (tl rs)) as [cs rs']; simpl in *.
  split; [by rewrite Hlen|]. split.
  - constructor; [|done]. intros Hin%Hsub.
    rewrite (delete_Permutation pool _ c Hc) in Hnd. by apply NoDup_cons in Hnd as [? _].
  - intros c' [->|Hin]%elem_of_cons.
    + by eapply list_elem_of_lookup_2.
    + eapply elem_of_sublist; [by apply Hsub|apply sublist_delete].
Qed.

Lemma random_choice_Ok pool k rs :
  (∃ r, random_choice pool k rs = Ok r) ↔ k ≤ length pool.
Proof.
  unfold random_choice. case_decide; split; try done; eauto. by intros [? ?].
Qed.

(** ** [Grid.spawn] *)

Section spawn.
Context {A : Type}.
Implicit Types (g : Grid A) (p q : Position) (idxs : list Position) (objs : list A).

Lemma elem_of_empty_cells g i :
  i ∈ empty_cells g ↔ grid g !! i = Some None.
Proof.
  unfold empty_cells. rewrite elem_of_flatnonzero_from, Nat.sub_0_r. split.
  - by intros (_ & [?|] & ? & ?).
  - intros Hi. split; [lia|]. by exists None.
Qed.

Lemma length_empty_cells g :
  length (empty_cells g) + length (objects g) = length (grid g).
Proof. apply length_flatnonzero_None. Qed.

Lemma assign_cons g p idxs o objs :
  assign g (p :: idxs) (o :: objs) = assign (setitem g p (Some o)) idxs objs.
Proof. done. Qed.

Lemma shape_assign g idxs objs : shape (assign g idxs objs) = shape g.
Proof.
  revert g objs. induction idxs as [|p idxs IH]; intros g [|o objs]; try done.
  rewrite assign_cons, IH. done.
Qed.

Lemma Grid_wf_assign g idxs objs : Grid_wf g → Grid_wf (assign g idxs objs).
Proof.
  revert g objs. induction idxs as [|p idxs IH]; intros g [|o objs] Hwf; try done.
  rewrite assign_cons. by apply IH, Grid_wf_setitem.
Qed.

Lemma getitem_assign_ne g idxs objs q :
  Forall (inside (shape g)) idxs → inside (shape g) q → q ∉ idxs →
  getitem (assign g idxs objs) q = getitem g q.
Proof.
  revert g objs. induction idxs as [|p idxs IH]; intros g [|o objs] Hin Hq Hni; try done.
  apply Forall_cons in Hin as [Hp Hin]. apply not_elem_of_cons in Hni as [Hne Hni].
  rewrite assign_cons, IH by done. by apply getitem_setitem_ne.
Qed.

Lemma getitem_assign_lookup g idxs objs i p o :
  Grid_wf g → Forall (inside (shape g)) idxs → NoDup idxs →
  idxs !! i = Some p → objs !! i = Some o →
  getitem (assign g idxs objs) p = Some o.
Proof.
  revert g objs i.
  induction idxs as [|p' idxs IH]; intros g [|o' objs] [|i] Hwf Hin Hnd Hp Ho; try done.
  - simpl in Hp, Ho. injection Hp as ->. injection Ho as ->.
    apply Forall_cons in Hin as [Hp Hin]. apply NoDup_cons in Hnd as [Hni Hnd].
    rewrite assign_cons, getitem_assign_ne by done. by apply getitem_setitem_eq.
  - apply Forall_cons in Hin as [Hp' Hin]. apply NoDup_cons in Hnd as [Hni Hnd].
    rewrite assign_cons. eapply IH; [by apply Grid_wf_setitem|done..].
Qed.

Lemma objects_assign g idxs objs :
  Grid_wf g → NoDup idxs → length idxs = length objs →
  Forall (λ p, inside (shape g) p ∧ getitem g p = None) idxs →
  objects (assign g idxs objs) ≡ₚ objs ++ objects g.
Proof.
  revert g objs.
  induction idxs as [|p idxs IH]; intros g [|o objs] Hwf Hnd Hlen Hin; try done.
  apply Forall_cons in Hin as [[Hp Hemp] Hin]. apply NoDup_cons in Hnd as [Hni Hnd].
  rewrite assign_cons, IH; [|by apply Grid_wf_setitem|done|by injection Hlen|].
  - pose proof (objects_setitem g p (Some o) Hwf Hp) as Hperm.
    rewrite Hemp in Hperm. simpl in Hperm. rewrite Hperm.
    symmetry. apply Permutation_middle.
  - eapply Forall_impl; [apply Forall_and; split; [apply Hin|]|].
    + apply Forall_forall. intros q Hq. exact (λ H : q = p, Hni (eq_ind q (λ x, x ∈ idxs) Hq p H)).
    + intros q [[Hq Hnone] Hne]. split; [done|].
      rewrite getitem_setitem_ne; done || (intros ->; by apply Hne).
Qed.

(** [spawn] raises exactly when this grid has too few empty cells. *)
Lemma spawn_Ok g objs rs :
  (∃ r, spawn g objs rs = Ok r) ↔ length objs ≤ length (empty_cells g).
Proof.
  unfold spawn. rewrite <- (random_choice_Ok _ _ rs). split.
  - intros [r Hr]. apply bind_Ok in Hr as (c & Hc & _). eauto.
  - intros [[flat rs'] ->]. simpl. eauto.
Qed.

Lemma spawn_spec g objs rs g' idxs rs' :
  Grid_wf g → spawn g objs rs = Ok (g', idxs, rs') →
  shape g' = shape g ∧ Grid_wf g' ∧ length idxs = length objs ∧ NoDup idxs ∧
  Forall (λ p, inside (shape g) p ∧ getitem g p = None) idxs ∧
  (∀ i p o, idxs !! i = Some p → objs !! i = Some o → getitem g' p = Some o) ∧
  (∀ q, inside (shape g) q → q ∉ idxs → getitem g' q = getitem g q) ∧
  objects g' ≡ₚ objs ++ objects g.
Proof.
  intros Hwf Hsp. unfold spawn in Hsp.
  apply bind_Ok in Hsp as ([flat rs1] & Hch & Hsp). simpl in Hsp.
  injection Hsp as <- <- <-.
  unfold random_choice in Hch. case_decide as Hk; [|done].
  injection Hch as Hch.
  destruct (sample_spec (empty_cells g) (length objs) rs Hk) as (Hlen & Hnd & Hsub).
  { apply NoDup_flatnonzero_from. }
  rewrite Hch in Hlen, Hnd, Hsub. simpl in *.
  assert (∀ i, i ∈ flat → i < (shape g).1 * (shape g).2 ∧ grid g !! i = Some None) as Hflat.
  { intros i Hi%Hsub%elem_of_empty_cells. split; [|done].
    rewrite <- Hwf. by eapply lookup_lt_Some. }
  assert (Forall (λ p, inside (shape g) p ∧ getitem g p = None)
            (unravel_index (shape g) <$> flat)) as Hall.
  { apply Forall_fmap, Forall_forall. intros i [Hi Hnone]%Hflat. simpl.
    split; [by apply unravel_index_inside|].
    unfold getitem. by rewrite ravel_unravel_index, Hnone. }
  assert (NoDup (unravel_index (shape g) <$> flat)) as Hnd'.
  { apply NoDup_fmap_2_strong; [|done].
    intros i j [Hi _]%Hflat [Hj _]%Hflat Heq.
    rewrite <- (ravel_unravel_index (shape g) i), <- (ravel_unravel_index (shape g) j) by done.
    by rewrite Heq. }
  assert (Forall (inside (shape g)) (unravel_index (shape g) <$> flat)) as Hins.
  { eapply Forall_impl; [exact Hall|]. by intros ? [? _]. }
  split; [apply shape_assign|]. split; [by apply Grid_wf_assign|].
  split; [by rewrite length_fmap|]. split; [done|]. split; [done|].
  split; [|split].
  - intros i p o Hp Ho. by eapply getitem_assign_lookup.
  - intros q Hq Hni. by apply getitem_assign_ne.
  - apply objects_assign; [done..|by rewrite length_fmap|done].
Qed.
End spawn.

(** ** The dictionary [new_positions] *)

Lemma group_dd_append q' q d nps :
  group q' (dd_append q d nps) = group q' nps ++ (if decide (q = q') then [d] else []).
Proof.
  induction nps as [|[k ds] rest IH]; simpl.
  - by repeat case_decide.
  - destruct (decide (k = q)) as [->|Hkq]; simpl.
    + destruct (decide (q = q')) as [->|]; [done|]. by rewrite app_nil_r.
    + destruct (decide (k = q')) as [->|]; [|done].
      rewrite decide_False by done. by rewrite app_nil_r.
Qed.

Lemma elem_of_dd_append_keys q d nps k :
  k ∈ (dd_append q d nps).*1 ↔ k = q ∨ k ∈ nps.*1.
Proof.
  induction nps as [|[k' ds] rest IH]; simpl.
  - rewrite list_elem_of_singleton, elem_of_nil. tauto.
  - case_decide as Hk; simpl; rewrite !elem_of_cons.
    + subst k'. tauto.
    + rewrite IH. tauto.
Qed.

Lemma np_wf_dd_append sh q d nps :
  inside sh q → np_wf sh nps → np_wf sh (dd_append q d nps).
Proof.
  intros Hq [Hnd Hall]. induction nps as [|[k ds] rest IH]; csimpl.
  - split; [apply NoDup_singleton|]. constructor; [by split|constructor].
  - rewrite fmap_cons in Hnd.
    apply NoDup_cons in Hnd as [Hk Hnd]. apply Forall_cons in Hall as [[Hin Hne] Hall].
    case_decide as Hkq.
    + split; [by constructor|]. constructor; [|done]. split; [done|].
      by destruct ds.
    + destruct (IH Hnd Hall) as [Hnd' Hall']. split.
      * rewrite fmap_cons. constructor; [|done].
        rewrite elem_of_dd_append_keys. intros [Heq|?]; [by apply Hkq|done].
      * by constructor.
Qed.

Lemma concat_dd_append q d nps : concat (dd_append q d nps).*2 ≡ₚ d :: concat nps.*2.
Proof.
  induction nps as [|[k ds] rest IH]; simpl; [done|].
  case_decide; simpl.
  - rewrite <- app_assoc. simpl. by rewrite <- Permutation_middle.
  - rewrite IH. by rewrite <- Permutation_middle.
Qed.

Lemma group_elem_of nps q ds : NoDup nps.*1 → (q, ds) ∈ nps → group q nps = ds.
Proof.
  induction nps as [|[k ds'] rest IH]; intros Hnd Hin; [by apply elem_of_nil in Hin|].
  apply NoDup_cons in Hnd as [Hk Hnd]. simpl in *.
  apply elem_of_cons in Hin as [[= <- <-]|Hin].
  - by rewrite decide_True.
  - rewrite decide_False; [by apply IH|].
    intros ->. apply Hk. by apply (list_elem_of_fmap_2 fst) in Hin.
Qed.

(** ** The first loop *)

Lemma air_navigation_Ok actions st d p st' :
  air_navigation actions st (d, p) = Ok st' →
  ∃ a, get_action actions d = Ok a ∧
    st' = if decide (inside (shape (l_air st)) (new_position a p)) then
            mkLocals (setitem (l_air st) p None) (l_ground st) (rewards st)
              (dd_append (new_position a p) d (new_positions st))
              (air_respawns st) (ground_respawns st)
          else
            mkLocals (setitem (l_air st) p None) (l_ground st)
              (<[index d := crash_reward]> (rewards st)) (new_positions st)
              (air_respawns st ++ [drop_packet d])
              (ground_respawns st ++ option_list (lost_packet d)).
Proof.
  unfold air_navigation. intros H. apply bind_Ok in H as (a & Ha & H).
  exists a. split; [done|].
  destruct (is_inside _ _) eqn:Hin.
  - apply is_inside_spec in Hin. rewrite shape_setitem in Hin.
    rewrite decide_True by done. by injection H.
  - rewrite decide_False; [by injection H|].
    intros Hin'. rewrite <- (shape_setitem _ p None), <- is_inside_spec in Hin'. congruence.
Qed.

Lemma heads_to_spec actions sh q d p :
  heads_to actions sh q (d, p) = true ↔
  ∃ a, get_action actions d = Ok a ∧ new_position a p = q ∧ inside sh q.
Proof.
  unfold heads_to; simpl. destruct (get_action actions d) as [a|e].
  - rewrite bool_decide_eq_true. split; [by exists a|]. by intros (? & [= <-] & ?).
  - split; [done|]. by intros (? & ? & _).
Qed.

Lemma leaves_spec actions sh d p :
  leaves actions sh (d, p) = true ↔
  ∃ a, get_action actions d = Ok a ∧ ¬ inside sh (new_position a p).
Proof.
  unfold leaves; simpl. destruct (get_action actions d) as [a|e].
  - rewrite bool_decide_eq_true. split; [by exists a|]. by intros (? & [= <-] & ?).
  - split; [done|]. by intros (? & ? & _).
Qed.

(** The locals after the first loop, in closed form. *)
Lemma air_navigation_loop actions l st st' :
  foldM (air_navigation actions) st l = Ok st' →
  shape (l_air st') = shape (l_air st) ∧
  l_ground st' = l_ground st ∧
  (∀ q, group q (new_positions st') =
        group q (new_positions st)
        ++ (filter (λ dp, heads_to actions (shape (l_air st)) q dp = true) l).*1) ∧
  air_respawns st' =
    air_respawns st
    ++ (drop_packet <$> (filter (λ dp, leaves actions (shape (l_air st)) dp = true) l).*1) ∧
  ground_respawns st' =
    ground_respawns st
    ++ omap lost_packet (filter (λ dp, leaves actions (shape (l_air st)) dp = true) l).*1 ∧
  rewards st' =
    crash_all (rewards st) (filter (λ dp, leaves actions (shape (l_air st)) dp = true) l).*1.
Proof.
  revert st. induction l as [|[d p] l IH]; intros st Hl; simpl in Hl.
  { injection Hl as <-. rewrite !app_nil_r. split_and!; try done.
    intros q. by rewrite app_nil_r. }
  apply bind_Ok in Hl as (st1 & H1 & Hl).
  apply air_navigation_Ok in H1 as (a & Ha & ->).
  destruct (IH _ Hl) as (Hsh & Hg & Hgrp & Har & Hgr & Hrw). clear IH Hl.
  case_decide as Hin; simpl in *.
  - assert (leaves actions (shape (l_air st)) (d, p) = false) as Hlv.
    { apply not_true_is_false. rewrite leaves_spec. intros (a' & Ha' & Hout).
      rewrite Ha in Ha'. injection Ha' as <-. done. }
    rewrite (filter_cons_False (λ dp, leaves _ _ dp = true)) by (by rewrite Hlv).
    split_and!; try done. intros q. rewrite Hgrp, group_dd_append, <- app_assoc. f_equal.
    case_decide as Hq.
    + subst q. rewrite filter_cons_True; [done|]. apply heads_to_spec. by exists a.
    + rewrite filter_cons_False; [done|]. rewrite heads_to_spec.
      intros (a' & Ha' & Hq' & _). rewrite Ha in Ha'. by injection Ha' as <-.
  - assert (leaves actions (shape (l_air st)) (d, p) = true) as Hlv.
    { apply leaves_spec. by exists a. }
    rewrite (filter_cons_True (λ dp, leaves _ _ dp = true)) by done.
    csimpl. split_and!; try done.
    + intros q. rewrite Hgrp. f_equal. rewrite filter_cons_False; [done|].
      rewrite heads_to_spec. intros (a' & Ha' & Hq' & Hins).
      rewrite Ha in Ha'. injection Ha' as <-. by subst q.
    + by rewrite Har, <- app_assoc.
    + rewrite Hgr, <- app_assoc. f_equal. by destruct (lost_packet d).
Qed.

Lemma air_navigation_loop_np_wf actions l st st' :
  foldM (air_navigation actions) st l = Ok st' →
  np_wf (shape (l_air st)) (new_positions st) →
  np_wf (shape (l_air st')) (new_positions st').
Proof.
  intros Hl Hwf.
  apply (foldM_invariant (λ t, shape (l_air t) = shape (l_air st) ∧
                               np_wf (shape (l_air st)) (new_positions t)) _ _ _ _) in Hl.
  - destruct Hl as [-> ?]. done.
  - intros [d p] t t' _ [Hsh Ht] (a & _ & ->)%air_navigation_Ok.
    rewrite Hsh. case_decide; simpl; (split; [done|]); [|done].
    by apply np_wf_dd_append.
  - done.
Qed.

Lemma air_navigation_air actions st d p st' :
  air_navigation actions st (d, p) = Ok st' → l_air st' = setitem (l_air st) p None.
Proof. intros (a & _ & ->)%air_navigation_Ok. by case_decide. Qed.

Lemma air_navigation_loop_air actions l st st' :
  foldM (air_navigation actions) st l = Ok st' →
  Grid_wf (l_air st) → Forall (inside (shape (l_air st))) l.*2 →
  Grid_wf (l_air st') ∧
  ∀ q, inside (shape (l_air st)) q →
       getitem (l_air st') q = if decide (q ∈ l.*2) then None else getitem (l_air st) q.
Proof.
  revert st. induction l as [|[d p] l IH]; intros st Hl Hwf Hins.
  { injection Hl as <-. split; [done|]. intros q _. rewrite decide_False; [done|].
    apply not_elem_of_nil. }
  rewrite foldM_cons in Hl. apply bind_Ok in Hl as (st1 & H1 & Hl).
  apply air_navigation_air in H1 as Hair.
  rewrite fmap_cons in Hins. apply Forall_cons in Hins as [Hp Hins].
  destruct (IH _ Hl) as [Hwf' Hget].
  { rewrite Hair. by apply Grid_wf_setitem. }
  { by rewrite Hair. }
  split; [done|]. intros q Hq. rewrite Hget by (by rewrite Hair). rewrite Hair, fmap_cons.
  simpl. destruct (decide (q = p)) as [->|Hne].
  - rewrite (decide_True (P := p ∈ p :: l.*2)) by left.
    destruct (decide (p ∈ l.*2)); [done|]. by apply getitem_setitem_eq.
  - rewrite getitem_setitem_ne by done.
    destruct (decide (q ∈ l.*2)) as [Hin|Hni].
    + by rewrite decide_True by (by right).
    + rewrite decide_False; [done|]. by intros [?|?]%elem_of_cons.
Qed.

Lemma air_navigation_loop_census actions l st st' :
  foldM (air_navigation actions) st l = Ok st' →
  concat (new_positions st').*2
  ≡ₚ concat (new_positions st).*2
     ++ (filter (λ dp, ¬ (leaves actions (shape (l_air st)) dp = true)) l).*1.
Proof.
  revert st. induction l as [|[d p] l IH]; intros st Hl; simpl in Hl.
  { injection Hl as <-. by rewrite app_nil_r. }
  apply bind_Ok in Hl as (st1 & H1 & Hl).
  apply air_navigation_Ok in H1 as (a & Ha & ->).
  rewrite (IH _ Hl). clear IH Hl. case_decide as Hin; simpl.
  - rewrite filter_cons_True.
    + rewrite concat_dd_append. csimpl. by rewrite <- Permutation_middle.
    + rewrite leaves_spec. intros (a' & Ha' & Hout). rewrite Ha in Ha'.
      by injection Ha' as <-.
  - rewrite filter_cons_False; [done|]. intros Hnl. apply Hnl, leaves_spec. by exists a.
Qed.

(** The first loop raises exactly when some drone has an invalid action. *)
Lemma air_navigation_loop_Ok actions l st :
  (∃ st', foldM (air_navigation actions) st l = Ok st') ↔
  Forall (λ dp, ∃ a, get_action actions dp.1 = Ok a) l.
Proof.
  revert st. induction l as [|[d p] l IH]; intros st; simpl.
  { split; [done|]. eauto. }
  rewrite Forall_cons. split.
  - intros (st' & (st1 & H1 & Hl)%bind_Ok).
    apply air_navigation_Ok in H1 as (a & Ha & _). split; [by exists a|].
    apply (IH st1). eauto.
  - intros [[a Ha] Hl]. simpl in Ha. unfold air_navigation. rewrite Ha. simpl.
    destruct (is_inside _ _); simpl; by apply IH.
Qed.

(** ** The second loop *)

Ltac inv_further H :=
  unfold further_air_navigation in H;
  repeat case_match; simplify_eq; csimpl in *.

Lemma crash_all_lookup_ne r ds i :
  i ∉ index <$> ds → crash_all r ds !! i = r !! i.
Proof.
  unfold crash_all. revert r. induction ds as [|d ds IH]; intros r Hi; simpl; [done|].
  rewrite fmap_cons in Hi. apply not_elem_of_cons in Hi as [Hne Hi].
  rewrite IH by done. by rewrite lookup_insert_ne.
Qed.

Lemma crash_all_lookup r ds i :
  i ∈ index <$> ds → crash_all r ds !! i = Some crash_reward.
Proof.
  unfold crash_all. revert r. induction ds as [|d' ds IH]; intros r Hi; simpl.
  { by apply elem_of_nil in Hi. }
  destruct (decide (i ∈ index <$> ds)) as [Hin|Hni]; [by apply IH|].
  rewrite (crash_all_lookup_ne _ ds) by done.
  rewrite fmap_cons in Hi. apply elem_of_cons in Hi as [->|Hi]; [|done].
  by rewrite lookup_insert_eq.
Qed.

Lemma further_air_navigation_shape st item st' :
  further_air_navigation st item = Ok st' →
  shape (l_air st') = shape (l_air st) ∧ shape (l_ground st') = shape (l_ground st) ∧
  new_positions st' = new_positions st ∧
  (Grid_wf (l_air st) → Grid_wf (l_air st')) ∧
  (Grid_wf (l_ground st) → Grid_wf (l_ground st')).
Proof.
  intros H. inv_further H; split_and!; try done; by apply Grid_wf_setitem.
Qed.

Lemma further_air_navigation_frame st q ds st' q' :
  further_air_navigation st (q, ds) = Ok st' →
  shape (l_ground st) = shape (l_air st) →
  inside (shape (l_air st)) q → inside (shape (l_air st)) q' → q' ≠ q →
  getitem (l_air st') q' = getitem (l_air st) q' ∧
  getitem (l_ground st') q' = getitem (l_ground st) q'.
Proof.
  intros H Hsh Hq Hq' Hne.
  inv_further H; rewrite ?getitem_setitem_ne by (done || by rewrite Hsh); done.
Qed.

Lemma further_air_navigation_rewards st q ds st' i :
  further_air_navigation st (q, ds) = Ok st' →
  i ∉ index <$> ds → rewards st' !! i = rewards st !! i.
Proof.
  intros H Hi. inv_further H; try done.
  - by apply crash_all_lookup_ne.
  - rewrite lookup_insert_ne; [done|]. intros <-. apply Hi. left.
Qed.

Lemma further_air_navigation_mono st item st' :
  further_air_navigation st item = Ok st' →
  air_respawns st `prefix_of` air_respawns st' ∧
  ground_respawns st `prefix_of` ground_respawns st'.
Proof.
  intros H. inv_further H; split; try done; by apply prefix_app_r.
Qed.

Lemma cargo_app l1 l2 : cargo (l1 ++ l2) = cargo l1 ++ cargo l2.
Proof. apply omap_app. Qed.

Lemma cargo_cons d l : cargo (d :: l) = option_list (lost_packet d) ++ cargo l.
Proof. unfold cargo; csimpl. by destruct (lost_packet d). Qed.

Lemma cargo_drop_packet (l : list Drone) : cargo (drop_packet <$> l) = [].
Proof. induction l as [|d l IH]; [done|]. by rewrite fmap_cons, cargo_cons, IH. Qed.

Lemma index_drop_packet (l : list Drone) : index <$> (drop_packet <$> l) = index <$> l.
Proof. rewrite <- list_fmap_compose. by apply list_fmap_ext. Qed.

Lemma objects_setitem_None {A} (g : Grid A) p a :
  Grid_wf g → inside (shape g) p → getitem g p = None →
  objects (setitem g p (Some a)) ≡ₚ a :: objects g.
Proof.
  intros Hwf Hp Hnone. pose proof (objects_setitem g p (Some a) Hwf Hp) as H.
  by rewrite Hnone in H.
Qed.

Lemma objects_setitem_Some {A} (g : Grid A) p a v :
  Grid_wf g → inside (shape g) p → getitem g p = Some a →
  a :: objects (setitem g p v) ≡ₚ option_list v ++ objects g.
Proof.
  intros Hwf Hp Hsome. pose proof (objects_setitem g p v Hwf Hp) as H.
  by rewrite Hsome in H.
Qed.

Global Instance cargo_Permutation : Proper ((≡ₚ) ==> (≡ₚ)) cargo.
Proof. intros l k Hlk. unfold cargo. by rewrite Hlk. Qed.

Lemma further_air_navigation_census st q ds st' :
  further_air_navigation st (q, ds) = Ok st' →
  Grid_wf (l_air st) → Grid_wf (l_ground st) →
  shape (l_ground st) = shape (l_air st) →
  inside (shape (l_air st)) q → getitem (l_air st) q = None →
  index <$> (objects (l_air st') ++ air_respawns st')
    ≡ₚ index <$> (objects (l_air st) ++ air_respawns st ++ ds) ∧
  objects (l_ground st') ++ cargo (objects (l_air st') ++ air_respawns st')
      ++ ground_respawns st'
    ≡ₚ objects (l_ground st) ++ cargo (objects (l_air st) ++ air_respawns st ++ ds)
      ++ ground_respawns st.
Proof.
  intros H Hwa Hwg Hsh Hq Hnone.
  assert (inside (shape (l_ground st)) q) as Hq' by (by rewrite Hsh).
  inv_further H;
    try match goal with
        | Hlen : ¬ 1 < S (length ?l) |- _ =>
            assert (l = []) as -> by (destruct l; [done|simpl in Hlen; lia])
        end;
    rewrite ?(objects_setitem_None (l_air st)) by done;
    rewrite ?fmap_app, ?fmap_cons, ?cargo_app, ?cargo_cons, ?cargo_drop_packet,
      ?index_drop_packet;
    unfold lost_packet;
    repeat match goal with Hp : packet _ = _ |- _ => rewrite Hp; clear Hp end;
    simpl.
  - split; solve_Permutation.
  - split; [solve_Permutation|].
    apply (Permutation_cons_inv (a := TPacket p)).
    rewrite app_comm_cons, objects_setitem_Some by done. simpl. solve_Permutation.
  - split; [solve_Permutation|].
    apply (Permutation_cons_inv (a := TPacket p)).
    rewrite app_comm_cons, objects_setitem_Some by done. simpl. solve_Permutation.
  - split; [solve_Permutation|].
    apply (Permutation_cons_inv (a := TDropzone z)).
    rewrite app_comm_cons, objects_setitem_Some by done. simpl. solve_Permutation.
  - split; solve_Permutation.
  - split; solve_Permutation.
  - split; solve_Permutation.
Qed.

Lemma further_air_navigation_wf sh st item st' :
  further_air_navigation st item = Ok st' → Locals_wf sh st → Locals_wf sh st'.
Proof.
  intros H (Ha & Hg & Hwa & Hwg).
  apply further_air_navigation_shape in H as (Ha' & Hg' & _ & Hwa' & Hwg').
  unfold Locals_wf. rewrite Ha', Hg'. auto.
Qed.

Lemma second_loop_wf sh l st st' :
  foldM further_air_navigation st l = Ok st' → Locals_wf sh st →
  Locals_wf sh st' ∧ new_positions st' = new_positions st.
Proof.
  intros Hl Hwf.
  apply (foldM_invariant
           (λ t, Locals_wf sh t ∧ new_positions t = new_positions st) _ _ _ _ ) in Hl;
    [done| |done].
  intros item t t' _ [Ht Hnp] Hstep. split; [by eapply further_air_navigation_wf|].
  apply further_air_navigation_shape in Hstep as (_ & _ & -> & _). done.
Qed.

(** Cells that are no key of the remaining items are left alone. *)
Lemma second_loop_frame sh l st st' q :
  foldM further_air_navigation st l = Ok st' → Locals_wf sh st →
  Forall (inside sh) l.*1 → inside sh q → q ∉ l.*1 →
  getitem (l_air st') q = getitem (l_air st) q ∧
  getitem (l_ground st') q = getitem (l_ground st) q.
Proof.
  revert st. induction l as [|[k ds] l IH]; intros st Hl Hwf Hins Hq Hni.
  { by injection Hl as <-. }
  rewrite foldM_cons in Hl.
  apply bind_Ok in Hl as (st1 & H1 & Hl).
  rewrite fmap_cons in Hins, Hni. apply Forall_cons in Hins as [Hk Hins].
  apply not_elem_of_cons in Hni as [Hne Hni]. simpl in Hk, Hne.
  destruct (IH st1 Hl) as [-> ->];
    [eapply further_air_navigation_wf; eassumption|done..|].
  destruct Hwf as (Ha & Hg & _).
  eapply further_air_navigation_frame; [done|congruence|by rewrite Ha..|done].
Qed.

(** The reward of a drone that is in none of the remaining items is left alone. *)
Lemma second_loop_rewards l st st' i :
  foldM further_air_navigation st l = Ok st' →
  i ∉ index <$> concat l.*2 → rewards st' !! i = rewards st !! i.
Proof.
  revert st. induction l as [|[k ds] l IH]; intros st Hl Hi.
  { by injection Hl as <-. }
  rewrite foldM_cons in Hl.
  apply bind_Ok in Hl as (st1 & H1 & Hl).
  rewrite fmap_cons, concat_cons, fmap_app in Hi. simpl in Hi.
  apply not_elem_of_app in Hi as [Hds Hi].
  rewrite (IH st1) by done. by eapply further_air_navigation_rewards.
Qed.

Lemma second_loop_mono l st st' :
  foldM further_air_navigation st l = Ok st' →
  air_respawns st `prefix_of` air_respawns st' ∧
  ground_respawns st `prefix_of` ground_respawns st'.
Proof.
  intros Hl.
  apply (foldM_invariant
           (λ t, air_respawns st `prefix_of` air_respawns t ∧
                 ground_respawns st `prefix_of` ground_respawns t) _ _ _ _ ) in Hl;
    [done| |done].
  intros item t t' _ [Ha Hg] [Ha' Hg']%further_air_navigation_mono.
  split; by etrans.
Qed.

(** The second loop raises only on an empty list of drones. *)
Lemma second_loop_Ok l st :
  Forall (λ e, e.2 ≠ []) l → ∃ st', foldM further_air_navigation st l = Ok st'.
Proof.
  revert st. induction l as [|[k ds] l IH]; intros st Hne; [simpl; eauto|].
  rewrite foldM_cons.
  apply Forall_cons in Hne as [Hds Hne]. simpl in Hds.
  assert (∃ st1, further_air_navigation st (k, ds) = Ok st1) as [st1 ->].
  { unfold further_air_navigation. destruct ds as [|d ds]; [done|].
    repeat case_match; eauto. }
  simpl. by apply IH.
Qed.

(** Every drone of the items ends up in the air or in [air_respawns], and
    every tile on the ground, in a drone or in [ground_respawns]. *)
Lemma second_loop_census sh l st st' :
  foldM further_air_navigation st l = Ok st' → Locals_wf sh st →
  NoDup l.*1 → Forall (inside sh) l.*1 →
  (∀ q, q ∈ l.*1 → getitem (l_air st) q = None) →
  index <$> (objects (l_air st') ++ air_respawns st')
    ≡ₚ index <$> (objects (l_air st) ++ air_respawns st ++ concat l.*2) ∧
  objects (l_ground st') ++ cargo (objects (l_air st') ++ air_respawns st')
      ++ ground_respawns st'
    ≡ₚ objects (l_ground st) ++ cargo (objects (l_air st) ++ air_respawns st ++ concat l.*2)
      ++ ground_respawns st.
Proof.
  revert st. induction l as [|[k ds] l IH]; intros st Hl Hwf Hnd Hins Hemp.
  { injection Hl as <-. csimpl. by rewrite !app_nil_r. }
  rewrite foldM_cons in Hl.
  apply bind_Ok in Hl as (st1 & H1 & Hl).
  rewrite fmap_cons in Hnd, Hins. apply NoDup_cons in Hnd as [Hk Hnd].
  apply Forall_cons in Hins as [Hkin Hins]. simpl in Hk, Hkin.
  pose proof (further_air_navigation_wf sh _ _ _ H1 Hwf) as Hwf1.
  destruct (IH st1 Hl Hwf1 Hnd Hins) as [Hidx Htiles].
  { intros q Hq. destruct Hwf as (Ha & Hg & _).
    destruct (further_air_navigation_frame st k ds st1 q) as [-> _];
      [done|congruence|by rewrite Ha| |by intros ->|].
    - rewrite Ha. by eapply Forall_forall in Hins.
    - apply Hemp. rewrite fmap_cons. by right. }
  destruct Hwf as (Ha & Hg & Hwa & Hwg).
  destruct (further_air_navigation_census st k ds st1) as [Hidx1 Htiles1];
    [done..|congruence|by rewrite Ha|apply Hemp; rewrite fmap_cons; left|].
  rewrite fmap_cons, concat_cons. simpl. split.
  - rewrite Hidx. rewrite !fmap_app in *.
    rewrite (app_assoc (index <$> objects (l_air st1))), Hidx1. solve_Permutation.
  - rewrite Htiles. rewrite !cargo_app in *.
    trans ((objects (l_ground st1)
            ++ (cargo (objects (l_air st1)) ++ cargo (air_respawns st1))
            ++ ground_respawns st1) ++ cargo (concat l.*2)); [solve_Permutation|].
    rewrite Htiles1. solve_Permutation.
Qed.

Lemma second_loop_no_cargo l st st' :
  foldM further_air_navigation st l = Ok st' →
  cargo (air_respawns st) = [] → cargo (air_respawns st') = [].
Proof.
  intros Hl Hst.
  apply (foldM_invariant (λ t, cargo (air_respawns t) = []) _ _ _ _) in Hl; [done| |done].
  intros [q ds] t t' _ Ht Hstep. inv_further Hstep; try done.
  by rewrite cargo_app, Ht, cargo_drop_packet.
Qed.

(** ** The two loops together *)

Lemma navigate_Ok self actions st :
  navigate self actions = Ok st ↔
  grid (air self) ≠ [] ∧
  ∃ st1, foldM (air_navigation actions)
           (mkLocals (air self) (ground self) ((λ _, 0%Z) <$> actions) [] [] [])
           (zip_results (air self)) = Ok st1 ∧
         foldM further_air_navigation st1 (new_positions st1) = Ok st.
Proof.
  unfold navigate, get_objects. case_decide as Hne; simpl.
  - split; [done|]. by intros [? _].
  - rewrite bind_Ok. split; [by intros ?|by intros [_ ?]].
Qed.

Lemma objects_empty {A} (g : Grid A) :
  Grid_wf g → (∀ q, inside (shape g) q → getitem g q = None) → objects g = [].
Proof.
  intros Hwf Hnone. unfold objects.
  assert (∀ i c, grid g !! i = Some c → c = None) as Hall.
  { intros i c Hi. assert (i < length (grid g)) as Hlt by (by eapply lookup_lt_Some).
    rewrite (getitem_unravel g i Hwf Hlt) in Hi. injection Hi as <-.
    apply Hnone, unravel_index_inside. by rewrite <- Hwf. }
  induction (grid g) as [|c l IH]; [done|].
  rewrite (Hall 0 c eq_refl). csimpl. apply IH. intros i c'. apply (Hall (S i)).
Qed.

(** Where the first loop leaves the locals, starting from those of [step]. *)
Lemma first_loop_summary self actions st1 :
  Env_wf self →
  foldM (air_navigation actions)
    (mkLocals (air self) (ground self) ((λ _, 0%Z) <$> actions) [] [] [])
    (zip_results (air self)) = Ok st1 →
  Locals_wf (shape (air self)) st1 ∧
  l_ground st1 = ground self ∧
  objects (l_air st1) = [] ∧
  (∀ q, inside (shape (air self)) q → getitem (l_air st1) q = None) ∧
  np_wf (shape (air self)) (new_positions st1) ∧
  (∀ q, group q (new_positions st1) =
        (filter (λ dp, heads_to actions (shape (air self)) q dp = true)
           (zip_results (air self))).*1) ∧
  air_respawns st1 =
    drop_packet <$> (filter (λ dp, leaves actions (shape (air self)) dp = true)
                       (zip_results (air self))).*1 ∧
  ground_respawns st1 =
    cargo (filter (λ dp, leaves actions (shape (air self)) dp = true)
             (zip_results (air self))).*1 ∧
  rewards st1 =
    crash_all ((λ _, 0%Z) <$> actions)
      (filter (λ dp, leaves actions (shape (air self)) dp = true)
         (zip_results (air self))).*1 ∧
  concat (new_positions st1).*2
    ≡ₚ (filter (λ dp, ¬ (leaves actions (shape (air self)) dp = true))
          (zip_results (air self))).*1.
Proof.
  intros (Hwa & Hwg & Hsh) Hl.
  destruct (air_navigation_loop _ _ _ _ Hl) as (Hsh1 & Hg1 & Hgrp & Har & Hgr & Hrw).
  simpl in *.
  destruct (air_navigation_loop_air _ _ _ _ Hl) as [Hwa1 Hget]; [done| |].
  { apply Forall_forall. intros q Hq. simpl.
    apply list_elem_of_fmap in Hq as ([d q'] & -> & Hq).
    by apply elem_of_zip_results in Hq as [? _]. }
  simpl in *.
  assert (∀ q, inside (shape (air self)) q → getitem (l_air st1) q = None) as Hnone.
  { intros q Hq. rewrite Hget by done. case_decide as Hin; [done|].
    destruct (getitem (air self) q) as [d|] eqn:Hd; [|done].
    exfalso. apply Hin. apply list_elem_of_fmap. exists (d, q). split; [done|].
    by apply elem_of_zip_results. }
  split_and!; try done.
  - unfold Locals_wf. rewrite Hg1, Hsh1. done.
  - apply objects_empty; [done|]. by rewrite Hsh1.
  - rewrite <- Hsh1. apply (air_navigation_loop_np_wf _ _ _ _ Hl).
    split; simpl; constructor.
  - by rewrite (air_navigation_loop_census _ _ _ _ Hl).
Qed.

(** The census after both loops: no drone and no tile is lost or made up. *)
Lemma navigate_census self actions st :
  Env_wf self → navigate self actions = Ok st →
  Locals_wf (shape (air self)) st ∧
  cargo (air_respawns st) = [] ∧
  index <$> (objects (l_air st) ++ air_respawns st) ≡ₚ index <$> objects (air self) ∧
  objects (l_ground st) ++ cargo (objects (l_air st)) ++ ground_respawns st
    ≡ₚ objects (ground self) ++ cargo (objects (air self)).
Proof.
  intros Hwf Hnav. apply navigate_Ok in Hnav as (_ & st1 & H1 & H2).
  destruct (first_loop_summary _ _ _ Hwf H1)
    as (Hwf1 & Hg1 & Hobj1 & Hnone1 & [Hnd Hall] & _ & Har & Hgr & _ & Hcensus).
  assert (Forall (inside (shape (air self))) (new_positions st1).*1) as Hins.
  { apply Forall_fmap. eapply Forall_impl; [exact Hall|]. by intros ? [? _]. }
  destruct (second_loop_wf _ _ _ _ H2 Hwf1) as [Hwf2 _].
  destruct (second_loop_census _ _ _ _ H2 Hwf1 Hnd Hins) as [Hidx Htiles].
  { intros q Hq. apply Hnone1. by eapply Forall_forall in Hins. }
  assert (cargo (air_respawns st) = []) as Hnc.
  { apply (second_loop_no_cargo _ _ _ H2). rewrite Har. apply cargo_drop_packet. }
  split; [done|]. split; [done|]. split.
  - rewrite Hidx, Hobj1, Hcensus, Har. simpl.
    rewrite fmap_app, index_drop_packet, <- !fmap_app, filter_app_complement.
    by rewrite zip_results_fst.
  - rewrite cargo_app, Hnc, app_nil_r in Htiles. rewrite Htiles.
    rewrite Hobj1, Hg1, Hcensus, Har, Hgr. simpl.
    rewrite cargo_app, cargo_drop_packet. simpl.
    rewrite <- cargo_app, <- fmap_app.
    rewrite (Permutation_app_comm (filter _ _)), filter_app_complement.
    by rewrite zip_results_fst.
Qed.

(** ** [_pick_packets_after_respawn] *)

Lemma pick_packet_Ok a g p a' g' :
  pick_packet (a, g) p = Ok (a', g') →
  (∃ pk d, getitem g p = Some (TPacket pk) ∧ getitem a p = Some d ∧
           a' = setitem a p (Some (mkDrone (index d) (Some pk))) ∧
           g' = setitem g p None) ∨
  ((∀ pk, getitem g p ≠ Some (TPacket pk)) ∧ a' = a ∧ g' = g).
Proof.
  unfold pick_packet; simpl. intros H.
  destruct (getitem g p) as [[pk|z]|] eqn:Hg.
  - destruct (getitem a p) as [d|] eqn:Ha; [|done]. injection H as <- <-.
    left. by exists pk, d.
  - injection H as <- <-. by right.
  - injection H as <- <-. by right.
Qed.

Lemma pick_packets_frame sh positions a g a' g' q :
  _pick_packets_after_respawn a g positions = Ok (a', g') →
  shape a = sh → shape g = sh → Forall (inside sh) positions →
  shape a' = sh ∧ shape g' = sh ∧
  (Grid_wf a → Grid_wf a') ∧ (Grid_wf g → Grid_wf g') ∧
  (inside sh q → q ∉ positions →
   getitem a' q = getitem a q ∧ getitem g' q = getitem g q).
Proof.
  unfold _pick_packets_after_respawn. revert a g.
  induction positions as [|p positions IH]; intros a g Hl Ha Hg Hins.
  { by injection Hl as <- <-. }
  rewrite foldM_cons in Hl. apply bind_Ok in Hl as ([a1 g1] & H1 & Hl).
  apply Forall_cons in Hins as [Hp Hins].
  apply pick_packet_Ok in H1 as [(pk & d & Hgp & Hap & -> & ->)|(_ & -> & ->)].
  - destruct (IH _ _ Hl) as (Ha' & Hg' & Hwa & Hwg & Hfr); [done..|].
    split_and!; try done.
    + intros ?. by apply Hwa, Grid_wf_setitem.
    + intros ?. by apply Hwg, Grid_wf_setitem.
    + intros Hq [Hne Hni]%not_elem_of_cons. destruct (Hfr Hq Hni) as [-> ->].
      rewrite !getitem_setitem_ne; done || congruence.
  - destruct (IH _ _ Hl) as (Ha' & Hg' & Hwa & Hwg & Hfr); [done..|].
    split_and!; try done. intros Hq [Hne Hni]%not_elem_of_cons. by apply Hfr.
Qed.

(** A drone respawned on a packet holds it afterwards, and the cell is
    cleared; on any other cell nothing changes. *)
Lemma pick_packets_at sh positions a g a' g' p :
  _pick_packets_after_respawn a g positions = Ok (a', g') →
  shape a = sh → shape g = sh → Grid_wf a → Grid_wf g →
  Forall (inside sh) positions → NoDup positions → p ∈ positions →
  match getitem g p with
  | Some (TPacket pk) =>
      ∃ d, getitem a p = Some d ∧
           getitem a' p = Some (mkDrone (index d) (Some pk)) ∧ getitem g' p = None
  | _ => getitem a' p = getitem a p ∧ getitem g' p = getitem g p
  end.
Proof.
  unfold _pick_packets_after_respawn. revert a g.
  induction positions as [|p0 positions IH]; intros a g Hl Ha Hg Hwa Hwg Hins Hnd Hp.
  { by apply elem_of_nil in Hp. }
  rewrite foldM_cons in Hl. apply bind_Ok in Hl as ([a1 g1] & H1 & Hl).
  apply Forall_cons in Hins as [Hp0 Hins]. apply NoDup_cons in Hnd as [Hni Hnd].
  assert (inside sh p) as Hpin.
  { eapply Forall_forall in Hp; [exact Hp|]. by constructor. }
  apply elem_of_cons in Hp as [->|Hp].
  - (* this is the position being handled; the rest of the loop leaves it alone *)
    apply pick_packet_Ok in H1 as [(pk & d & Hgp & Hap & -> & ->)|(Hnp & -> & ->)].
    + destruct (pick_packets_frame sh positions _ _ _ _ p0 Hl) as (_ & _ & _ & _ & Hfr);
        [done..|].
      destruct (Hfr Hpin Hni) as [-> ->]. rewrite Hgp. exists d.
      rewrite !getitem_setitem_eq; done || congruence.
    + destruct (pick_packets_frame sh positions _ _ _ _ p0 Hl) as (_ & _ & _ & _ & Hfr);
        [done..|].
      destruct (Hfr Hpin Hni) as [-> ->].
      destruct (getitem g p0) as [[pk|z]|] eqn:Hgp; [by destruct (Hnp pk)|done..].
  - assert (p ≠ p0) as Hne by (by intros ->).
    apply pick_packet_Ok in H1 as [(pk & d & Hgp & Hap & -> & ->)|(Hnp & -> & ->)].
    + specialize (IH _ _ Hl Ha Hg (Grid_wf_setitem _ _ _ Hwa) (Grid_wf_setitem _ _ _ Hwg)
                    Hins Hnd Hp).
      rewrite !getitem_setitem_ne in IH; done || congruence.
    + by apply IH.
Qed.

(** The loop raises only where the air holds no drone. *)
Lemma pick_packets_total sh positions a g :
  shape a = sh → shape g = sh → Forall (inside sh) positions → NoDup positions →
  (∀ p, p ∈ positions → ∃ d, getitem a p = Some d) →
  ∃ ag, _pick_packets_after_respawn a g positions = Ok ag.
Proof.
  unfold _pick_packets_after_respawn. revert a g.
  induction positions as [|p positions IH]; intros a g Ha Hg Hins Hnd Hdr; [simpl; eauto|].
  rewrite foldM_cons.
  apply Forall_cons in Hins as [Hp Hins]. apply NoDup_cons in Hnd as [Hni Hnd].
  destruct (Hdr p) as [d Hd]; [left|].
  assert (∃ a1 g1, pick_packet (a, g) p = Ok (a1, g1) ∧ shape a1 = sh ∧ shape g1 = sh ∧
            ∀ q, inside sh q → q ≠ p → getitem a1 q = getitem a q) as (a1 & g1 & -> & ? & ? & Hfr).
  { unfold pick_packet; simpl. rewrite Hd.
    destruct (getitem g p) as [[pk|z]|]; eexists _, _; (split; [done|]); split_and!;
      try done.
    intros q Hq Hne. rewrite getitem_setitem_ne; done || congruence. }
  simpl. apply IH; try done.
  intros q Hq. rewrite Hfr; [apply Hdr; by right| |by intros ->].
  by eapply Forall_forall in Hins.
Qed.

Lemma pick_packets_census sh positions a g a' g' :
  _pick_packets_after_respawn a g positions = Ok (a', g') →
  shape a = sh → shape g = sh → Grid_wf a → Grid_wf g →
  Forall (inside sh) positions → NoDup positions →
  (∀ p d, p ∈ positions → getitem a p = Some d → packet d = None) →
  index <$> objects a' ≡ₚ index <$> objects a ∧
  objects g' ++ cargo (objects a') ≡ₚ objects g ++ cargo (objects a).
Proof.
  unfold _pick_packets_after_respawn. revert a g.
  induction positions as [|p positions IH]; intros a g Hl Ha Hg Hwa Hwg Hins Hnd Hnp.
  { by injection Hl as <- <-. }
  rewrite foldM_cons in Hl. apply bind_Ok in Hl as ([a1 g1] & H1 & Hl).
  apply Forall_cons in Hins as [Hp Hins]. apply NoDup_cons in Hnd as [Hni Hnd].
  apply pick_packet_Ok in H1 as [(pk & d & Hgp & Hap & -> & ->)|(_ & -> & ->)].
  - destruct (IH _ _ Hl) as [Hidx Htiles]; try done; try (by apply Grid_wf_setitem).
    { intros q d' Hq. rewrite getitem_setitem_ne.
      - apply Hnp. by right.
      - congruence.
      - rewrite Ha. by eapply Forall_forall in Hins.
      - by intros ->. }
    assert (packet d = None) as Hd by (eapply Hnp; [left|done]).
    assert (inside (shape a) p) as Hpa by congruence.
    assert (inside (shape g) p) as Hpg by congruence.
    pose proof (objects_setitem_Some a p d (Some (mkDrone (index d) (Some pk))) Hwa Hpa Hap)
      as Hair.
    pose proof (objects_setitem_Some g p (TPacket pk) None Hwg Hpg Hgp) as Hground.
    simpl in Hair, Hground. split.
    + rewrite Hidx. apply (Permutation_cons_inv (a := index d)).
      rewrite <- (fmap_cons index d), Hair. by rewrite fmap_cons.
    + assert (cargo (objects (setitem a p (Some (mkDrone (index d) (Some pk)))))
              ≡ₚ TPacket pk :: cargo (objects a)) as Hcargo.
      { pose proof (cargo_Permutation _ _ Hair) as Hc.
        rewrite !cargo_cons in Hc. unfold lost_packet in Hc. rewrite Hd in Hc. done. }
      rewrite Htiles, Hcargo, <- Hground. solve_Permutation.
  - apply IH; try done. intros q d' Hq. apply Hnp. by right.
Qed.

(** ** Respawn *)

Lemma cargo_nil (l : list Drone) d : cargo l = [] → d ∈ l → packet d = None.
Proof.
  induction l as [|d' l IH]; intros Hc Hd; [by apply elem_of_nil in Hd|].
  rewrite cargo_cons in Hc. apply app_eq_nil in Hc as [Hd' Hc].
  apply elem_of_cons in Hd as [->|Hd]; [|by apply IH].
  unfold lost_packet in Hd'. by destruct (packet d').
Qed.

Lemma respawn_Ok actions st rs out :
  respawn actions st rs = Ok out →
  ∃ ground1 gpos rs1 air1 positions,
    spawn (l_ground st) (ground_respawns st) rs = Ok (ground1, gpos, rs1) ∧
    spawn (l_air st) (air_respawns st) rs1 = Ok (air1, positions, r_random out) ∧
    _pick_packets_after_respawn air1 ground1 positions
      = Ok (air (grids out), ground (grids out)) ∧
    r_rewards out = rewards st ∧
    r_dones out = make_dones actions (air_respawns st) ∧
    info_air_respawns out = omap (getitem (air (grids out))) positions ∧
    info_ground_respawns out = ground_respawns st.
Proof.
  unfold respawn. intros H.
  apply bind_Ok in H as ([[ground1 gpos] rs1] & Hg & H). simpl in H.
  apply bind_Ok in H as ([[air1 positions] rs2] & Ha & H). simpl in H.
  apply bind_Ok in H as ([air2 ground2] & Hp & H). simpl in H.
  injection H as <-. simpl. by exists ground1, gpos, rs1, air1, positions.
Qed.

(** Respawning keeps every drone and every tile. *)
Lemma respawn_census sh actions st rs out :
  respawn actions st rs = Ok out → Locals_wf sh st → cargo (air_respawns st) = [] →
  Env_wf (grids out) ∧ shape (air (grids out)) = sh ∧
  index <$> objects (air (grids out))
    ≡ₚ index <$> (objects (l_air st) ++ air_respawns st) ∧
  objects (ground (grids out)) ++ cargo (objects (air (grids out)))
    ≡ₚ objects (l_ground st) ++ cargo (objects (l_air st)) ++ ground_respawns st.
Proof.
  intros (ground1 & gpos & rs1 & air1 & positions & Hg & Ha & Hp & _)%respawn_Ok
         (Hsa & Hsg & Hwa & Hwg) Hnc.
  destruct (spawn_spec _ _ _ _ _ _ Hwg Hg) as (Hsg1 & Hwg1 & _ & _ & _ & _ & _ & Hobjg).
  destruct (spawn_spec _ _ _ _ _ _ Hwa Ha)
    as (Hsa1 & Hwa1 & Hlen & Hnd & Hall & Hat & _ & Hobja).
  assert (Forall (inside sh) positions) as Hins.
  { eapply Forall_impl; [exact Hall|]. intros p [Hp' _]. by rewrite <- Hsa. }
  destruct (pick_packets_frame sh positions _ _ _ _ (0%Z, 0%Z) Hp)
    as (Hsa2 & Hsg2 & Hwa2 & Hwg2 & _); [congruence..|done|].
  destruct (pick_packets_census sh positions _ _ _ _ Hp) as [Hidx Htiles];
    [congruence..|done|done|done|done| |].
  { intros p d Hpin Hd. apply list_elem_of_lookup in Hpin as [i Hi].
    destruct (lookup_lt_is_Some_2 (air_respawns st) i) as [o Ho].
    { rewrite <- Hlen. by eapply lookup_lt_Some. }
    rewrite (Hat i p o Hi Ho) in Hd. injection Hd as <-.
    eapply cargo_nil; [done|]. by eapply list_elem_of_lookup_2. }
  split; [|split; [done|split]].
  - unfold Env_wf. split_and!; auto. congruence.
  - rewrite Hidx, Hobja. by rewrite (Permutation_app_comm (air_respawns st)).
  - rewrite Htiles, Hobjg, Hobja, cargo_app, Hnc. simpl. solve_Permutation.
Qed.

(** A drone that was placed by the second loop stays where it is, and so
    does whatever lies on the ground below it. *)
Lemma respawn_survivor sh actions st rs out q x :
  respawn actions st rs = Ok out → Locals_wf sh st →
  inside sh q → getitem (l_air st) q = Some x →
  getitem (air (grids out)) q = Some x ∧
  ∀ t, getitem (l_ground st) q = Some t → getitem (ground (grids out)) q = Some t.
Proof.
  intros (ground1 & gpos & rs1 & air1 & positions & Hg & Ha & Hp & _)%respawn_Ok
         (Hsa & Hsg & Hwa & Hwg) Hq Hx.
  destruct (spawn_spec _ _ _ _ _ _ Hwg Hg) as (Hsg1 & Hwg1 & _ & _ & Hallg & _ & Hfrg & _).
  destruct (spawn_spec _ _ _ _ _ _ Hwa Ha) as (Hsa1 & Hwa1 & _ & _ & Hall & _ & Hfra & _).
  assert (Forall (inside sh) positions) as Hins.
  { eapply Forall_impl; [exact Hall|]. intros p [Hp' _]. by rewrite <- Hsa. }
  assert (q ∉ positions) as Hni.
  { intros Hin. eapply Forall_forall in Hall; [|exact Hin]. destruct Hall as [_ Hnone].
    congruence. }
  destruct (pick_packets_frame sh positions _ _ _ _ q Hp)
    as (_ & _ & _ & _ & Hfr); [congruence..|done|].
  destruct (Hfr Hq Hni) as [-> ->]. split.
  - rewrite Hfra; [done|by rewrite Hsa|done].
  - intros t Ht. rewrite Hfrg; [done|by rewrite Hsg|].
    intros Hin. eapply Forall_forall in Hallg; [|exact Hin]. destruct Hallg as [_ Hnone].
    congruence.
Qed.

(** Respawning raises only for want of empty cells. *)
Lemma respawn_total sh actions st rs :
  Locals_wf sh st →
  length (ground_respawns st) ≤ length (empty_cells (l_ground st)) →
  length (air_respawns st) ≤ length (empty_cells (l_air st)) →
  ∃ out, respawn actions st rs = Ok out.
Proof.
  intros (Hsa & Hsg & Hwa & Hwg) Hgr Har. unfold respawn.
  destruct (proj2 (spawn_Ok (l_ground st) (ground_respawns st) rs) Hgr)
    as [[[ground1 gpos] rs1] Hg].
  destruct (proj2 (spawn_Ok (l_air st) (air_respawns st) rs1) Har)
    as [[[air1 positions] rs2] Ha].
  rewrite Hg. simpl. rewrite Ha. simpl.
  destruct (spawn_spec _ _ _ _ _ _ Hwg Hg) as (Hsg1 & _).
  destruct (spawn_spec _ _ _ _ _ _ Hwa Ha) as (Hsa1 & _ & Hlen & Hnd & Hall & Hat & _).
  destruct (pick_packets_total sh positions air1 ground1) as [[air2 ground2] ->];
    [congruence..| |done| |simpl; eauto].
  - eapply Forall_impl; [exact Hall|]. intros p [Hp' _]. by rewrite <- Hsa.
  - intros p [i Hi]%list_elem_of_lookup.
    destruct (lookup_lt_is_Some_2 (air_respawns st) i) as [o Ho].
    { rewrite <- Hlen. by eapply lookup_lt_Some. }
    exists o. by eapply Hat.
Qed.

(** ** The census of a whole step *)

Lemma step_census self actions rs out :
  Env_wf self → step self actions rs = Ok out →
  Env_wf (grids out) ∧ shape (air (grids out)) = shape (air self) ∧
  index <$> objects (air (grids out)) ≡ₚ index <$> objects (air self) ∧
  objects (ground (grids out)) ++ cargo (objects (air (grids out)))
    ≡ₚ objects (ground self) ++ cargo (objects (air self)).
Proof.
  intros Hwf Hstep. unfold step in Hstep. apply bind_Ok in Hstep as (st & Hnav & Hre).
  destruct (navigate_census _ _ _ Hwf Hnav) as (Hwfst & Hnc & Hidx & Htiles).
  destruct (respawn_census _ _ _ _ _ Hre Hwfst Hnc) as (Hwf' & Hsh & Hidx' & Htiles').
  split; [done|]. split; [done|]. split.
  - by rewrite Hidx', Hidx.
  - by rewrite Htiles', Htiles.
Qed.

(** [step] returns whenever the grid has cells, the actions are valid and
    the tiles of the world fit on the ground. *)
Lemma step_total self actions rs :
  Env_wf self → grid (air self) ≠ [] →
  Forall (λ d, ∃ a, get_action actions d = Ok a) (objects (air self)) →
  length (objects (ground self)) + length (cargo (objects (air self)))
    ≤ length (grid (ground self)) →
  ∃ out, step self actions rs = Ok out.
Proof.
  intros Hwf Hnonempty Hacts Hroom. unfold step.
  assert (∃ st, navigate self actions = Ok st) as [st Hnav].
  { setoid_rewrite navigate_Ok.
    destruct (proj2 (air_navigation_loop_Ok actions (zip_results (air self))
                       (mkLocals (air self) (ground self) ((λ _, 0%Z) <$> actions) [] [] [])))
      as [st1 H1].
    { apply Forall_forall. intros [d p] Hdp. simpl.
      eapply Forall_forall in Hacts; [exact Hacts|].
      rewrite <- zip_results_fst. by apply (list_elem_of_fmap_2 fst) in Hdp. }
    destruct (first_loop_summary _ _ _ Hwf H1) as (_ & _ & _ & _ & [_ Hall] & _).
    destruct (second_loop_Ok (new_positions st1) st1) as [st Hst].
    { eapply Forall_impl; [exact Hall|]. by intros ? [_ ?]. }
    exists st. split; [done|]. by exists st1. }
  rewrite Hnav. simpl.
  destruct (navigate_census _ _ _ Hwf Hnav) as (Hwfst & Hnc & Hidx & Htiles).
  apply (respawn_total (shape (air self))); [done|..].
  - apply Permutation_length in Htiles. rewrite !length_app in Htiles.
    pose proof (length_empty_cells (l_ground st)) as Hcells.
    destruct Hwfst as (_ & Hsg & _ & Hwg). destruct Hwf as (_ & Hwg0 & Hsh0).
    assert (length (grid (l_ground st)) = length (grid (ground self))) as Heq.
    { rewrite Hwg, Hwg0. congruence. }
    lia.
  - apply Permutation_length in Hidx. rewrite !length_fmap, length_app in Hidx.
    pose proof (length_empty_cells (l_air st)) as Hcells.
    pose proof (length_empty_cells (air self)) as Hcells0.
    destruct Hwfst as (Hsa & _ & Hwa & _). destruct Hwf as (Hwa0 & _ & _).
    assert (length (grid (l_air st)) = length (grid (air self))) as Heq.
    { rewrite Hwa, Hwa0. congruence. }
    lia.
Qed.

(** * The claims *)

Lemma filter_index_fmap (l : list Drone) (i : Z) :
  length (filter (λ d, index d = i) l) = length (filter (λ j, j = i) (index <$> l)).
Proof.
  induction l as [|d l IH]; [done|]. rewrite fmap_cons.
  destruct (decide (index d = i)) as [Hd|Hd].
  - rewrite !filter_cons_True by done. simpl. by rewrite IH.
  - by rewrite !filter_cons_False by done.
Qed.

Lemma air_legal_Permutation D self self' :
  index <$> objects (air self') ≡ₚ index <$> objects (air self) →
  air_legal D self → air_legal D self'.
Proof.
  intros Hperm [Hone Hall]. split.
  - intros i Hi. unfold occupies_one_cell. rewrite filter_index_fmap, Hperm.
    rewrite <- filter_index_fmap. by apply Hone.
  - intros d Hd. apply (list_elem_of_fmap_2 index) in Hd. rewrite Hperm in Hd.
    apply list_elem_of_fmap in Hd as (d' & -> & Hd'). by apply Hall.
Qed.

Lemma world_a_wf : Env_wf world_a.
Proof. by vm_compute. Qed.

Lemma world_a_legal : air_legal 2 world_a.
Proof.
  split.
  - intros i Hi. assert (i = 1 ∨ i = 2)%Z as [-> | ->] by lia; by vm_compute.
  - intros d Hd. vm_compute in Hd.
    apply elem_of_cons in Hd as [->|Hd]; [simpl; lia|].
    apply elem_of_cons in Hd as [->|Hd]; [simpl; lia|].
    by apply elem_of_nil in Hd.
Qed.

(** C9 (invariant). After a step that returns, each of the drones 1..D is
    again in exactly one cell of the air grid, and no cell holds anything
    else: no drone is lost or duplicated and no two drones share a cell. *)
Theorem C9_each_drone_in_one_cell (D : nat) self actions rs out :
  Env_wf self → air_legal D self →
  step self actions rs = Ok out →
  Env_wf (grids out) ∧ air_legal D (grids out).
Proof.
  intros Hwf Hlegal Hstep.
  destruct (step_census _ _ _ _ Hwf Hstep) as (Hwf' & _ & Hidx & _).
  split; [done|]. by eapply air_legal_Permutation.
Qed.

Lemma C9_witness :
  Env_wf (grids (returned (step world_a actions_a [0; 0]))) ∧
  air_legal 2 (grids (returned (step world_a actions_a [0; 0]))).
Proof.
  apply (C9_each_drone_in_one_cell 2 world_a actions_a [0; 0]).
  - exact world_a_wf.
  - exact world_a_legal.
  - by vm_compute.
Defined.

Lemma filter_is_packet_cargo (l : list Drone) :
  filter (λ t, is_packet t = true) (cargo l) = cargo l.
Proof.
  induction l as [|d l IH]; [done|]. rewrite cargo_cons, filter_app, IH. f_equal.
  unfold lost_packet. by destruct (packet d).
Qed.

(** C10 (invariant). A step that returns preserves the number of packages
    of the world: the packets on the ground plus the packets carried by
    drones are as many after the step as before. *)
Theorem C10_packages_conserved self actions rs out :
  Env_wf self → step self actions rs = Ok out →
  n_packets (grids out) = n_packets self.
Proof.
  intros Hwf Hstep.
  destruct (step_census _ _ _ _ Hwf Hstep) as (_ & _ & _ & Htiles).
  unfold n_packets.
  rewrite <- (filter_is_packet_cargo (objects (air (grids out)))).
  rewrite <- (filter_is_packet_cargo (objects (air self))).
  rewrite <- !length_app, <- !filter_app.
  by rewrite Htiles.
Qed.

Lemma C10_witness :
  n_packets (grids (returned (step world_a actions_a [0; 0]))) = n_packets world_a.
Proof.
  apply (C10_packages_conserved world_a actions_a [0; 0]).
  - exact world_a_wf.
  - by vm_compute.
Defined.

(** ** One drone through the two loops *)

Lemma NoDup_fmap_eq {A B} (f : A → B) (l : list A) x y :
  NoDup (f <$> l) → x ∈ l → y ∈ l → f x = f y → x = y.
Proof.
  induction l as [|z l IH]; intros Hnd Hx Hy Hxy; [by apply elem_of_nil in Hx|].
  rewrite fmap_cons in Hnd. apply NoDup_cons in Hnd as [Hz Hnd].
  apply elem_of_cons in Hx as [->|Hx]; apply elem_of_cons in Hy as [->|Hy]; try done.
  - exfalso. apply Hz. rewrite Hxy. by apply list_elem_of_fmap_2.
  - exfalso. apply Hz. rewrite <- Hxy. by apply list_elem_of_fmap_2.
  - by apply IH.
Qed.

Lemma filter_singleton {A} (P : A → Prop) `{∀ x, Decision (P x)} (l : list A) x :
  NoDup l → x ∈ l → P x → (∀ y, y ∈ l → P y → y = x) → filter P l = [x].
Proof.
  induction l as [|z l IH]; intros Hnd Hx HP Huniq; [by apply elem_of_nil in Hx|].
  apply NoDup_cons in Hnd as [Hz Hnd].
  assert (∀ k : list A, (∀ y, y ∈ k → ¬ P y) → filter P k = []) as Hnone.
  { intros k Hk. induction k as [|y k IHk]; [done|].
    rewrite filter_cons_False by (apply Hk; left). apply IHk. intros y' Hy'. apply Hk. by right. }
  apply elem_of_cons in Hx as [->|Hx].
  - rewrite filter_cons_True by done. f_equal. apply Hnone.
    intros y Hy HPy. apply Hz. rewrite <- (Huniq y); [done|by right|done].
  - rewrite filter_cons_False.
    + apply IH; try done. intros y Hy. apply Huniq. by right.
    + intros HPz. apply Hz. rewrite (Huniq z); [done|left|done].
Qed.

Lemma elem_of_concat {A} (x : A) (ls : list (list A)) :
  x ∈ concat ls ↔ ∃ l, x ∈ l ∧ l ∈ ls.
Proof.
  induction ls as [|k ls IH]; simpl.
  - rewrite elem_of_nil. split; [done|]. by intros (? & _ & ?%elem_of_nil).
  - rewrite elem_of_app, IH. split.
    + intros [Hx|(l & Hx & Hl)]; [exists k; split; [done|left]|].
      exists l. split; [done|by right].
    + intros (l & Hx & [->|Hl]%elem_of_cons); [by left|]. right. by exists l.
Qed.

Lemma group_not_nil nps q : group q nps ≠ [] → (q, group q nps) ∈ nps.
Proof.
  induction nps as [|[k ds] rest IH]; simpl; [done|].
  case_decide as Hk; [subst k; left|]. intros Hne. right. by apply IH.
Qed.

Lemma elem_of_zip_results_drone_at self d p :
  Env_wf self → (d, p) ∈ zip_results (air self) ↔ drone_at self d p.
Proof. intros (Hwa & _). by apply elem_of_zip_results. Qed.

Lemma heads_to_plans self actions d p q :
  heads_to actions (shape (air self)) q (d, p) = true ↔ plans self actions d p q.
Proof. apply heads_to_spec. Qed.

Lemma NoDup_zip_results self : Env_wf self → NoDup (zip_results (air self)).
Proof.
  intros (Hwa & _). eapply (NoDup_fmap_1 snd). by apply NoDup_zip_results_snd.
Qed.

(** Two snapshot entries with the same drone index are the same entry. *)
Lemma zip_results_index_inj self dp dp' :
  distinct_indices self →
  dp ∈ zip_results (air self) → dp' ∈ zip_results (air self) →
  index dp.1 = index dp'.1 → dp = dp'.
Proof.
  unfold distinct_indices. rewrite <- zip_results_fst, <- list_fmap_compose.
  intros Hnd Hdp Hdp' Heq. by eapply (NoDup_fmap_eq (index ∘ fst)).
Qed.

(** The drones that the first loop files under a key kept a plan for it. *)
Lemma first_loop_group_elem self actions st1 k d' :
  Env_wf self →
  foldM (air_navigation actions)
    (mkLocals (air self) (ground self) ((λ _, 0%Z) <$> actions) [] [] [])
    (zip_results (air self)) = Ok st1 →
  d' ∈ group k (new_positions st1) →
  ∃ p', (d', p') ∈ zip_results (air self) ∧ plans self actions d' p' k.
Proof.
  intros Hwf H1 Hd'.
  destruct (first_loop_summary _ _ _ Hwf H1) as (_ & _ & _ & _ & _ & Hgrp & _).
  rewrite Hgrp in Hd'. apply list_elem_of_fmap in Hd' as ([d'' p'] & -> & Hin).
  apply list_elem_of_filter in Hin as [Hh Hin]. exists p'. split; [done|].
  by apply heads_to_plans.
Qed.

(** A drone that plans to stay inside is not touched by the items of other
    cells, nor by the crashes of the first loop. *)
Lemma other_items_index self actions st1 d p q l :
  Env_wf self → distinct_indices self →
  foldM (air_navigation actions)
    (mkLocals (air self) (ground self) ((λ _, 0%Z) <$> actions) [] [] [])
    (zip_results (air self)) = Ok st1 →
  drone_at self d p → plans self actions d p q →
  l ⊆ new_positions st1 → q ∉ l.*1 →
  index d ∉ index <$> concat l.*2.
Proof.
  intros Hwf Hdi H1 Hd Hplan Hsub Hq Hin.
  destruct (first_loop_summary _ _ _ Hwf H1) as (_ & _ & _ & _ & [Hnd _] & _).
  apply list_elem_of_fmap in Hin as (d' & Heq & Hd').
  apply elem_of_concat in Hd' as (ds & Hd' & Hds).
  apply list_elem_of_fmap in Hds as ([k ds'] & -> & Hk). simpl in Hd'.
  assert (k ≠ q) as Hkq.
  { intros ->. apply Hq. by apply (list_elem_of_fmap_2 fst) in Hk. }
  assert (group k (new_positions st1) = ds') as Hg.
  { apply group_elem_of; [done|]. by apply Hsub. }
  rewrite <- Hg in Hd'.
  destruct (first_loop_group_elem _ _ _ _ _ Hwf H1 Hd') as (p' & Hin' & Hplan').
  assert ((d, p) = (d', p')) as [= <- <-].
  { apply (zip_results_index_inj self); try done.
    by apply elem_of_zip_results_drone_at. }
  destruct Hplan as (a & Ha & Hq' & _), Hplan' as (a' & Ha' & Hk' & _).
  rewrite Ha in Ha'. injection Ha' as <-. congruence.
Qed.

(** A drone that passes the boundary test, followed through [navigate]: the
    iteration of the second loop that handles its destination [q] starts
    from locals [sta] in which the air above [q] is empty, the ground at [q]
    is as in the state and the drone has no reward yet; what that iteration
    leaves at [q] and in the drone's reward is there when [navigate] ends. *)
Lemma navigate_drone self actions st d p q :
  Env_wf self → distinct_indices self →
  navigate self actions = Ok st →
  drone_at self d p → plans self actions d p q →
  ∃ sta stb,
    further_air_navigation sta
      (q, (filter (λ dp, heads_to actions (shape (air self)) q dp = true)
             (zip_results (air self))).*1) = Ok stb ∧
    Locals_wf (shape (air self)) sta ∧ Locals_wf (shape (air self)) st ∧
    getitem (l_air sta) q = None ∧
    getitem (l_ground sta) q = getitem (ground self) q ∧
    rewards sta !! index d = no_reward actions (index d) ∧
    getitem (l_air st) q = getitem (l_air stb) q ∧
    getitem (l_ground st) q = getitem (l_ground stb) q ∧
    rewards st !! index d = rewards stb !! index d ∧
    air_respawns stb `prefix_of` air_respawns st ∧
    ground_respawns stb `prefix_of` ground_respawns st.
Proof.
  intros Hwf Hdi Hnav Hd Hplan. apply navigate_Ok in Hnav as (_ & st1 & H1 & H2).
  destruct (first_loop_summary _ _ _ Hwf H1)
    as (Hwf1 & Hg1 & _ & Hnone1 & [Hnd Hall] & Hgrp & _ & _ & Hrw & _).
  set (ds := (filter (λ dp, heads_to actions (shape (air self)) q dp = true)
                (zip_results (air self))).*1) in *.
  assert (inside (shape (air self)) q) as Hq by (by destruct Hplan as (? & _ & _ & ?)).
  assert (d ∈ ds) as Hdds.
  { apply list_elem_of_fmap. exists (d, p). split; [done|].
    apply list_elem_of_filter. split; [by apply heads_to_plans|].
    by apply elem_of_zip_results_drone_at. }
  assert ((q, ds) ∈ new_positions st1) as Hitem.
  { unfold ds. rewrite <- Hgrp. apply group_not_nil. rewrite Hgrp. fold ds.
    intros Hnil. rewrite Hnil in Hdds. by apply elem_of_nil in Hdds. }
  apply list_elem_of_split in Hitem as (l1 & l2 & Hnps).
  assert ((q ∉ l1.*1) ∧ (q ∉ l2.*1)) as [Hq1 Hq2].
  { rewrite Hnps, fmap_app, fmap_cons in Hnd. simpl in Hnd.
    apply NoDup_app in Hnd as (_ & Hdisj & [Hq2 _]%NoDup_cons).
    split; [|done]. intros Hin. apply (Hdisj q Hin). left. }
  assert (Forall (inside (shape (air self))) l1.*1 ∧
          Forall (inside (shape (air self))) l2.*1) as [Hins1 Hins2].
  { rewrite Hnps in Hall. apply Forall_app in Hall as [Hall1 [_ Hall2]%Forall_cons].
    split; apply Forall_fmap; (eapply Forall_impl; [eassumption|]); by intros ? [? _]. }
  rewrite Hnps, foldM_app in H2. apply bind_Ok in H2 as (sta & Ha & H2).
  rewrite foldM_cons in H2. apply bind_Ok in H2 as (stb & Hb & H2).
  destruct (second_loop_wf _ _ _ _ Ha Hwf1) as [Hwfa _].
  pose proof (further_air_navigation_wf _ _ _ _ Hb Hwfa) as Hwfb.
  destruct (second_loop_wf _ _ _ _ H2 Hwfb) as [Hwf2 _].
  destruct (second_loop_frame _ _ _ _ q Ha Hwf1 Hins1 Hq Hq1) as [Haq Hgq].
  destruct (second_loop_frame _ _ _ _ q H2 Hwfb Hins2 Hq Hq2) as [Haq' Hgq'].
  destruct (second_loop_mono _ _ _ H2) as [Har Hgr].
  exists sta, stb. split_and!; try done.
  - rewrite Haq. by apply Hnone1.
  - by rewrite Hgq, Hg1.
  - rewrite (second_loop_rewards _ _ _ _ Ha).
    + rewrite Hrw. apply crash_all_lookup_ne.
      intros (d' & Heq & Hd')%list_elem_of_fmap.
      apply list_elem_of_fmap in Hd' as ([d'' p'] & -> & Hin).
      apply list_elem_of_filter in Hin as [Hlv Hin]. simpl in Heq.
      assert ((d, p) = (d'', p')) as [= <- <-].
      { apply (zip_results_index_inj self); try done.
        by apply elem_of_zip_results_drone_at. }
      apply leaves_spec in Hlv as (a' & Ha' & Hout).
      destruct Hplan as (a & Hact & Hnp & Hin'). rewrite Hact in Ha'.
      injection Ha' as <-. apply Hout. by rewrite Hnp.
    + eapply (other_items_index self); try done.
      intros e He. rewrite Hnps. apply elem_of_app. by left.
  - apply (second_loop_rewards _ _ _ _ H2).
    eapply (other_items_index self); try done.
    intros e He. rewrite Hnps. apply elem_of_app. right. by right.
Qed.

Lemma survivor_group self actions d p q :
  Env_wf self → survives self actions d p q →
  (filter (λ dp, heads_to actions (shape (air self)) q dp = true)
     (zip_results (air self))).*1 = [d].
Proof.
  intros Hwf (Hd & Hplan & Huniq).
  rewrite (filter_singleton _ _ (d, p)); [done|by apply NoDup_zip_results|..].
  - by apply elem_of_zip_results_drone_at.
  - by apply heads_to_plans.
  - intros [d' p'] Hin%elem_of_zip_results_drone_at Hh%heads_to_plans; [|done].
    assert (p' = p) as -> by (by eapply Huniq).
    destruct Hd as [_ Hd], Hin as [_ Hin]. congruence.
Qed.

Lemma step_Ok self actions rs out :
  step self actions rs = Ok out ↔
  ∃ st, navigate self actions = Ok st ∧ respawn actions st rs = Ok out.
Proof. apply bind_Ok. Qed.

(** What the end of the step shows of a drone that the second loop has
    placed at [q]: the drone itself, and the reward the loops gave it. *)
Lemma step_survivor self actions rs out st q x :
  Env_wf self → navigate self actions = Ok st → step self actions rs = Ok out →
  inside (shape (air self)) q → getitem (l_air st) q = Some x →
  getitem (air (grids out)) q = Some x ∧
  r_rewards out = rewards st ∧
  info_ground_respawns out = ground_respawns st ∧
  r_dones out = make_dones actions (air_respawns st) ∧
  ∀ t, getitem (l_ground st) q = Some t → getitem (ground (grids out)) q = Some t.
Proof.
  intros Hwf Hnav (st' & Hnav' & Hre)%step_Ok Hq Hx.
  rewrite Hnav in Hnav'. injection Hnav' as <-.
  destruct (navigate_census _ _ _ Hwf Hnav) as (Hwfst & _).
  destruct (respawn_survivor _ _ _ _ _ q x Hre Hwfst Hq Hx) as [Hair Hground].
  apply respawn_Ok in Hre as (? & ? & ? & ? & ? & _ & _ & _ & Hr & Hd & _ & Hi).
  done.
Qed.

Lemma world_b_wf : Env_wf world_b.
Proof. by vm_compute. Qed.

Lemma world_b_distinct : distinct_indices world_b.
Proof. vm_compute. apply NoDup_singleton. Qed.

(** [survives], decided on the snapshot of the air grid. *)
Lemma survives_check self actions d p q :
  Env_wf self →
  bool_decide
    ((d, p) ∈ zip_results (air self) ∧
     filter (λ dp, heads_to actions (shape (air self)) q dp = true)
       (zip_results (air self)) = [(d, p)]) = true →
  survives self actions d p q.
Proof.
  intros Hwf [Hin Hfilter]%bool_decide_eq_true.
  assert ((d, p) ∈ filter (λ dp, heads_to actions (shape (air self)) q dp = true)
                     (zip_results (air self))) as [Hh _]%list_elem_of_filter.
  { rewrite Hfilter. left. }
  split; [by apply elem_of_zip_results_drone_at|]. split; [by apply heads_to_plans|].
  intros d' p' Hd' Hplan'.
  assert ((d', p') ∈ [(d, p)]) as Hin'.
  { rewrite <- Hfilter. apply list_elem_of_filter. split; [by apply heads_to_plans|].
    by apply elem_of_zip_results_drone_at. }
  apply list_elem_of_singleton in Hin'. congruence.
Qed.

Lemma world_b_survives :
  survives world_b actions_b (mkDrone 1 None) (1, 1)%Z (1, 2)%Z.
Proof. apply survives_check; [exact world_b_wf|by vm_compute]. Qed.

Ltac survivor_iteration Hwf Hdi Hnav Hsurv :=
  let Hsurv' := fresh in
  pose proof Hsurv as Hsurv';
  destruct Hsurv' as (?Hd & ?Hplan & _);
  destruct (navigate_drone _ _ _ _ _ _ Hwf Hdi Hnav Hd Hplan)
    as (?sta & ?stb & ?Hb & ?Hwfa & ?Hwfst & ?Hairq & ?Hgq & ?Hrw
        & ?Hairf & ?Hgf & ?Hrwf & ?Hpre_a & ?Hpre_g);
  rewrite (survivor_group _ _ _ _ _ Hwf Hsurv) in Hb;
  unfold further_air_navigation in Hb; simpl in Hb.

(** C3 (as amended). A surviving drone that is not carrying and whose
    destination cell holds a Packet picks it up: when the two loops are
    done the drone is at its destination holding that packet and the ground
    cell is empty, and the drone still holds it when the step returns. Its
    reward is the initial 0, and the iteration that picks the packet up
    leaves [ground_respawns] and [air_respawns] as they were. *)
Theorem C3_pickup self actions rs st out d p q pk :
  Env_wf self → distinct_indices self →
  survives self actions d p q → packet d = None →
  getitem (ground self) q = Some (TPacket pk) →
  navigate self actions = Ok st → step self actions rs = Ok out →
  getitem (l_air st) q = Some (mkDrone (index d) (Some pk)) ∧
  getitem (l_ground st) q = None ∧
  getitem (air (grids out)) q = Some (mkDrone (index d) (Some pk)) ∧
  r_rewards out !! index d = no_reward actions (index d) ∧
  ∀ st0 st1, getitem (l_ground st0) q = Some (TPacket pk) →
             further_air_navigation st0 (q, [d]) = Ok st1 →
             ground_respawns st1 = ground_respawns st0 ∧
             air_respawns st1 = air_respawns st0 ∧ rewards st1 = rewards st0.
Proof.
  intros Hwf Hdi Hsurv Hpacket Hground Hnav Hstep.
  survivor_iteration Hwf Hdi Hnav Hsurv.
  rewrite Hgq, Hground, Hpacket in Hb. injection Hb as <-. simpl in *.
  destruct Hwfa as (Hsa & Hsg & Hwa & Hwg).
  assert (inside (shape (air self)) q) as Hq by (by destruct Hplan as (? & _ & _ & ?)).
  rewrite getitem_setitem_eq in Hairf by (done || congruence).
  rewrite getitem_setitem_eq in Hgf by (done || congruence).
  destruct (step_survivor _ _ _ _ _ q _ Hwf Hnav Hstep Hq Hairf) as (Hout & Hr & _).
  split_and!; try done.
  - by rewrite Hr, Hrwf.
  - intros st0 st1 Hg0 H1. unfold further_air_navigation in H1. simpl in H1.
    rewrite Hg0, Hpacket in H1. by injection H1 as <-.
Qed.

Lemma C3_witness :
  getitem (l_air (navigated (navigate world_b actions_b))) (1, 2)%Z
    = Some (mkDrone (index (mkDrone 1 None)) (Some (mkPacket 1))) ∧
  getitem (l_ground (navigated (navigate world_b actions_b))) (1, 2)%Z = None ∧
  getitem (air (grids (returned (step world_b actions_b [])))) (1, 2)%Z
    = Some (mkDrone (index (mkDrone 1 None)) (Some (mkPacket 1))) ∧
  r_rewards (returned (step world_b actions_b [])) !! index (mkDrone 1 None)
    = no_reward actions_b (index (mkDrone 1 None)) ∧
  ∀ st0 st1, getitem (l_ground st0) (1, 2)%Z = Some (TPacket (mkPacket 1)) →
             further_air_navigation st0 ((1, 2)%Z, [mkDrone 1 None]) = Ok st1 →
             ground_respawns st1 = ground_respawns st0 ∧
             air_respawns st1 = air_respawns st0 ∧ rewards st1 = rewards st0.
Proof.
  apply (C3_pickup world_b actions_b [] _ _ (mkDrone 1 None) (1, 1)%Z (1, 2)%Z (mkPacket 1)).
  - exact world_b_wf.
  - exact world_b_distinct.
  - exact world_b_survives.
  - reflexivity.
  - by vm_compute.
  - by vm_compute.
  - by vm_compute.
Defined.

(** C3, refuted as stated. Drone 1 of [world_b] is not carrying and moves
    onto packet 1: it survives and picks the packet up, but its reward is
    0, nothing is scheduled for respawn, and no packet is on the ground
    when the step returns. *)
Lemma C3_counterexample :
  survives world_b actions_b (mkDrone 1 None) (1, 1)%Z (1, 2)%Z ∧
  getitem (ground world_b) (1, 2)%Z = Some (TPacket (mkPacket 1)) ∧
  step world_b actions_b [] = Ok (returned (step world_b actions_b [])) ∧
  getitem (air (grids (returned (step world_b actions_b [])))) (1, 2)%Z
    = Some (mkDrone 1 (Some (mkPacket 1))) ∧
  r_rewards (returned (step world_b actions_b [])) !! 1%Z = Some 0%Z ∧
  info_ground_respawns (returned (step world_b actions_b [])) = [] ∧
  objects (ground (grids (returned (step world_b actions_b []))))
    = [TDropzone (mkDropzone 1)].
Proof.
  split; [exact world_b_survives|]. by vm_compute.
Qed.

Lemma world_c_wf : Env_wf world_c.
Proof. by vm_compute. Qed.

Lemma world_c_distinct : distinct_indices world_c.
Proof. vm_compute. apply NoDup_singleton. Qed.

Lemma world_c_survives :
  survives world_c actions_b (mkDrone 1 (Some (mkPacket 2))) (1, 1)%Z (1, 2)%Z.
Proof. apply survives_check; [exact world_c_wf|by vm_compute]. Qed.

(** C4 (as amended). When a surviving drone that is already carrying a
    package moves onto a cell holding a Packet, the two packets are
    switched: the drone ends up carrying the packet that lay on the ground,
    and the packet it was carrying lies on that cell, both when the loops
    are done and when the step returns. The drone's reward is the initial 0. *)
Theorem C4_switch self actions rs st out d p q carried on_ground :
  Env_wf self → distinct_indices self →
  survives self actions d p q → packet d = Some carried →
  getitem (ground self) q = Some (TPacket on_ground) →
  navigate self actions = Ok st → step self actions rs = Ok out →
  getitem (l_air st) q = Some (mkDrone (index d) (Some on_ground)) ∧
  getitem (l_ground st) q = Some (TPacket carried) ∧
  getitem (air (grids out)) q = Some (mkDrone (index d) (Some on_ground)) ∧
  getitem (ground (grids out)) q = Some (TPacket carried) ∧
  r_rewards out !! index d = no_reward actions (index d).
Proof.
  intros Hwf Hdi Hsurv Hpacket Hground Hnav Hstep.
  survivor_iteration Hwf Hdi Hnav Hsurv.
  rewrite Hgq, Hground, Hpacket in Hb. injection Hb as <-. simpl in *.
  destruct Hwfa as (Hsa & Hsg & Hwa & Hwg).
  assert (inside (shape (air self)) q) as Hq by (by destruct Hplan as (? & _ & _ & ?)).
  rewrite getitem_setitem_eq in Hairf by (done || congruence).
  rewrite getitem_setitem_eq in Hgf by (done || congruence).
  destruct (step_survivor _ _ _ _ _ q _ Hwf Hnav Hstep Hq Hairf) as (Hout & Hr & _ & _ & Hgo).
  split_and!; try done.
  - by apply Hgo.
  - by rewrite Hr, Hrwf.
Qed.

Lemma C4_witness :
  getitem (l_air (navigated (navigate world_c actions_b))) (1, 2)%Z
    = Some (mkDrone (index (mkDrone 1 (Some (mkPacket 2)))) (Some (mkPacket 1))) ∧
  getitem (l_ground (navigated (navigate world_c actions_b))) (1, 2)%Z
    = Some (TPacket (mkPacket 2)) ∧
  getitem (air (grids (returned (step world_c actions_b [])))) (1, 2)%Z
    = Some (mkDrone (index (mkDrone 1 (Some (mkPacket 2)))) (Some (mkPacket 1))) ∧
  getitem (ground (grids (returned (step world_c actions_b [])))) (1, 2)%Z
    = Some (TPacket (mkPacket 2)) ∧
  r_rewards (returned (step world_c actions_b [])) !! index (mkDrone 1 (Some (mkPacket 2)))
    = no_reward actions_b (index (mkDrone 1 (Some (mkPacket 2)))).
Proof.
  apply (C4_switch world_c actions_b [] _ _ (mkDrone 1 (Some (mkPacket 2)))
           (1, 1)%Z (1, 2)%Z (mkPacket 2) (mkPacket 1)).
  - exact world_c_wf.
  - exact world_c_distinct.
  - exact world_c_survives.
  - reflexivity.
  - by vm_compute.
  - by vm_compute.
  - by vm_compute.
Defined.

(** C4, refuted as stated. Drone 1 of [world_c] carries packet 2 and moves
    onto packet 1: after the step it carries packet 1 and packet 2 lies on
    the cell, so neither its cargo nor the ground cell is unchanged. *)
Lemma C4_counterexample :
  survives world_c actions_b (mkDrone 1 (Some (mkPacket 2))) (1, 1)%Z (1, 2)%Z ∧
  getitem (ground world_c) (1, 2)%Z = Some (TPacket (mkPacket 1)) ∧
  step world_c actions_b [] = Ok (returned (step world_c actions_b [])) ∧
  getitem (air (grids (returned (step world_c actions_b [])))) (1, 2)%Z
    = Some (mkDrone 1 (Some (mkPacket 1))) ∧
  getitem (ground (grids (returned (step world_c actions_b [])))) (1, 2)%Z
    = Some (TPacket (mkPacket 2)) ∧
  mkPacket 1 ≠ mkPacket 2.
Proof.
  split; [exact world_c_survives|]. by vm_compute.
Qed.

Lemma world_d_survives :
  survives world_d actions_b (mkDrone 1 (Some (mkPacket 2))) (1, 1)%Z (1, 2)%Z.
Proof. apply survives_check; by vm_compute. Qed.

Lemma world_e_survives :
  survives world_e actions_b (mkDrone 1 (Some (mkPacket 1))) (1, 1)%Z (1, 2)%Z.
Proof. apply survives_check; by vm_compute. Qed.

(** C1 (as amended). A surviving drone whose destination cell holds a
    Dropzone delivers only when it carries the packet of that dropzone's
    index: then it carries nothing afterwards, its reward is the delivery
    reward 1, the ground cell is cleared, and the delivered packet and the
    dropzone are both scheduled for ground respawn. On a dropzone of another
    index, or without a packet, landing has no effect. *)
Theorem C1_delivery self actions rs st out d p q z :
  Env_wf self → distinct_indices self →
  survives self actions d p q →
  getitem (ground self) q = Some (TDropzone z) →
  navigate self actions = Ok st → step self actions rs = Ok out →
  (∀ pk, packet d = Some pk → packet_index pk = dropzone_index z →
     getitem (l_air st) q = Some (drop_packet d) ∧
     getitem (l_ground st) q = None ∧
     getitem (air (grids out)) q = Some (drop_packet d) ∧
     r_rewards out !! index d = Some delivery_reward ∧
     TPacket pk ∈ info_ground_respawns out ∧
     TDropzone z ∈ info_ground_respawns out) ∧
  ((packet d = None ∨ ∃ pk, packet d = Some pk ∧ packet_index pk ≠ dropzone_index z) →
     getitem (l_air st) q = Some d ∧
     getitem (l_ground st) q = Some (TDropzone z) ∧
     getitem (air (grids out)) q = Some d ∧
     getitem (ground (grids out)) q = Some (TDropzone z) ∧
     r_rewards out !! index d = no_reward actions (index d)).
Proof.
  intros Hwf Hdi Hsurv Hground Hnav Hstep.
  survivor_iteration Hwf Hdi Hnav Hsurv.
  rewrite Hgq, Hground in Hb.
  destruct Hwfa as (Hsa & Hsg & Hwa & Hwg).
  assert (inside (shape (air self)) q) as Hq by (by destruct Hplan as (? & _ & _ & ?)).
  split.
  - intros pk Hpacket Hmatch. rewrite Hpacket, decide_True in Hb by done.
    injection Hb as <-. simpl in *.
    rewrite getitem_setitem_eq in Hairf by (done || congruence).
    rewrite getitem_setitem_eq in Hgf by (done || congruence).
    destruct (step_survivor _ _ _ _ _ q _ Hwf Hnav Hstep Hq Hairf)
      as (Hout & Hr & Hi & _).
    rewrite Hr, Hi, Hrwf, lookup_insert_eq. split_and!; try done.
    + eapply elem_of_prefix; [|exact Hpre_g]. apply elem_of_app. right. left.
    + eapply elem_of_prefix; [|exact Hpre_g]. apply elem_of_app. right. right. left.
  - intros Hno.
    assert (stb = mkLocals (setitem (l_air sta) q (Some d)) (l_ground sta)
                    (rewards sta) (new_positions sta) (air_respawns sta)
                    (ground_respawns sta)) as Hstb.
    { destruct Hno as [Hnone|(pk & Hpk & Hne)].
      - rewrite Hnone in Hb. by injection Hb.
      - rewrite Hpk, decide_False in Hb by done. by injection Hb. }
    subst stb. simpl in *.
    rewrite getitem_setitem_eq in Hairf by (done || congruence).
    rewrite Hgq in Hgf.
    destruct (step_survivor _ _ _ _ _ q _ Hwf Hnav Hstep Hq Hairf)
      as (Hout & Hr & _ & _ & Hgo).
    split_and!; try done.
    + congruence.
    + apply Hgo. congruence.
    + by rewrite Hr, Hrwf.
Qed.

Lemma C1_witness :
  (∀ pk, packet (mkDrone 1 (Some (mkPacket 1))) = Some pk →
     packet_index pk = dropzone_index (mkDropzone 1) →
     getitem (l_air (navigated (navigate world_e actions_b))) (1, 2)%Z
       = Some (drop_packet (mkDrone 1 (Some (mkPacket 1)))) ∧
     getitem (l_ground (navigated (navigate world_e actions_b))) (1, 2)%Z = None ∧
     getitem (air (grids (returned (step world_e actions_b [4; 7])))) (1, 2)%Z
       = Some (drop_packet (mkDrone 1 (Some (mkPacket 1)))) ∧
     r_rewards (returned (step world_e actions_b [4; 7]))
       !! index (mkDrone 1 (Some (mkPacket 1))) = Some delivery_reward ∧
     TPacket pk ∈ info_ground_respawns (returned (step world_e actions_b [4; 7])) ∧
     TDropzone (mkDropzone 1)
       ∈ info_ground_respawns (returned (step world_e actions_b [4; 7]))) ∧
  ((packet (mkDrone 1 (Some (mkPacket 1))) = None ∨
    ∃ pk, packet (mkDrone 1 (Some (mkPacket 1))) = Some pk ∧
          packet_index pk ≠ dropzone_index (mkDropzone 1)) →
     getitem (l_air (navigated (navigate world_e actions_b))) (1, 2)%Z
       = Some (mkDrone 1 (Some (mkPacket 1))) ∧
     getitem (l_ground (navigated (navigate world_e actions_b))) (1, 2)%Z
       = Some (TDropzone (mkDropzone 1)) ∧
     getitem (air (grids (returned (step world_e actions_b [4; 7])))) (1, 2)%Z
       = Some (mkDrone 1 (Some (mkPacket 1))) ∧
     getitem (ground (grids (returned (step world_e actions_b [4; 7])))) (1, 2)%Z
       = Some (TDropzone (mkDropzone 1)) ∧
     r_rewards (returned (step world_e actions_b [4; 7]))
       !! index (mkDrone 1 (Some (mkPacket 1)))
       = no_reward actions_b (index (mkDrone 1 (Some (mkPacket 1))))).
Proof.
  apply (C1_delivery world_e actions_b [4; 7] _ _ (mkDrone 1 (Some (mkPacket 1)))
           (1, 1)%Z (1, 2)%Z (mkDropzone 1)).
  - by vm_compute.
  - vm_compute. apply NoDup_singleton.
  - exact world_e_survives.
  - by vm_compute.
  - by vm_compute.
  - by vm_compute.
Defined.

(** C1, refuted as stated. Drone 1 of [world_d] carries packet 2 and lands
    on dropzone 1: it survives, but nothing is delivered. It still carries
    packet 2, the dropzone is still there, its reward is 0 and nothing is
    scheduled for respawn. *)
Lemma C1_counterexample :
  survives world_d actions_b (mkDrone 1 (Some (mkPacket 2))) (1, 1)%Z (1, 2)%Z ∧
  getitem (ground world_d) (1, 2)%Z = Some (TDropzone (mkDropzone 1)) ∧
  step world_d actions_b [] = Ok (returned (step world_d actions_b [])) ∧
  getitem (air (grids (returned (step world_d actions_b [])))) (1, 2)%Z
    = Some (mkDrone 1 (Some (mkPacket 2))) ∧
  getitem (ground (grids (returned (step world_d actions_b [])))) (1, 2)%Z
    = Some (TDropzone (mkDropzone 1)) ∧
  r_rewards (returned (step world_d actions_b [])) !! 1%Z = Some 0%Z ∧
  info_ground_respawns (returned (step world_d actions_b [])) = [].
Proof.
  split; [exact world_d_survives|]. by vm_compute.
Qed.

(** ** What [step] returns besides the grids *)

Lemma make_dones_lookup actions (l : list Drone) i :
  i ∈ index <$> l → make_dones actions l !! i = Some true.
Proof.
  unfold make_dones. generalize ((λ _ : Z, false) <$> actions).
  induction l as [|d l IH]; intros m Hi; [by apply elem_of_nil in Hi|].
  rewrite fmap_cons in Hi. simpl.
  destruct (decide (i ∈ index <$> l)) as [Hin|Hni]; [by apply IH|].
  apply elem_of_cons in Hi as [->|Hi]; [|done].
  clear IH. revert m. induction l as [|d' l IH]; intros m; simpl.
  - by rewrite lookup_insert_eq.
  - rewrite fmap_cons in Hni. apply not_elem_of_cons in Hni as [Hne Hni].
    rewrite insert_insert_ne by done. by apply IH.
Qed.

Lemma make_dones_lookup_ne actions (l : list Drone) i :
  i ∉ index <$> l → make_dones actions l !! i = ((λ _, false) <$> actions) !! i.
Proof.
  unfold make_dones. generalize ((λ _ : Z, false) <$> actions).
  induction l as [|d l IH]; intros m Hi; [done|].
  rewrite fmap_cons in Hi. apply not_elem_of_cons in Hi as [Hne Hni]. simpl.
  rewrite IH by done. by rewrite lookup_insert_ne.
Qed.

Lemma omap_lookup_fmap {A B C D} (f : A → option B) (g : B → C) (h : D → C)
    (l : list A) (k : list D) :
  length l = length k →
  (∀ i x y, l !! i = Some x → k !! i = Some y → ∃ b, f x = Some b ∧ g b = h y) →
  g <$> omap f l = h <$> k.
Proof.
  revert k. induction l as [|x l IH]; intros [|y k] Hlen Hall; try done.
  destruct (Hall 0 x y eq_refl eq_refl) as (b & Hb & Hgb).
  csimpl. rewrite Hb. csimpl. rewrite Hgb. f_equal.
  apply IH; [by injection Hlen|]. intros i. apply (Hall (S i)).
Qed.

(** The drones listed in [info['air_respawns']] are those of the local
    list [air_respawns], as they sit in the air grid after respawn. *)
Lemma respawn_info_air sh actions st rs out :
  respawn actions st rs = Ok out → Locals_wf sh st →
  index <$> info_air_respawns out = index <$> air_respawns st.
Proof.
  intros (ground1 & gpos & rs1 & air1 & positions & Hg & Ha & Hp & _ & _ & -> & _)%respawn_Ok
         (Hsa & Hsg & Hwa & Hwg).
  destruct (spawn_spec _ _ _ _ _ _ Hwg Hg) as (Hsg1 & Hwg1 & _).
  destruct (spawn_spec _ _ _ _ _ _ Hwa Ha) as (Hsa1 & Hwa1 & Hlen & Hnd & Hall & Hat & _).
  assert (Forall (inside sh) positions) as Hins.
  { eapply Forall_impl; [exact Hall|]. intros p [Hp' _]. by rewrite <- Hsa. }
  apply omap_lookup_fmap; [done|]. intros i p d Hi Hd.
  pose proof (Hat i p d Hi Hd) as Hair1.
  assert (p ∈ positions) as Hpin by (by eapply list_elem_of_lookup_2).
  pose proof (pick_packets_at sh positions _ _ _ _ p Hp) as Hpick.
  destruct (getitem ground1 p) as [[pk|z]|] eqn:Hgp.
  - destruct Hpick as (d0 & Hd0 & Hair2 & _); [congruence..|done|done|done|].
    rewrite Hair1 in Hd0. injection Hd0 as <-. eauto.
  - destruct Hpick as [Hair2 _]; [congruence..|done|done|done|].
    rewrite Hair2, Hair1. eauto.
  - destruct Hpick as [Hair2 _]; [congruence..|done|done|done|].
    rewrite Hair2, Hair1. eauto.
Qed.

Lemma step_outputs self actions rs st out :
  Env_wf self → navigate self actions = Ok st → step self actions rs = Ok out →
  r_rewards out = rewards st ∧
  r_dones out = make_dones actions (air_respawns st) ∧
  info_ground_respawns out = ground_respawns st ∧
  index <$> info_air_respawns out = index <$> air_respawns st.
Proof.
  intros Hwf Hnav (st' & Hnav' & Hre)%step_Ok.
  rewrite Hnav in Hnav'. injection Hnav' as <-.
  destruct (navigate_census _ _ _ Hwf Hnav) as (Hwfst & _).
  pose proof (respawn_info_air _ _ _ _ _ Hre Hwfst) as Hinfo.
  apply respawn_Ok in Hre as (? & ? & ? & ? & ? & _ & _ & _ & Hr & Hd & _ & Hi).
  done.
Qed.

Lemma two_elements {A} (l : list A) x y : x ∈ l → y ∈ l → x ≠ y → 1 < length l.
Proof.
  destruct l as [|a [|b l]]; simpl; intros Hx Hy Hne; [by apply elem_of_nil in Hx| |lia].
  apply list_elem_of_singleton in Hx, Hy. congruence.
Qed.

(** C2. Whenever two drones that passed the boundary test have the same
    destination cell, they crash (and so does, by the same statement, every
    other member of their group): the drone gets the crash reward -1, is
    marked done, is scheduled for air respawn without its packet, and the
    packet it carried is scheduled for ground respawn; nobody moves into the
    contested cell. *)
Theorem C2_collision self actions rs st out d1 p1 d2 p2 q :
  Env_wf self → distinct_indices self →
  drone_at self d1 p1 → drone_at self d2 p2 → p1 ≠ p2 →
  plans self actions d1 p1 q → plans self actions d2 p2 q →
  navigate self actions = Ok st → step self actions rs = Ok out →
  r_rewards out !! index d1 = Some crash_reward ∧
  r_dones out !! index d1 = Some true ∧
  drop_packet d1 ∈ air_respawns st ∧
  index d1 ∈ index <$> info_air_respawns out ∧
  (∀ pk, packet d1 = Some pk → TPacket pk ∈ info_ground_respawns out) ∧
  getitem (l_air st) q = None.
Proof.
  intros Hwf Hdi Hd1 Hd2 Hne Hplan1 Hplan2 Hnav Hstep.
  destruct (navigate_drone _ _ _ _ _ _ Hwf Hdi Hnav Hd1 Hplan1)
    as (sta & stb & Hb & Hwfa & Hwfst & Hairq & Hgq & Hrw
        & Hairf & Hgf & Hrwf & Hpre_a & Hpre_g).
  set (ds := (filter (λ dp, heads_to actions (shape (air self)) q dp = true)
                (zip_results (air self))).*1) in *.
  assert (∀ d p, drone_at self d p → plans self actions d p q →
            (d, p) ∈ filter (λ dp, heads_to actions (shape (air self)) q dp = true)
                       (zip_results (air self))) as Hin.
  { intros d p Hd Hplan. apply list_elem_of_filter. split; [by apply heads_to_plans|].
    by apply elem_of_zip_results_drone_at. }
  assert (1 < length ds) as Hlen.
  { unfold ds. rewrite length_fmap.
    apply (two_elements _ (d1, p1) (d2, p2)); [by apply Hin..|congruence]. }
  assert (d1 ∈ ds) as Hd1ds.
  { apply list_elem_of_fmap. exists (d1, p1). split; [done|]. by apply Hin. }
  unfold further_air_navigation in Hb. rewrite decide_True in Hb by done.
  injection Hb as <-. simpl in *.
  destruct (step_outputs _ _ _ _ _ Hwf Hnav Hstep) as (-> & -> & -> & ->).
  assert (drop_packet d1 ∈ air_respawns st) as Hresp.
  { eapply elem_of_prefix; [|exact Hpre_a]. apply elem_of_app. right.
    by apply list_elem_of_fmap_2. }
  assert (index d1 ∈ index <$> air_respawns st) as Hidx.
  { by apply (list_elem_of_fmap_2 index) in Hresp. }
  split_and!; try done.
  - rewrite Hrwf. apply crash_all_lookup. by apply list_elem_of_fmap_2.
  - by apply make_dones_lookup.
  - intros pk Hpk. eapply elem_of_prefix; [|exact Hpre_g]. apply elem_of_app. right.
    apply list_elem_of_omap. exists d1. split; [done|]. unfold lost_packet. by rewrite Hpk.
  - by rewrite Hairf.
Qed.

Lemma C2_witness :
  r_rewards (returned (step world_f actions_a [5; 1; 2]))
    !! index (mkDrone 1 (Some (mkPacket 1))) = Some crash_reward ∧
  r_dones (returned (step world_f actions_a [5; 1; 2]))
    !! index (mkDrone 1 (Some (mkPacket 1))) = Some true ∧
  drop_packet (mkDrone 1 (Some (mkPacket 1)))
    ∈ air_respawns (navigated (navigate world_f actions_a)) ∧
  index (mkDrone 1 (Some (mkPacket 1)))
    ∈ index <$> info_air_respawns (returned (step world_f actions_a [5; 1; 2])) ∧
  (∀ pk, packet (mkDrone 1 (Some (mkPacket 1))) = Some pk →
         TPacket pk ∈ info_ground_respawns (returned (step world_f actions_a [5; 1; 2]))) ∧
  getitem (l_air (navigated (navigate world_f actions_a))) (0, 1)%Z = None.
Proof.
  apply (C2_collision world_f actions_a [5; 1; 2] _ _
           (mkDrone 1 (Some (mkPacket 1))) (0, 0)%Z (mkDrone 2 None) (0, 2)%Z (0, 1)%Z).
  - by vm_compute.
  - vm_compute. apply NoDup_cons. split; [|apply NoDup_singleton].
    by intros ?%list_elem_of_singleton.
  - by vm_compute.
  - by vm_compute.
  - done.
  - exists RIGHT. by vm_compute.
  - exists LEFT. by vm_compute.
  - by vm_compute.
  - by vm_compute.
Defined.

Lemma elem_of_objects_getitem {A} (g : Grid A) p a : getitem g p = Some a → a ∈ objects g.
Proof.
  intros Ha%getitem_Some_lookup. apply list_elem_of_omap. exists (Some a).
  split; [by eapply list_elem_of_lookup_2|done].
Qed.

Lemma no_reward_not_crash actions i : no_reward actions i ≠ Some crash_reward.
Proof. unfold no_reward. rewrite lookup_fmap. by destruct (actions !! i). Qed.

(** A surviving drone is at its destination when the step returns; it is
    neither punished nor marked done nor respawned. *)
Lemma survivor_lands self actions rs st out d p q :
  Env_wf self → distinct_indices self →
  survives self actions d p q →
  navigate self actions = Ok st → step self actions rs = Ok out →
  (∃ d', getitem (air (grids out)) q = Some d' ∧ index d' = index d) ∧
  r_rewards out !! index d ≠ Some crash_reward ∧
  r_dones out !! index d ≠ Some true ∧
  index d ∉ index <$> info_air_respawns out.
Proof.
  intros Hwf Hdi Hsurv Hnav Hstep.
  survivor_iteration Hwf Hdi Hnav Hsurv.
  destruct Hwfa as (Hsa & Hsg & Hwa & Hwg).
  assert (inside (shape (air self)) q) as Hq by (by destruct Hplan as (? & _ & _ & ?)).
  assert (∃ d', getitem (l_air stb) q = Some d' ∧ index d' = index d ∧
                rewards stb !! index d ≠ Some crash_reward) as (d' & Hd' & Hidx & Hrwb).
  { pose proof (no_reward_not_crash actions (index d)) as Hnr. rewrite <- Hrw in Hnr.
    repeat case_match; simplify_eq; simpl;
      rewrite getitem_setitem_eq by (done || congruence);
      eexists; (split; [done|]); (split; [done|]); try done.
    by rewrite lookup_insert_eq. }
  rewrite <- Hairf in Hd'. rewrite <- Hrwf in Hrwb.
  destruct (step_survivor _ _ _ _ _ q _ Hwf Hnav Hstep Hq Hd') as (Hout & _).
  destruct (step_outputs _ _ _ _ _ Hwf Hnav Hstep) as (-> & -> & _ & ->).
  destruct (navigate_census _ _ _ Hwf Hnav) as (_ & _ & Hcensus & _).
  assert (index d ∉ index <$> air_respawns st) as Hni.
  { unfold distinct_indices in Hdi. rewrite <- Hcensus, fmap_app in Hdi.
    apply NoDup_app in Hdi as (_ & Hdisj & _). apply Hdisj. rewrite <- Hidx.
    apply list_elem_of_fmap_2. by eapply elem_of_objects_getitem. }
  split_and!; try done.
  - by exists d'.
  - rewrite make_dones_lookup_ne by done. rewrite lookup_fmap.
    by destruct (actions !! index d).
Qed.

(** C6 (as amended). Two drones on different cells, each of which moves
    into the cell of the other: their destinations are distinct, so the
    pair is not a collision. Provided no third drone heads for either
    cell, both survive the tick and have exchanged their cells when the
    step returns; neither gets the crash reward, is marked done or is
    respawned. *)
Theorem C6_swap self actions rs st out dA pA dB pB :
  Env_wf self → distinct_indices self →
  drone_at self dA pA → drone_at self dB pB → pA ≠ pB →
  plans self actions dA pA pB → plans self actions dB pB pA →
  (∀ d' p', drone_at self d' p' →
            plans self actions d' p' pA ∨ plans self actions d' p' pB →
            p' = pA ∨ p' = pB) →
  navigate self actions = Ok st → step self actions rs = Ok out →
  (∀ aA aB, get_action actions dA = Ok aA → get_action actions dB = Ok aB →
            new_position aA pA ≠ new_position aB pB) ∧
  survives self actions dA pA pB ∧ survives self actions dB pB pA ∧
  (∃ dA', getitem (air (grids out)) pB = Some dA' ∧ index dA' = index dA) ∧
  (∃ dB', getitem (air (grids out)) pA = Some dB' ∧ index dB' = index dB) ∧
  r_rewards out !! index dA ≠ Some crash_reward ∧
  r_rewards out !! index dB ≠ Some crash_reward ∧
  r_dones out !! index dA ≠ Some true ∧ r_dones out !! index dB ≠ Some true ∧
  (index dA ∉ index <$> info_air_respawns out) ∧
  (index dB ∉ index <$> info_air_respawns out).
Proof.
  intros Hwf Hdi HA HB Hne HplanA HplanB Hthird Hnav Hstep.
  assert (∀ d p q q', drone_at self d p → plans self actions d p q →
            plans self actions d p q' → q = q') as Hfun.
  { intros d p q q' _ (a & Ha & <- & _) (a' & Ha' & <- & _).
    rewrite Ha in Ha'. by injection Ha' as <-. }
  assert (∀ d p d', drone_at self d p → drone_at self d' p → d = d') as Hcell.
  { intros d p d' [_ H1] [_ H2]. congruence. }
  assert (survives self actions dA pA pB) as HsA.
  { split; [done|]. split; [done|]. intros d' p' Hd' Hplan'.
    destruct (Hthird d' p' Hd') as [->| ->]; [by right|done|].
    exfalso. rewrite (Hcell _ _ _ Hd' HB) in Hplan'. apply Hne.
    by apply (Hfun dB pB). }
  assert (survives self actions dB pB pA) as HsB.
  { split; [done|]. split; [done|]. intros d' p' Hd' Hplan'.
    destruct (Hthird d' p' Hd') as [->| ->]; [by left| |done].
    exfalso. rewrite (Hcell _ _ _ Hd' HA) in Hplan'. apply Hne.
    symmetry. by apply (Hfun dA pA). }
  destruct (survivor_lands _ _ _ _ _ _ _ _ Hwf Hdi HsA Hnav Hstep) as (? & ? & ? & ?).
  destruct (survivor_lands _ _ _ _ _ _ _ _ Hwf Hdi HsB Hnav Hstep) as (? & ? & ? & ?).
  split_and!; try done.
  intros aA aB HaA HaB.
  destruct HplanA as (a & Ha & HnpA & _), HplanB as (b & Hb & HnpB & _).
  rewrite HaA in Ha. rewrite HaB in Hb. injection Ha as <-. injection Hb as <-.
  rewrite HnpA, HnpB. intros Heq. by apply Hne.
Qed.

Lemma C6_witness :
  (∀ aA aB, get_action actions_a (mkDrone 1 None) = Ok aA →
            get_action actions_a (mkDrone 2 None) = Ok aB →
            new_position aA (1, 0)%Z ≠ new_position aB (1, 1)%Z) ∧
  survives world_g actions_a (mkDrone 1 None) (1, 0)%Z (1, 1)%Z ∧
  survives world_g actions_a (mkDrone 2 None) (1, 1)%Z (1, 0)%Z ∧
  (∃ dA', getitem (air (grids (returned (step world_g actions_a [])))) (1, 1)%Z = Some dA'
          ∧ index dA' = index (mkDrone 1 None)) ∧
  (∃ dB', getitem (air (grids (returned (step world_g actions_a [])))) (1, 0)%Z = Some dB'
          ∧ index dB' = index (mkDrone 2 None)) ∧
  r_rewards (returned (step world_g actions_a [])) !! index (mkDrone 1 None)
    ≠ Some crash_reward ∧
  r_rewards (returned (step world_g actions_a [])) !! index (mkDrone 2 None)
    ≠ Some crash_reward ∧
  r_dones (returned (step world_g actions_a [])) !! index (mkDrone 1 None) ≠ Some true ∧
  r_dones (returned (step world_g actions_a [])) !! index (mkDrone 2 None) ≠ Some true ∧
  (index (mkDrone 1 None)
     ∉ index <$> info_air_respawns (returned (step world_g actions_a []))) ∧
  (index (mkDrone 2 None)
     ∉ index <$> info_air_respawns (returned (step world_g actions_a []))).
Proof.
  apply (C6_swap world_g actions_a [] (navigated (navigate world_g actions_a))).
  - by vm_compute.
  - vm_compute. apply NoDup_cons. split; [|apply NoDup_singleton].
    by intros ?%list_elem_of_singleton.
  - by vm_compute.
  - by vm_compute.
  - done.
  - exists RIGHT. by vm_compute.
  - exists LEFT. by vm_compute.
  - intros d' p' Hd' _.
    apply (elem_of_zip_results (air world_g)) in Hd'; [|by vm_compute].
    vm_compute in Hd'.
    apply elem_of_cons in Hd' as [[= -> ->]|Hd']; [by left|].
    apply elem_of_cons in Hd' as [[= -> ->]|Hd']; [by right|].
    by apply elem_of_nil in Hd'.
  - by vm_compute.
  - by vm_compute.
Defined.

(** C6, refuted as stated. Drone 1 and drone 2 stand side by side and each
    moves into the cell of the other, but drone 3 heads for the cell of
    drone 2 as well: drone 1 meets it there and crashes, whatever the
    generator yields; it gets the crash reward, is marked done and is
    respawned. *)
Lemma C6_counterexample :
  Env_wf world_i ∧ distinct_indices world_i ∧
  drone_at world_i (mkDrone 1 None) (1, 0)%Z ∧
  drone_at world_i (mkDrone 2 None) (1, 1)%Z ∧
  plans world_i actions_i (mkDrone 1 None) (1, 0)%Z (1, 1)%Z ∧
  plans world_i actions_i (mkDrone 2 None) (1, 1)%Z (1, 0)%Z ∧
  ∀ rs, ∃ out, step world_i actions_i rs = Ok out ∧
    r_rewards out !! 1%Z = Some crash_reward ∧
    r_dones out !! 1%Z = Some true ∧
    1%Z ∈ index <$> info_air_respawns out.
Proof.
  assert (Env_wf world_i) as Hwf by (by vm_compute).
  split_and!; [done|apply (bool_decide_unpack _); by vm_compute|by vm_compute
              |by vm_compute|exists RIGHT; by vm_compute|exists LEFT; by vm_compute|].
  intros rs.
  destruct (step_total world_i actions_i rs Hwf) as [out Hstep].
  - by vm_compute.
  - change (objects (air world_i))
      with [mkDrone 1 None; mkDrone 2 None; mkDrone 3 None].
    repeat apply Forall_cons_2; [exists RIGHT|exists LEFT|exists LEFT|]; done.
  - vm_compute. lia.
  - exists out. split; [done|].
    destruct (step_outputs world_i actions_i rs
                (navigated (navigate world_i actions_i)) out Hwf)
      as (-> & -> & _ & ->); [by vm_compute|done|].
    split_and!; [by vm_compute|by vm_compute|].
    apply (bool_decide_unpack _). by vm_compute.
Qed.

(** ** Respawned drones *)

(** A drone that leaves the grid is in no item of [new_positions]. *)
Lemma crashed_not_in_items self actions st1 d p :
  Env_wf self → distinct_indices self →
  foldM (air_navigation actions)
    (mkLocals (air self) (ground self) ((λ _, 0%Z) <$> actions) [] [] [])
    (zip_results (air self)) = Ok st1 →
  drone_at self d p → leaves actions (shape (air self)) (d, p) = true →
  index d ∉ index <$> concat (new_positions st1).*2.
Proof.
  intros Hwf Hdi H1 Hd Hlv Hin.
  destruct (first_loop_summary _ _ _ Hwf H1) as (_ & _ & _ & _ & [Hnd _] & _).
  apply list_elem_of_fmap in Hin as (d' & Heq & Hd').
  apply elem_of_concat in Hd' as (ds & Hd' & Hds).
  apply list_elem_of_fmap in Hds as ([k ds'] & -> & Hk). simpl in Hd'.
  rewrite <- (group_elem_of _ _ _ Hnd Hk) in Hd'.
  destruct (first_loop_group_elem _ _ _ _ _ Hwf H1 Hd') as (p' & Hin' & Hplan').
  assert ((d, p) = (d', p')) as [= <- <-].
  { apply (zip_results_index_inj self); try done.
    by apply elem_of_zip_results_drone_at. }
  apply leaves_spec in Hlv as (a & Ha & Hout).
  destruct Hplan' as (a' & Ha' & Hk' & Hins). rewrite Ha in Ha'. injection Ha' as <-.
  apply Hout. by rewrite Hk'.
Qed.

(** A drone that leaves the grid ends the loops with the crash reward. *)
Lemma navigate_crashed self actions st d p :
  Env_wf self → distinct_indices self →
  navigate self actions = Ok st →
  drone_at self d p → leaves actions (shape (air self)) (d, p) = true →
  rewards st !! index d = Some crash_reward.
Proof.
  intros Hwf Hdi Hnav Hd Hlv. apply navigate_Ok in Hnav as (_ & st1 & H1 & H2).
  rewrite (second_loop_rewards _ _ _ _ H2)
    by (by eapply crashed_not_in_items).
  destruct (first_loop_summary _ _ _ Hwf H1) as (_ & _ & _ & _ & _ & _ & _ & _ & -> & _).
  apply crash_all_lookup. apply list_elem_of_fmap. exists d. split; [done|].
  apply list_elem_of_fmap. exists (d, p). split; [done|].
  apply list_elem_of_filter. split; [done|]. by apply elem_of_zip_results_drone_at.
Qed.

(** Every drone scheduled for air respawn has the crash reward. *)
Lemma respawned_reward self actions st i :
  Env_wf self → distinct_indices self →
  navigate self actions = Ok st →
  i ∈ index <$> air_respawns st → rewards st !! i = Some crash_reward.
Proof.
  intros Hwf Hdi Hnav Hi.
  destruct (navigate_census _ _ _ Hwf Hnav) as (_ & _ & Hcensus & _).
  assert (i ∈ index <$> objects (air self)) as Hi0.
  { rewrite <- Hcensus, fmap_app. apply elem_of_app. by right. }
  apply list_elem_of_fmap in Hi0 as (d & -> & Hd0).
  rewrite <- zip_results_fst in Hd0.
  apply list_elem_of_fmap in Hd0 as ([d0 p] & -> & Hdp). simpl in *.
  pose proof Hdp as Hd. apply elem_of_zip_results_drone_at in Hd; [|done].
  assert (∃ a, get_action actions d0 = Ok a) as [a Ha].
  { pose proof Hnav as Hnav'. apply navigate_Ok in Hnav' as (_ & st1 & H1 & _).
    assert (∃ st', foldM (air_navigation actions)
              (mkLocals (air self) (ground self) ((λ _, 0%Z) <$> actions) [] [] [])
              (zip_results (air self)) = Ok st') as Hok by eauto.
    apply air_navigation_loop_Ok in Hok.
    eapply Forall_forall in Hok; [|exact Hdp]. done. }
  destruct (decide (inside (shape (air self)) (new_position a p))) as [Hin|Hout].
  - assert (plans self actions d0 p (new_position a p)) as Hplan by (by exists a).
    destruct (navigate_drone _ _ _ _ _ _ Hwf Hdi Hnav Hd Hplan)
      as (sta & stb & Hb & Hwfa & Hwfst & Hairq & Hgq & Hrw
          & Hairf & Hgf & Hrwf & Hpre_a & Hpre_g).
    set (ds := (filter (λ dp, heads_to actions (shape (air self)) (new_position a p) dp = true)
                  (zip_results (air self))).*1) in *.
    assert (d0 ∈ ds) as Hdds.
    { apply list_elem_of_fmap. exists (d0, p). split; [done|].
      apply list_elem_of_filter. split; [by apply heads_to_plans|done]. }
    unfold further_air_navigation in Hb.
    destruct (decide (1 < length ds)) as [Hlen|Hlen].
    + injection Hb as <-. simpl in *. rewrite Hrwf. apply crash_all_lookup.
      by apply list_elem_of_fmap_2.
    + exfalso.
      assert (ds = [d0]) as Hds.
      { destruct ds as [|d1 [|d2 ds']]; [by apply elem_of_nil in Hdds| |simpl in Hlen; lia].
        apply list_elem_of_singleton in Hdds. by subst. }
      rewrite Hds in Hb. destruct Hwfa as (Hsa & Hsg & Hwa & Hwg).
      assert (∃ d', getitem (l_air stb) (new_position a p) = Some d' ∧ index d' = index d0)
        as (d' & Hd' & Hidx).
      { repeat case_match; simplify_eq; simpl;
          rewrite getitem_setitem_eq by (done || congruence); eauto. }
      rewrite <- Hairf in Hd'.
      unfold distinct_indices in Hdi. rewrite <- Hcensus, fmap_app in Hdi.
      apply NoDup_app in Hdi as (_ & Hdisj & _). apply (Hdisj (index d0)); [|done].
      rewrite <- Hidx. apply list_elem_of_fmap_2. by eapply elem_of_objects_getitem.
  - eapply navigate_crashed; try done. apply leaves_spec. by exists a.
Qed.

(** C7. A drone respawned onto a cell that holds a Packet (after the
    ground respawn) holds that packet when the step returns, and the cell
    is cleared. The pickup changes no reward, so the crashed drone stays at
    the crash reward, and it schedules nothing: [rewards] and
    [ground_respawns] are returned as the loops left them. *)
Theorem C7_respawn_pickup self actions rs st out ground1 gpos rs1 air1 positions rs2
    i p d pk :
  Env_wf self → distinct_indices self →
  navigate self actions = Ok st →
  spawn (l_ground st) (ground_respawns st) rs = Ok (ground1, gpos, rs1) →
  spawn (l_air st) (air_respawns st) rs1 = Ok (air1, positions, rs2) →
  step self actions rs = Ok out →
  positions !! i = Some p → air_respawns st !! i = Some d →
  getitem ground1 p = Some (TPacket pk) →
  getitem (air (grids out)) p = Some (mkDrone (index d) (Some pk)) ∧
  getitem (ground (grids out)) p = None ∧
  r_rewards out !! index d = Some crash_reward ∧
  r_rewards out = rewards st ∧
  info_ground_respawns out = ground_respawns st.
Proof.
  intros Hwf Hdi Hnav Hg Ha Hstep Hi Hd Hgp.
  destruct (step_outputs _ _ _ _ _ Hwf Hnav Hstep) as (Hr & _ & Hig & _).
  apply step_Ok in Hstep as (st' & Hnav' & Hre).
  rewrite Hnav in Hnav'. injection Hnav' as <-.
  destruct (navigate_census _ _ _ Hwf Hnav) as ((Hsa & Hsg & Hwa & Hwg) & _).
  apply respawn_Ok in Hre
    as (ground1' & gpos' & rs1' & air1' & positions' & Hg' & Ha' & Hp & _).
  rewrite Hg in Hg'. injection Hg' as <- <- <-.
  rewrite Ha in Ha'. injection Ha' as <- <- _.
  destruct (spawn_spec _ _ _ _ _ _ Hwg Hg) as (Hsg1 & Hwg1 & _).
  destruct (spawn_spec _ _ _ _ _ _ Hwa Ha) as (Hsa1 & Hwa1 & Hlen & Hnd & Hall & Hat & _).
  assert (Forall (inside (shape (air self))) positions) as Hins.
  { eapply Forall_impl; [exact Hall|]. intros p' [Hp' _]. by rewrite <- Hsa. }
  assert (p ∈ positions) as Hpin by (by eapply list_elem_of_lookup_2).
  pose proof (pick_packets_at (shape (air self)) positions _ _ _ _ p Hp) as Hpick.
  rewrite Hgp in Hpick.
  destruct Hpick as (d0 & Hd0 & Hair2 & Hground2); [congruence..|done|done|done|].
  rewrite (Hat i p d Hi Hd) in Hd0. injection Hd0 as <-.
  split_and!; try done.
  rewrite Hr. apply (respawned_reward self actions); try done.
  apply list_elem_of_fmap_2. by eapply list_elem_of_lookup_2.
Qed.

Lemma C7_witness :
  getitem (air (grids (returned (step world_a actions_a [0; 0])))) (0, 0)%Z
    = Some (mkDrone (index (mkDrone 2 None)) (Some (mkPacket 2))) ∧
  getitem (ground (grids (returned (step world_a actions_a [0; 0])))) (0, 0)%Z = None ∧
  r_rewards (returned (step world_a actions_a [0; 0])) !! index (mkDrone 2 None)
    = Some crash_reward ∧
  r_rewards (returned (step world_a actions_a [0; 0]))
    = rewards (navigated (navigate world_a actions_a)) ∧
  info_ground_respawns (returned (step world_a actions_a [0; 0]))
    = ground_respawns (navigated (navigate world_a actions_a)).
Proof.
  eapply (C7_respawn_pickup world_a actions_a [0; 0]
            (navigated (navigate world_a actions_a))
            (returned (step world_a actions_a [0; 0]))
            _ _ _ _ _ _ 0 (0, 0)%Z (mkDrone 2 None) (mkPacket 2)).
  - exact world_a_wf.
  - vm_compute. apply NoDup_cons. split; [|apply NoDup_singleton].
    by intros ?%list_elem_of_singleton.
  - by vm_compute.
  - vm_compute. reflexivity.
  - vm_compute. reflexivity.
  - by vm_compute.
  - reflexivity.
  - reflexivity.
  - by vm_compute.
Defined.

(** ** The sampler reaches every arrangement, once *)

(** Every list of [k] distinct cells of the pool is the outcome of exactly
    one sequence of valid draws: if the raw draws are uniform, so is the
    arrangement drawn. *)
Lemma sample_bijective pool cs :
  NoDup pool → NoDup cs → (∀ c, c ∈ cs → c ∈ pool) →
  ∃ rs, valid_draws (length pool) (length cs) rs ∧
        sample pool (length cs) rs = (cs, []) ∧
        ∀ rs', valid_draws (length pool) (length cs) rs' →
               (sample pool (length cs) rs').1 = cs → rs' = rs.
Proof.
  revert pool. induction cs as [|c cs IH]; intros pool Hpool Hcs Hsub.
  { exists []. simpl. split_and!; try done. }
  apply NoDup_cons in Hcs as [Hc Hcs].
  destruct (proj1 (list_elem_of_lookup pool c)) as [j Hj]; [apply Hsub; left|].
  assert (j < length pool) as Hlt by (by eapply lookup_lt_Some).
  destruct (IH (delete j pool)) as (rs0 & Hvalid & Hsample & Huniq); [|done| |].
  { eapply sublist_NoDup; [exact Hpool|]. apply sublist_delete. }
  { intros c' Hc'. assert (c' ∈ pool) as Hin by (apply Hsub; by right).
    rewrite (delete_Permutation pool j c Hj) in Hin.
    apply elem_of_cons in Hin as [->|Hin]; done. }
  rewrite length_delete in Hvalid, Huniq by eauto.
  exists (j :: rs0). split_and!.
  - simpl. done.
  - simpl. rewrite Nat.mod_small by done. rewrite Hj. by rewrite Hsample.
  - intros [|r rs'] Hv Hs; [done|]. simpl in Hv. destruct Hv as [Hr Hv].
    simpl in Hs. rewrite Nat.mod_small in Hs by done.
    destruct (lookup_lt_is_Some_2 pool r Hr) as [c' Hc'].
    rewrite Hc' in Hs.
    destruct (sample (delete r pool) (length cs) rs') as [cs' rs''] eqn:Hrest.
    simpl in Hs. injection Hs as -> ->.
    assert (r = j) as -> by (by apply (NoDup_lookup pool r j c)).
    f_equal. apply Huniq; [done|]. by rewrite Hrest.
Qed.

Lemma spawn_any_arrangement {A} (g : Grid A) (objs : list A) (idxs : list Position) :
  Grid_wf g → NoDup idxs → length idxs = length objs →
  (∀ p, p ∈ idxs → inside (shape g) p ∧ getitem g p = None) →
  ∃ rs, valid_draws (length (empty_cells g)) (length objs) rs ∧
        (∃ g', spawn g objs rs = Ok (g', idxs, [])) ∧
        ∀ rs' g' rs'', valid_draws (length (empty_cells g)) (length objs) rs' →
                       spawn g objs rs' = Ok (g', idxs, rs'') → rs' = rs.
Proof.
  intros Hwf Hnd Hlen Hall.
  set (cs := ravel_index (shape g) <$> idxs).
  assert (unravel_index (shape g) <$> cs = idxs) as Hback.
  { unfold cs. rewrite <- list_fmap_compose. rewrite <- (list_fmap_id idxs) at 2.
    apply list_fmap_ext. intros i p Hp%list_elem_of_lookup_2. simpl.
    apply unravel_ravel_index. by apply Hall. }
  assert (∀ c, c ∈ cs → c ∈ empty_cells g) as Hsub.
  { intros c (p & -> & Hp)%list_elem_of_fmap. destruct (Hall p Hp) as [Hin Hnone].
    apply elem_of_empty_cells.
    destruct (lookup_lt_is_Some_2 (grid g) (ravel_index (shape g) p)) as [[a|] Hc];
      [rewrite Hwf; by apply ravel_index_lt| |done].
    apply getitem_Some_lookup in Hc. congruence. }
  assert (NoDup cs) as Hcs.
  { apply NoDup_fmap_2_strong; [|done]. intros p q [Hp _]%Hall [Hq _]%Hall.
    by apply ravel_index_inj. }
  assert (length cs = length objs) as Hlencs by (unfold cs; by rewrite length_fmap).
  destruct (sample_bijective (empty_cells g) cs) as (rs & Hvalid & Hsample & Huniq);
    [apply NoDup_flatnonzero_from|done..|].
  rewrite Hlencs in Hvalid, Hsample, Huniq.
  exists rs. split; [done|]. split.
  - eexists. unfold spawn, random_choice. rewrite decide_True.
    + simpl. rewrite Hsample. simpl. by rewrite Hback.
    + rewrite <- Hlencs. apply submseteq_length, NoDup_submseteq; done.
  - intros rs' g' rs'' Hv Hsp. apply Huniq; [done|].
    unfold spawn in Hsp. apply bind_Ok in Hsp as ([flat rs1] & Hch & Hsp).
    simpl in Hsp. injection Hsp as _ Hflat _.
    unfold random_choice in Hch. case_decide as Hk; [|done]. injection Hch as Hch.
    rewrite Hch. simpl.
    destruct (sample_spec (empty_cells g) (length objs) rs' Hk) as (_ & _ & Hin);
      [apply NoDup_flatnonzero_from|].
    rewrite Hch in Hin. simpl in Hin.
    unfold cs. rewrite <- Hflat, <- list_fmap_compose.
    rewrite <- (list_fmap_id flat) at 1. apply list_fmap_ext.
    intros i c Hc%list_elem_of_lookup_2. simpl. symmetry.
    apply ravel_unravel_index. rewrite <- Hwf.
    apply Hin, elem_of_empty_cells in Hc. by eapply lookup_lt_Some.
Qed.

(** C5 (as amended). [grid.spawn(objects)] with k objects writes each
    object to a distinct cell, drawn without replacement among the cells
    that are empty in that grid's own layer (the other layer is not
    consulted), and returns the chosen positions in the order of the
    objects; all other cells are left as they were. It raises (ValueError)
    if and only if fewer than k cells of that layer are empty. Every
    arrangement of k distinct empty cells is drawn by exactly one sequence
    of valid raw draws, so the arrangement is uniform when the draws are. *)
Theorem C5_spawn {A} (self : Grid A) (objs : list A) (rs : RandomState) :
  Grid_wf self →
  (spawn self objs rs = Raise ValueError ↔ length (empty_cells self) < length objs) ∧
  ((∃ r, spawn self objs rs = Ok r) ↔ length objs ≤ length (empty_cells self)) ∧
  (∀ p, inside (shape self) p →
        ravel_index (shape self) p ∈ empty_cells self ↔ getitem self p = None) ∧
  (∀ g' idxs rs', spawn self objs rs = Ok (g', idxs, rs') →
     length idxs = length objs ∧ NoDup idxs ∧
     (∀ p, p ∈ idxs → inside (shape self) p ∧ getitem self p = None) ∧
     (∀ i p o, idxs !! i = Some p → objs !! i = Some o → getitem g' p = Some o) ∧
     (∀ q, inside (shape self) q → q ∉ idxs → getitem g' q = getitem self q)) ∧
  (∀ idxs, NoDup idxs → length idxs = length objs →
     (∀ p, p ∈ idxs → inside (shape self) p ∧ getitem self p = None) →
     ∃ rs0, valid_draws (length (empty_cells self)) (length objs) rs0 ∧
            (∃ g', spawn self objs rs0 = Ok (g', idxs, [])) ∧
            ∀ rs1 g' rs', valid_draws (length (empty_cells self)) (length objs) rs1 →
                          spawn self objs rs1 = Ok (g', idxs, rs') → rs1 = rs0).
Proof.
  intros Hwf. split_and!.
  - unfold spawn, random_choice. case_decide as Hk; simpl.
    + split; [|lia]. by destruct (sample _ _ _).
    + split; [lia|done].
  - apply spawn_Ok.
  - intros p Hp. rewrite elem_of_empty_cells. unfold getitem.
    destruct (lookup_lt_is_Some_2 (grid self) (ravel_index (shape self) p)) as [c ->].
    { rewrite Hwf. by apply ravel_index_lt. }
    simpl. split; [by intros [= ->]|by intros ->].
  - intros g' idxs rs' Hsp.
    destruct (spawn_spec _ _ _ _ _ _ Hwf Hsp) as (_ & _ & Hlen & Hnd & Hall & Hat & Hfr & _).
    split_and!; try done. intros p Hp. by eapply Forall_forall in Hall.
  - intros idxs. by apply spawn_any_arrangement.
Qed.

(** C5, refuted as stated. In [world_a] drone 2 crashes and loses packet 2
    while drone 1 stays in the middle cell. When [ground.spawn] is called,
    the middle cell is occupied in the air layer, yet with the draw 4 the
    packet is written there: the cell is not one of those empty in both
    layers. *)
Lemma C5_counterexample :
  step world_a actions_h [4; 0] = Ok (returned (step world_a actions_h [4; 0])) ∧
  ground_respawns (navigated (navigate world_a actions_h)) = [TPacket (mkPacket 2)] ∧
  getitem (l_air (navigated (navigate world_a actions_h))) (1, 1)%Z
    = Some (mkDrone 1 None) ∧
  (λ r, (r.1.2, r.2))
    <$> spawn (l_ground (navigated (navigate world_a actions_h)))
          (ground_respawns (navigated (navigate world_a actions_h))) [4; 0]
    = Ok ([(1, 1)%Z], [0]) ∧
  getitem (air (grids (returned (step world_a actions_h [4; 0])))) (1, 1)%Z
    = Some (mkDrone 1 None) ∧
  getitem (ground (grids (returned (step world_a actions_h [4; 0])))) (1, 1)%Z
    = Some (TPacket (mkPacket 2)).
Proof. by vm_compute. Qed.

Lemma C5_witness :
  (spawn (ground world_a) [TPacket (mkPacket 3)] [0] = Raise ValueError ↔
   length (empty_cells (ground world_a)) < length [TPacket (mkPacket 3)]) ∧
  ((∃ r, spawn (ground world_a) [TPacket (mkPacket 3)] [0] = Ok r) ↔
   length [TPacket (mkPacket 3)] ≤ length (empty_cells (ground world_a))) ∧
  (∀ p, inside (shape (ground world_a)) p →
        ravel_index (shape (ground world_a)) p ∈ empty_cells (ground world_a) ↔
        getitem (ground world_a) p = None) ∧
  (∀ g' idxs rs', spawn (ground world_a) [TPacket (mkPacket 3)] [0] = Ok (g', idxs, rs') →
     length idxs = length [TPacket (mkPacket 3)] ∧ NoDup idxs ∧
     (∀ p, p ∈ idxs → inside (shape (ground world_a)) p ∧ getitem (ground world_a) p = None) ∧
     (∀ i p o, idxs !! i = Some p → [TPacket (mkPacket 3)] !! i = Some o →
               getitem g' p = Some o) ∧
     (∀ q, inside (shape (ground world_a)) q → q ∉ idxs →
           getitem g' q = getitem (ground world_a) q)) ∧
  (∀ idxs, NoDup idxs → length idxs = length [TPacket (mkPacket 3)] →
     (∀ p, p ∈ idxs → inside (shape (ground world_a)) p ∧ getitem (ground world_a) p = None) →
     ∃ rs0, valid_draws (length (empty_cells (ground world_a)))
              (length [TPacket (mkPacket 3)]) rs0 ∧
            (∃ g', spawn (ground world_a) [TPacket (mkPacket 3)] rs0 = Ok (g', idxs, [])) ∧
            ∀ rs1 g' rs', valid_draws (length (empty_cells (ground world_a)))
                            (length [TPacket (mkPacket 3)]) rs1 →
                          spawn (ground world_a) [TPacket (mkPacket 3)] rs1
                            = Ok (g', idxs, rs') → rs1 = rs0).
Proof.
  apply (C5_spawn (ground world_a) [TPacket (mkPacket 3)] [0]).
  by vm_compute.
Defined.

(** ** The generator *)

(** Rewards, dones and the respawn lists do not depend on the generator,
    and neither does whether [step] returns. *)
Lemma step_generator_independent self actions rs1 rs2 :
  Env_wf self →
  ((∃ out, step self actions rs1 = Ok out) ↔ (∃ out, step self actions rs2 = Ok out)) ∧
  ∀ out1 out2, step self actions rs1 = Ok out1 → step self actions rs2 = Ok out2 →
    r_rewards out1 = r_rewards out2 ∧ r_dones out1 = r_dones out2 ∧
    info_ground_respawns out1 = info_ground_respawns out2 ∧
    index <$> info_air_respawns out1 = index <$> info_air_respawns out2.
Proof.
  intros Hwf.
  assert (∀ ra rb, (∃ out, step self actions ra = Ok out) →
                   ∃ out, step self actions rb = Ok out) as Himp.
  { intros ra rb [out (st & Hnav & Hre)%step_Ok]. unfold step. rewrite Hnav. simpl.
    destruct (navigate_census _ _ _ Hwf Hnav) as (Hwfst & _).
    apply respawn_Ok in Hre as (g1 & gpos & r1 & a1 & pos & Hg & Ha & _).
    apply (respawn_total (shape (air self))); [done|..].
    - apply (spawn_Ok _ _ ra). eauto.
    - apply (spawn_Ok _ _ r1). eauto. }
  split; [split; apply Himp|].
  intros out1 out2 H1 H2.
  pose proof H1 as (st & Hnav & _)%step_Ok.
  destruct (step_outputs _ _ _ _ _ Hwf Hnav H1) as (-> & -> & -> & ->).
  destruct (step_outputs _ _ _ _ _ Hwf Hnav H2) as (-> & -> & -> & ->).
  done.
Qed.

(** C8 (as amended). [step] takes no generator: it consults NumPy's
    process-global generator, through [Grid.spawn], and only to choose the
    cells of the objects it respawns. Take two runs on the same state and
    the same actions, whatever the generator yields in each: if one returns
    so does the other, with the same rewards, the same dones, the same
    packets to respawn and the same drones respawned, and every drone that
    the navigation loops (which draw nothing) left in a cell is in that cell
    in both results. *)
Theorem C8_determinism self actions st rs1 rs2 out1 :
  Env_wf self →
  navigate self actions = Ok st →
  step self actions rs1 = Ok out1 →
  ∃ out2, step self actions rs2 = Ok out2 ∧
    r_rewards out2 = r_rewards out1 ∧ r_dones out2 = r_dones out1 ∧
    info_ground_respawns out2 = info_ground_respawns out1 ∧
    index <$> info_air_respawns out2 = index <$> info_air_respawns out1 ∧
    ∀ q d, inside (shape (air self)) q → getitem (l_air st) q = Some d →
      getitem (air (grids out1)) q = Some d ∧
      getitem (air (grids out2)) q = Some d.
Proof.
  intros Hwf Hnav Hstep.
  destruct (step_generator_independent self actions rs1 rs2 Hwf) as [Hok Heq].
  destruct (proj1 Hok) as [out2 H2]; [eauto|].
  exists out2. split; [done|].
  destruct (Heq _ _ Hstep H2) as (-> & -> & -> & ->).
  split_and!; try done.
  intros q d Hq Hd. split.
  - by destruct (step_survivor _ _ _ _ _ q d Hwf Hnav Hstep Hq Hd).
  - by destruct (step_survivor _ _ _ _ _ q d Hwf Hnav H2 Hq Hd).
Qed.

Lemma C8_witness :
  ∃ out2, step world_a actions_a [3; 1] = Ok out2 ∧
    r_rewards out2 = r_rewards (returned (step world_a actions_a [0; 0])) ∧
    r_dones out2 = r_dones (returned (step world_a actions_a [0; 0])) ∧
    info_ground_respawns out2
      = info_ground_respawns (returned (step world_a actions_a [0; 0])) ∧
    index <$> info_air_respawns out2
      = index <$> info_air_respawns (returned (step world_a actions_a [0; 0])) ∧
    ∀ q d, inside (shape (air world_a)) q →
      getitem (l_air (navigated (navigate world_a actions_a))) q = Some d →
      getitem (air (grids (returned (step world_a actions_a [0; 0])))) q = Some d ∧
      getitem (air (grids out2)) q = Some d.
Proof.
  apply (C8_determinism world_a actions_a (navigated (navigate world_a actions_a))
           [0; 0] [3; 1]).
  - exact world_a_wf.
  - by vm_compute.
  - by vm_compute.
Defined.

(** C8, refuted as stated. Two runs of [step] on the same state and the
    same actions, the only inputs [step] has: with the global generator in
    two different states they return different grids. *)
Lemma C8_counterexample :
  step world_a actions_a [0; 0] = Ok (returned (step world_a actions_a [0; 0])) ∧
  step world_a actions_a [3; 1] = Ok (returned (step world_a actions_a [3; 1])) ∧
  grids (returned (step world_a actions_a [0; 0]))
    ≠ grids (returned (step world_a actions_a [3; 1])).
Proof.
  split; [by vm_compute|]. split; [by vm_compute|].
  vm_compute. intros [=].
Qed.

(** * Further properties of [env.py] *)

(** ** Facts about the concrete worlds *)

Lemma world_a_distinct : distinct_indices world_a.
Proof. apply (bool_decide_unpack _). by vm_compute. Qed.

Lemma world_e_legal : legal_world 1 world_e.
Proof.
  split; [by vm_compute|]. split; [by vm_compute|]. split; [simpl; lia|].
  vm_compute. apply perm_swap.
Qed.

Lemma actions_b_valid : valid_actions actions_b.
Proof.
  intros i v. unfold actions_b. intros [_ <-]%lookup_singleton_Some. lia.
Qed.

(** ** [Grid.get_objects] *)

Lemma and_iff_under (P Q R : Prop) : (P → (Q ↔ R)) → (P ∧ Q ↔ P ∧ R).
Proof. tauto. Qed.

Lemma mask_zip_spec {A} (cells : list (option A)) (mask : list bool) (k : nat) :
  length mask = length cells →
  (∀ c i, (c, i) ∈ zip (filter (λ cm, cm.2 = true) (zip cells mask)).*1
                       (flatnonzero_mask k mask) ↔
          ∃ j, i = k + j ∧ cells !! j = Some c ∧ mask !! j = Some true) ∧
  StronglySorted (λ e1 e2 : option A * nat, e1.2 < e2.2)
    (zip (filter (λ cm, cm.2 = true) (zip cells mask)).*1 (flatnonzero_mask k mask)).
Proof.
  revert mask k. induction cells as [|c0 cells IH]; intros [|b mask] k Hlen; try done.
  { split; [|constructor]. intros c i. split; [by intros ?%elem_of_nil|].
    by intros (j & _ & ? & _). }
  injection Hlen as Hlen. destruct (IH mask (S k) Hlen) as [Hin Hsorted].
  change (zip (c0 :: cells) (b :: mask)) with ((c0, b) :: zip cells mask).
  destruct b.
  - change (flatnonzero_mask k (true :: mask)) with (k :: flatnonzero_mask (S k) mask).
    rewrite filter_cons_True, fmap_cons by done.
    cbn [zip_with fst]. split.
    + intros c i. rewrite elem_of_cons, Hin. split.
      * intros [[= -> ->]|(j & -> & Hc & Hm)]; [exists 0|exists (S j)]; split; try done; lia.
      * intros ([|j] & -> & Hc & Hm); simpl in *.
        -- left. injection Hc as ->. f_equal. lia.
        -- right. exists j. split; [lia|done].
    + constructor; [done|]. apply Forall_forall. intros [c i] (j & -> & _)%Hin. simpl. lia.
  - change (flatnonzero_mask k (false :: mask)) with (flatnonzero_mask (S k) mask).
    rewrite filter_cons_False by done. split; [|done].
    intros c i. rewrite Hin. split.
    + intros (j & -> & Hc & Hm). exists (S j). split; [lia|done].
    + intros ([|j] & -> & Hc & Hm); simpl in *; [done|].
      exists j. split; [lia|done].
Qed.

Lemma position_mask_lookup {A} (g : Grid A) (positions : list Position) (i : nat) :
  position_mask g positions !! i = Some true ↔
  i < (shape g).1 * (shape g).2 ∧
  ∃ p, p ∈ positions ∧ inside (shape g) p ∧ ravel_index (shape g) p = i.
Proof.
  unfold position_mask.
  assert (∀ (l : list Position) (m : list bool),
    length m = (shape g).1 * (shape g).2 →
    foldl (λ mask p, <[ravel_index (shape g) p := true]> mask) m l !! i = Some true ↔
    i < (shape g).1 * (shape g).2 ∧
    (m !! i = Some true ∨ ∃ p, p ∈ l ∧ ravel_index (shape g) p = i)) as Hfold.
  { induction l as [|p l IH]; intros m Hm; simpl.
    - split.
      + intros Hi. split; [|by left]. rewrite <- Hm. by eapply lookup_lt_Some.
      + intros [_ [?|(p & ?%elem_of_nil & _)]]; done.
    - rewrite IH by (by rewrite length_insert). apply and_iff_under. intros Hi.
      destruct (decide (ravel_index (shape g) p = i)) as [<-|Hne].
      + rewrite list_lookup_insert_eq by lia. split; [|by left].
        intros _. right. exists p. split; [left|done].
      + rewrite list_lookup_insert_ne by done. split.
        * intros [?|(q & Hq & Hr)]; [by left|]. right. exists q. split; [by right|done].
        * intros [?|(q & [->|Hq]%elem_of_cons & Hr)]; [by left|done|].
          right. by exists q. }
  rewrite Hfold by apply length_replicate. apply and_iff_under. intros Hi.
  split.
  - intros [Hrep|(p & Hp & Hr)].
    + apply lookup_replicate in Hrep as [? _]. done.
    + apply list_elem_of_filter in Hp as [Hin%is_inside_spec Hp]. by exists p.
  - intros (p & Hp & Hin & Hr). right. exists p. split; [|done].
    apply list_elem_of_filter. split; [by apply is_inside_spec|done].
Qed.

Lemma length_position_mask {A} (g : Grid A) (positions : list Position) :
  length (position_mask g positions) = (shape g).1 * (shape g).2.
Proof.
  unfold position_mask.
  assert (∀ (l : list Position) (m : list bool),
    length (foldl (λ mask p, <[ravel_index (shape g) p := true]> mask) m l) = length m) as Hl.
  { induction l as [|p l IH]; intros m; simpl; [done|]. by rewrite IH, length_insert. }
  by rewrite Hl, length_replicate.
Qed.

Lemma objects_mask_Ok {A} (object_type : A → bool) positions (g : Grid A) :
  Grid_wf g → grid g ≠ [] →
  ∃ mask, objects_mask object_type positions g = Ok mask ∧
    length mask = length (grid g) ∧
    ∀ i, mask !! i = Some true ↔
         ∃ a, grid g !! i = Some (Some a) ∧ object_type a = true ∧
              ∀ ps, positions = Some ps →
                    ∃ p, p ∈ ps ∧ inside (shape g) p ∧ ravel_index (shape g) p = i.
Proof.
  intros Hwf Hne. unfold objects_mask. rewrite decide_False by done.
  assert (∀ i, (isinstance object_type <$> grid g) !! i = Some true ↔
               ∃ a, grid g !! i = Some (Some a) ∧ object_type a = true) as Hobj.
  { intros i. rewrite list_lookup_fmap. destruct (grid g !! i) as [[a|]|]; simpl.
    - split; [intros [= ?]; by exists a|]. by intros (? & [= <-] & ->).
    - split; [done|]. by intros (? & ? & _).
    - split; [done|]. by intros (? & ? & _). }
  destruct positions as [ps|].
  - eexists. split; [done|]. split.
    { rewrite length_zip_with, length_fmap, length_position_mask, Hwf. lia. }
    intros i. rewrite lookup_zip_with_Some. split.
    + intros (x & y & Hxy & Hx & Hy). symmetry in Hxy.
      apply andb_true_iff in Hxy as [-> ->].
      apply Hobj in Hx as (a & Ha & Ht). exists a. split; [done|]. split; [done|].
      intros ? [= <-]. by apply position_mask_lookup in Hy as [_ ?].
    + intros (a & Ha & Ht & Hps). exists true, true. split; [done|]. split.
      * apply Hobj. by exists a.
      * apply position_mask_lookup. split; [|by apply Hps].
        rewrite <- Hwf. by eapply lookup_lt_Some.
  - eexists. split; [done|]. split; [by rewrite length_fmap|].
    intros i. rewrite Hobj. split.
    + intros (a & ? & ?). by exists a.
    + intros (a & ? & ? & _). by exists a.
Qed.

Lemma length_getitem_mask {A} (cells : list (option A)) (mask : list bool) (k : nat) :
  length mask = length cells →
  length (filter (λ cm, cm.2 = true) (zip cells mask)).*1 = length (flatnonzero_mask k mask).
Proof.
  revert mask k. induction cells as [|c0 cells IH]; intros [|b mask] k Hlen; try done.
  injection Hlen as Hlen.
  change (zip (c0 :: cells) (b :: mask)) with ((c0, b) :: zip cells mask).
  destruct b.
  - rewrite filter_cons_True, fmap_cons by done. simpl. by rewrite (IH mask (S k)).
  - rewrite filter_cons_False by done. simpl. by rewrite (IH mask (S k)).
Qed.

Lemma StronglySorted_Forall {A} (R : relation A) (P : A → Prop) (l : list A) :
  StronglySorted R l → Forall P l → StronglySorted (λ x y, R x y ∧ P x ∧ P y) l.
Proof.
  induction 1 as [|x l Hs IH Hx]; intros Hall; [constructor|].
  apply Forall_cons in Hall as [Hpx Hall]. constructor; [by apply IH|].
  apply Forall_forall. intros y Hy. split; [|split; [done|]].
  - by eapply Forall_forall in Hx.
  - by eapply Forall_forall in Hall.
Qed.

Lemma get_objects_zipped_Ok {A} (object_type : A → bool) positions (g : Grid A) l :
  get_objects_zipped object_type positions g = Ok l ↔
  ∃ mask, objects_mask object_type positions g = Ok mask ∧
          l = zip (getitem_mask g mask) (unravel_index (shape g) <$> flatnonzero_mask 0 mask).
Proof.
  unfold get_objects_zipped. rewrite bind_Ok. unfold nonzero. simpl.
  setoid_rewrite zip_fst_snd. split.
  - intros (mask & ? & [= <-]). by exists mask.
  - intros (mask & ? & ->). by exists mask.
Qed.

Lemma zip_fmap_r_pair {A B C} (f : B → C) (l : list A) (k : list B) :
  zip l (f <$> k) = prod_map id f <$> zip l k.
Proof. revert k. induction l as [|a l IH]; intros [|b k]; csimpl; by rewrite ?IH. Qed.

Lemma get_objects_spec {A} (object_type : A → bool)
    (positions : option (list Position)) (g : Grid A) :
  Grid_wf g → grid g ≠ [] →
  ∃ l, get_objects_zipped object_type positions g = Ok l ∧
       get_objects_arrays object_type positions g = Ok (l.*1, (l.*2.*1, l.*2.*2)) ∧
       (∀ c p, (c, p) ∈ l ↔
          ∃ a, c = Some a ∧ inside (shape g) p ∧ getitem g p = Some a ∧
               object_type a = true ∧ ∀ ps, positions = Some ps → p ∈ ps) ∧
       StronglySorted
         (λ e1 e2, ravel_index (shape g) e1.2 < ravel_index (shape g) e2.2) l.
Proof.
  intros Hwf Hne.
  destruct (objects_mask_Ok object_type positions g Hwf Hne) as (mask & Hmask & Hlen & Hm).
  destruct (mask_zip_spec (grid g) mask 0 Hlen) as [Hin Hsorted].
  set (L0 := zip (filter (λ cm, cm.2 = true) (zip (grid g) mask)).*1 (flatnonzero_mask 0 mask))
    in *.
  assert (∀ c i, (c, i) ∈ L0 ↔ grid g !! i = Some c ∧ mask !! i = Some true) as Hin0.
  { intros c i. rewrite Hin. split; [by intros (j & -> & ?)|]. intros ?. by exists i. }
  assert (∀ c i, (c, i) ∈ L0 → i < (shape g).1 * (shape g).2) as Hlt.
  { intros c i [Hc _]%Hin0. rewrite <- Hwf. by eapply lookup_lt_Some. }
  exists (prod_map id (unravel_index (shape g)) <$> L0).
  split; [apply get_objects_zipped_Ok; exists mask; by rewrite zip_fmap_r_pair|].
  split; [|split].
  - unfold get_objects_arrays. rewrite Hmask. simpl. unfold nonzero, getitem_mask.
    pose proof (length_getitem_mask (grid g) mask 0 Hlen) as Hl.
    rewrite length_fmap in Hl.
    unfold L0. rewrite <- zip_fmap_r_pair, fst_zip, snd_zip; [done|..];
      rewrite !length_fmap; lia.
  - intros c p. rewrite list_elem_of_fmap. split.
    + intros ([c' i] & [= -> ->] & Hci). pose proof (Hlt _ _ Hci) as Hi.
      apply Hin0 in Hci as [Hc Hmi]. apply Hm in Hmi as (a & Ha & Ht & Hps).
      rewrite Hc in Ha. injection Ha as ->. exists a. split; [done|].
      split; [by apply unravel_index_inside|]. split.
      { apply getitem_Some_lookup. by rewrite ravel_unravel_index. }
      split; [done|]. intros ps Hpos. destruct (Hps ps Hpos) as (p' & Hp' & Hins & <-).
      by rewrite unravel_ravel_index.
    + intros (a & -> & Hins & Ha%getitem_Some_lookup & Ht & Hps).
      exists (Some a, ravel_index (shape g) p). split.
      { simpl. unfold prod_map; simpl. by rewrite unravel_ravel_index. }
      apply Hin0. split; [done|]. apply Hm. exists a. split; [done|]. split; [done|].
      intros ps Hpos. exists p. split; [by apply Hps|done].
  - apply (StronglySorted_fmap _
             (λ e1 e2 : option A * nat,
                e1.2 < e2.2 ∧ e1.2 < (shape g).1 * (shape g).2
                ∧ e2.2 < (shape g).1 * (shape g).2)).
    + intros [c1 i1] [c2 i2] (Hlt12 & H1 & H2). simpl in *.
      by rewrite !ravel_unravel_index.
    + apply StronglySorted_Forall; [done|]. apply Forall_forall. intros [c i] Hci.
      simpl. by eapply Hlt.
Qed.

(** X1. For positions whose coordinates fit [int64] (the others make
    [is_inside] fail), [get_objects(object_type, positions,
    zip_results=True)] yields the objects of the type that sit on one of the
    given positions (on any cell if no positions are given), each once and in
    row-major order, whatever the order and the repetitions of [positions];
    positions outside the grid are ignored. Without [zip_results] it returns
    the same objects and positions as separate arrays. It raises ValueError
    on a grid without cells. *)
Theorem X1_get_objects_selects {A} (object_type : A → bool)
    (positions : option (list Position)) (g : Grid A) :
  Grid_wf g →
  (∀ ps, positions = Some ps → Forall int64_position ps) →
  (grid g = [] → get_objects_zipped object_type positions g = Raise ValueError ∧
                 get_objects_arrays object_type positions g = Raise ValueError) ∧
  (grid g ≠ [] →
   ∃ l, get_objects_zipped object_type positions g = Ok l ∧
        get_objects_arrays object_type positions g = Ok (l.*1, (l.*2.*1, l.*2.*2)) ∧
        (∀ c p, (c, p) ∈ l ↔
           ∃ a, c = Some a ∧ inside (shape g) p ∧ getitem g p = Some a ∧
                object_type a = true ∧ ∀ ps, positions = Some ps → p ∈ ps) ∧
        StronglySorted
          (λ e1 e2, ravel_index (shape g) e1.2 < ravel_index (shape g) e2.2) l).
Proof.
  intros Hwf _. split.
  - intros Hnil. unfold get_objects_zipped, get_objects_arrays, objects_mask.
    by rewrite decide_True by done.
  - by apply get_objects_spec.
Qed.

Lemma X1_witness :
  (grid (ground world_a) = [] →
   get_objects_zipped is_packet (Some [(1, 2); (7, 7); (1, 2)]%Z) (ground world_a)
     = Raise ValueError ∧
   get_objects_arrays is_packet (Some [(1, 2); (7, 7); (1, 2)]%Z) (ground world_a)
     = Raise ValueError) ∧
  (grid (ground world_a) ≠ [] →
   ∃ l, get_objects_zipped is_packet (Some [(1, 2); (7, 7); (1, 2)]%Z) (ground world_a)
          = Ok l ∧
        get_objects_arrays is_packet (Some [(1, 2); (7, 7); (1, 2)]%Z) (ground world_a)
          = Ok (l.*1, (l.*2.*1, l.*2.*2)) ∧
        (∀ c p, (c, p) ∈ l ↔
           ∃ a, c = Some a ∧ inside (shape (ground world_a)) p ∧
                getitem (ground world_a) p = Some a ∧ is_packet a = true ∧
                ∀ ps, Some [(1, 2); (7, 7); (1, 2)]%Z = Some ps → p ∈ ps) ∧
        StronglySorted
          (λ e1 e2, ravel_index (shape (ground world_a)) e1.2
                    < ravel_index (shape (ground world_a)) e2.2) l).
Proof.
  apply (X1_get_objects_selects is_packet (Some [(1, 2); (7, 7); (1, 2)]%Z)
           (ground world_a)).
  - by vm_compute.
  - intros ps [= <-]. unfold int64_position, int64.
    repeat apply Forall_cons_2; [simpl; lia..|apply Forall_nil_2].
Defined.

(** ** [DeliveryDrones.reset] *)

Section Grid_init.
Context {A : Type}.
Implicit Types sh : nat * nat.

Lemma shape_Grid_init sh : shape (Grid_init (A:=A) sh) = sh.
Proof. by destruct sh. Qed.

Lemma Grid_wf_Grid_init sh : Grid_wf (Grid_init (A:=A) sh).
Proof. destruct sh. unfold Grid_wf, Grid_init, empty_grid; simpl. apply length_replicate. Qed.

Lemma getitem_Grid_init sh p : getitem (Grid_init (A:=A) sh) p = None.
Proof.
  unfold getitem, Grid_init, empty_grid; simpl.
  destruct (replicate _ _ !! _) as [c|] eqn:Hc; [|done].
  by apply lookup_replicate in Hc as [-> _].
Qed.

Lemma objects_Grid_init sh : objects (Grid_init (A:=A) sh) = [].
Proof.
  apply objects_empty; [apply Grid_wf_Grid_init|]. intros q _. apply getitem_Grid_init.
Qed.

Lemma length_grid_Grid_init sh : length (grid (Grid_init (A:=A) sh)) = sh.1 * sh.2.
Proof. rewrite (Grid_wf_Grid_init sh). by rewrite shape_Grid_init. Qed.

Lemma length_empty_cells_Grid_init sh :
  length (empty_cells (Grid_init (A:=A) sh)) = sh.1 * sh.2.
Proof.
  pose proof (length_empty_cells (Grid_init (A:=A) sh)) as H.
  rewrite objects_Grid_init, length_grid_Grid_init in H. simpl in H. lia.
Qed.
End Grid_init.

Lemma spawn_Raise {A} (g : Grid A) objs rs e :
  spawn g objs rs = Raise e → e = ValueError ∧ length (empty_cells g) < length objs.
Proof.
  unfold spawn, random_choice. case_decide as Hk; simpl.
  - by destruct (sample _ _ _).
  - intros [= <-]. split; [done|lia].
Qed.

Lemma length_range1 n : length (range1 n) = n.
Proof. unfold range1. by rewrite length_fmap, length_seq. Qed.

Lemma elem_of_range1 n i : i ∈ range1 n ↔ (1 ≤ i ≤ Z.of_nat n)%Z.
Proof.
  unfold range1. rewrite list_elem_of_fmap. setoid_rewrite elem_of_seq. split.
  - intros (k & -> & Hk). lia.
  - intros Hi. exists (Z.to_nat i). lia.
Qed.

Lemma NoDup_range1 n : NoDup (range1 n).
Proof. apply NoDup_fmap_2; [apply _|apply NoDup_seq]. Qed.

Lemma length_new_packets n : length (new_packets n) = n.
Proof. unfold new_packets. by rewrite length_fmap, length_range1. Qed.

Lemma length_new_dropzones n : length (new_dropzones n) = n.
Proof. unfold new_dropzones. by rewrite length_fmap, length_range1. Qed.

Lemma length_new_drones n : length (new_drones n) = n.
Proof. unfold new_drones. by rewrite length_fmap, length_range1. Qed.

Lemma index_new_drones n : index <$> new_drones n = range1 n.
Proof. unfold new_drones. rewrite <- list_fmap_compose. apply list_fmap_id. Qed.

Lemma cargo_new_drones n : cargo (new_drones n) = [].
Proof. unfold new_drones. by induction (range1 n) as [|i l IH]. Qed.

Lemma filter_eq_NoDup (l : list Z) (i : Z) :
  NoDup l → i ∈ l → length (filter (λ j, j = i) l) = 1.
Proof.
  induction l as [|j l IH]; intros Hnd Hi; [by apply elem_of_nil in Hi|].
  apply NoDup_cons in Hnd as [Hj Hnd].
  destruct (decide (j = i)) as [->|Hne].
  - rewrite filter_cons_True by done. simpl. f_equal.
    destruct (filter (λ j, j = i) l) as [|x t] eqn:Hf; [done|].
    assert (x ∈ filter (λ j, j = i) l) as [-> Hx]%list_elem_of_filter
      by (rewrite Hf; left).
    done.
  - rewrite filter_cons_False by done. apply IH; [done|].
    apply elem_of_cons in Hi as [->|Hi]; done.
Qed.

Lemma air_legal_range1 n self :
  index <$> objects (air self) ≡ₚ range1 n → air_legal n self.
Proof.
  intros Hperm. split.
  - intros i Hi. unfold occupies_one_cell. rewrite filter_index_fmap, Hperm.
    apply filter_eq_NoDup; [apply NoDup_range1|by apply elem_of_range1].
  - intros d Hd. apply elem_of_range1. rewrite <- Hperm. by apply list_elem_of_fmap_2.
Qed.

Lemma reset_Ok n sh rs env rs' :
  reset n sh rs = Ok (env, rs') ↔
  ∃ ground1 gpos rs1 ground2 zpos rs2 air1 positions,
    spawn (Grid_init sh) (new_packets n) rs = Ok (ground1, gpos, rs1) ∧
    spawn ground1 (new_dropzones n) rs1 = Ok (ground2, zpos, rs2) ∧
    spawn (Grid_init sh) (new_drones n) rs2 = Ok (air1, positions, rs') ∧
    _pick_packets_after_respawn air1 ground2 positions = Ok (air env, ground env).
Proof.
  unfold reset. split.
  - intros H.
    apply bind_Ok in H as ([[ground1 gpos] rs1] & H1 & H). simpl in H.
    apply bind_Ok in H as ([[ground2 zpos] rs2] & H2 & H). simpl in H.
    apply bind_Ok in H as ([[air1 positions] rs3] & H3 & H). simpl in H.
    apply bind_Ok in H as ([air2 ground3] & H4 & H). simpl in H.
    injection H as <- <-. simpl. by exists ground1, gpos, rs1, ground2, zpos, rs2, air1, positions.
  - intros (ground1 & gpos & rs1 & ground2 & zpos & rs2 & air1 & positions
            & -> & H2 & H3 & H4). simpl.
    rewrite H2. simpl. rewrite H3. simpl. rewrite H4. simpl. by destruct env.
Qed.

(** What the three calls of [spawn] in [reset] leave behind. *)
Lemma reset_spawns n sh rs ground1 gpos rs1 ground2 zpos rs2 air1 positions rs3 :
  spawn (Grid_init sh) (new_packets n) rs = Ok (ground1, gpos, rs1) →
  spawn ground1 (new_dropzones n) rs1 = Ok (ground2, zpos, rs2) →
  spawn (Grid_init sh) (new_drones n) rs2 = Ok (air1, positions, rs3) →
  shape ground2 = sh ∧ Grid_wf ground2 ∧ shape air1 = sh ∧ Grid_wf air1 ∧
  objects ground2 ≡ₚ new_packets n ++ new_dropzones n ∧
  objects air1 ≡ₚ new_drones n ∧
  Forall (inside sh) positions ∧ NoDup positions ∧
  (∀ p, p ∈ positions → ∃ d, getitem air1 p = Some d) ∧
  (∀ p d, inside sh p → getitem air1 p = Some d → p ∈ positions ∧ packet d = None).
Proof.
  intros H1 H2 H3.
  destruct (spawn_spec _ _ _ _ _ _ (Grid_wf_Grid_init sh) H1)
    as (Hs1 & Hw1 & _ & _ & _ & _ & _ & Ho1).
  destruct (spawn_spec _ _ _ _ _ _ Hw1 H2) as (Hs2 & Hw2 & _ & _ & _ & _ & _ & Ho2).
  destruct (spawn_spec _ _ _ _ _ _ (Grid_wf_Grid_init sh) H3)
    as (Hs3 & Hw3 & Hlen & Hnd & Hall & Hat & Hfr & Ho3).
  rewrite shape_Grid_init in Hs1. rewrite shape_Grid_init in Hs3, Hall, Hfr.
  rewrite objects_Grid_init, app_nil_r in Ho1. rewrite objects_Grid_init, app_nil_r in Ho3.
  split; [congruence|]. split; [done|]. split; [done|]. split; [done|].
  split. { rewrite Ho2, Ho1. apply Permutation_app_comm. }
  split; [done|].
  split. { eapply Forall_impl; [exact Hall|]. by intros ? [? _]. }
  split; [done|].
  assert (∀ p, p ∈ positions → ∃ d, d ∈ new_drones n ∧ getitem air1 p = Some d) as Hdr.
  { intros p (i & Hi)%list_elem_of_lookup.
    destruct (lookup_lt_is_Some_2 (new_drones n) i) as [d Hd].
    { rewrite <- Hlen. by eapply lookup_lt_Some. }
    exists d. split; [by eapply list_elem_of_lookup_2|]. by eapply Hat. }
  split.
  { intros p (d & _ & ?)%Hdr. by exists d. }
  intros p d Hp Hd. destruct (decide (p ∈ positions)) as [Hin|Hni].
  - split; [done|]. destruct (Hdr p Hin) as (d' & Hd' & Hget).
    rewrite Hd in Hget. injection Hget as <-.
    unfold new_drones in Hd'. by apply list_elem_of_fmap in Hd' as (? & -> & _).
  - rewrite Hfr, getitem_Grid_init in Hd by done. done.
Qed.

Lemma filter_is_dropzone_cargo (l : list Drone) :
  filter (λ t, is_dropzone t = true) (cargo l) = [].
Proof.
  induction l as [|d l IH]; [done|]. rewrite cargo_cons, filter_app, IH, app_nil_r.
  by destruct d as [i [pk|]].
Qed.

Lemma filter_is_dropzone_new n :
  filter (λ t, is_dropzone t = true) (new_packets n ++ new_dropzones n) = new_dropzones n.
Proof.
  unfold new_packets, new_dropzones. rewrite filter_app.
  assert (∀ l : list Z, filter (λ t, is_dropzone t = true)
                          ((λ index, TPacket (mkPacket index)) <$> l) = []) as ->.
  { induction l as [|i l IH]; [done|]. rewrite fmap_cons. by rewrite filter_cons_False. }
  assert (∀ l : list Z, filter (λ t, is_dropzone t = true)
                          ((λ index, TDropzone (mkDropzone index)) <$> l)
                        = (λ index, TDropzone (mkDropzone index)) <$> l) as ->; [|done].
  induction l as [|i l IH]; [done|]. rewrite fmap_cons.
  rewrite filter_cons_True by done. by rewrite IH.
Qed.

(** The dropzones of a world whose tiles are those of [reset]. *)
Lemma census_dropzones n self :
  objects (ground self) ++ cargo (objects (air self))
    ≡ₚ new_packets n ++ new_dropzones n →
  filter (λ t, is_dropzone t = true) (objects (ground self)) ≡ₚ new_dropzones n.
Proof.
  intros Hcensus. rewrite <- (filter_is_dropzone_new n), <- Hcensus.
  by rewrite filter_app, filter_is_dropzone_cargo, app_nil_r.
Qed.

Lemma reset_room n sh rs r : reset n sh rs = Ok r → 2 * n ≤ sh.1 * sh.2.
Proof.
  destruct r as [env rs']. intros (ground1 & gpos & rs1 & ground2 & zpos & rs2 & air1
                                   & positions & H1 & H2 & H3 & H4)%reset_Ok.
  destruct (spawn_spec _ _ _ _ _ _ (Grid_wf_Grid_init sh) H1)
    as (Hs1 & Hw1 & _ & _ & _ & _ & _ & Ho1).
  pose proof (length_empty_cells ground1) as Hcells.
  rewrite Ho1, objects_Grid_init, app_nil_r, length_new_packets in Hcells.
  rewrite Hw1, Hs1, shape_Grid_init in Hcells.
  assert (length (new_dropzones n) ≤ length (empty_cells ground1)) as Hle.
  { apply (spawn_Ok _ _ rs1). eauto. }
  rewrite length_new_dropzones in Hle. lia.
Qed.

(** X2. [reset] returns if and only if the grid has two cells for each
    drone (a cell for each packet and each dropzone); otherwise the
    exception it raises is the ValueError of [np.random.choice]. *)
Theorem X2_reset_returns (n_drones : nat) (shape : nat * nat) (rs : RandomState) :
  ((∃ r, reset n_drones shape rs = Ok r) ↔ 2 * n_drones ≤ shape.1 * shape.2) ∧
  (∀ e, reset n_drones shape rs = Raise e →
        e = ValueError ∧ shape.1 * shape.2 < 2 * n_drones).
Proof.
  assert (∀ ground1 gpos rs1,
            spawn (Grid_init shape) (new_packets n_drones) rs = Ok (ground1, gpos, rs1) →
            length (empty_cells ground1) + n_drones = shape.1 * shape.2 ∧
            n_drones ≤ shape.1 * shape.2) as Hroom.
  { intros ground1 gpos rs1 H1.
    assert (n_drones ≤ shape.1 * shape.2) as Hle.
    { rewrite <- (length_empty_cells_Grid_init (A:=Tile)), <- (length_new_packets n_drones).
      apply (spawn_Ok _ _ rs). eauto. }
    split; [|done].
    destruct (spawn_spec _ _ _ _ _ _ (Grid_wf_Grid_init shape) H1)
      as (Hs1 & Hw1 & _ & _ & _ & _ & _ & Ho1).
    pose proof (length_empty_cells ground1) as Hcells.
    rewrite Ho1, objects_Grid_init, app_nil_r, length_new_packets in Hcells.
    rewrite Hw1, Hs1, shape_Grid_init in Hcells. done. }
  assert (∀ ground1 gpos rs1 ground2 zpos rs2 air1 positions rs3,
            spawn (Grid_init shape) (new_packets n_drones) rs = Ok (ground1, gpos, rs1) →
            spawn ground1 (new_dropzones n_drones) rs1 = Ok (ground2, zpos, rs2) →
            spawn (Grid_init shape) (new_drones n_drones) rs2 = Ok (air1, positions, rs3) →
            ∃ ag, _pick_packets_after_respawn air1 ground2 positions = Ok ag) as Hpick.
  { intros ground1 gpos rs1 ground2 zpos rs2 air1 positions rs3 H1 H2 H3.
    destruct (reset_spawns _ _ _ _ _ _ _ _ _ _ _ _ H1 H2 H3)
      as (Hs2 & _ & Hs3 & _ & _ & _ & Hins & Hnd & Hdr & _).
    by apply (pick_packets_total shape). }
  split; [split|].
  - intros [r Hr]. by eapply reset_room.
  - intros Hle.
    destruct (proj2 (spawn_Ok (Grid_init shape) (new_packets n_drones) rs))
      as [[[ground1 gpos] rs1] H1].
    { rewrite length_empty_cells_Grid_init, length_new_packets. lia. }
    destruct (Hroom _ _ _ H1) as [Hcells _].
    destruct (proj2 (spawn_Ok ground1 (new_dropzones n_drones) rs1))
      as [[[ground2 zpos] rs2] H2].
    { rewrite length_new_dropzones. lia. }
    destruct (proj2 (spawn_Ok (Grid_init shape) (new_drones n_drones) rs2))
      as [[[air1 positions] rs3] H3].
    { rewrite length_empty_cells_Grid_init, length_new_drones. lia. }
    destruct (Hpick _ _ _ _ _ _ _ _ _ H1 H2 H3) as [[air2 ground3] H4].
    exists (mkEnv air2 ground3, rs3). apply reset_Ok. simpl.
    by exists ground1, gpos, rs1, ground2, zpos, rs2, air1, positions.
  - intros e. unfold reset.
    destruct (spawn (Grid_init shape) (new_packets n_drones) rs)
      as [[[ground1 gpos] rs1]|e1] eqn:H1; simpl.
    2: { intros [= <-]. apply spawn_Raise in H1 as [-> H1].
         rewrite length_empty_cells_Grid_init, length_new_packets in H1.
         split; [done|lia]. }
    destruct (Hroom _ _ _ eq_refl) as [Hcells Hle].
    destruct (spawn ground1 (new_dropzones n_drones) rs1)
      as [[[ground2 zpos] rs2]|e2] eqn:H2; simpl.
    2: { intros [= <-]. apply spawn_Raise in H2 as [-> H2].
         rewrite length_new_dropzones in H2. split; [done|lia]. }
    destruct (spawn (Grid_init shape) (new_drones n_drones) rs2)
      as [[[air1 positions] rs3]|e3] eqn:H3; simpl.
    2: { intros [= <-]. apply spawn_Raise in H3 as [-> H3].
         rewrite length_empty_cells_Grid_init, length_new_drones in H3. lia. }
    destruct (Hpick _ _ _ _ _ _ _ _ _ eq_refl H2 H3) as [[air2 ground3] ->]. done.
Qed.

Lemma X2_witness : ∃ r, reset 1 (2, 2) [0; 1; 2] = Ok r.
Proof.
  apply (proj1 (X2_reset_returns 1 (2, 2) [0; 1; 2])). simpl. lia.
Defined.

(** X3. The world that [reset] returns is a legal world of [n_drones] drones
    of the shape asked for: each of the drones 1..n is in exactly one cell,
    each of the dropzones 1..n is on the ground, and each of the packets 1..n
    is on the ground or carried by a drone; no drone is left hovering over a
    packet (a drone spawned on a packet has picked it up). *)
Theorem X3_reset_world (n_drones : nat) (sh : nat * nat) (rs : RandomState) env rs' :
  reset n_drones sh rs = Ok (env, rs') →
  legal_world n_drones env ∧ shape (air env) = sh ∧ air_legal n_drones env ∧
  filter (λ t, is_dropzone t = true) (objects (ground env)) ≡ₚ new_dropzones n_drones ∧
  ∀ d p pk, drone_at env d p → getitem (ground env) p ≠ Some (TPacket pk).
Proof.
  intros Hreset.
  assert (2 * n_drones ≤ sh.1 * sh.2) as Hroom.
  { by eapply reset_room. }
  apply reset_Ok in Hreset
    as (ground1 & gpos & rs1 & ground2 & zpos & rs2 & air1 & positions & H1 & H2 & H3 & H4).
  destruct (reset_spawns _ _ _ _ _ _ _ _ _ _ _ _ H1 H2 H3)
    as (Hs2 & Hw2 & Hs3 & Hw3 & Ho2 & Ho3 & Hins & Hnd & Hdr & Hall).
  destruct (pick_packets_frame sh positions _ _ _ _ (0, 0)%Z H4 Hs3 Hs2 Hins)
    as (Hsa & Hsg & Hwa & Hwg & _).
  destruct (pick_packets_census sh positions _ _ _ _ H4 Hs3 Hs2 Hw3 Hw2 Hins Hnd)
    as [Hidx Htiles].
  { intros p d Hp Hd. apply (Hall p d); [|done]. by eapply Forall_forall in Hins. }
  assert (objects (ground env) ++ cargo (objects (air env))
            ≡ₚ new_packets n_drones ++ new_dropzones n_drones) as Hcensus.
  { rewrite Htiles, Ho3, cargo_new_drones, app_nil_r. done. }
  split; [|split; [done|split; [|split]]].
  - split; [|split; [|split]].
    + split; [by apply Hwa|]. split; [by apply Hwg|]. congruence.
    + by rewrite Hidx, Ho3, index_new_drones.
    + by rewrite Hsa.
    + done.
  - apply air_legal_range1. by rewrite Hidx, Ho3, index_new_drones.
  - by apply census_dropzones.
  - intros d p pk [Hp Hd] Hg. rewrite Hsa in Hp.
    destruct (decide (p ∈ positions)) as [Hin|Hni].
    + pose proof (pick_packets_at sh positions _ _ _ _ p H4 Hs3 Hs2 Hw3 Hw2 Hins Hnd Hin)
        as Hat.
      destruct (getitem ground2 p) as [[pk'|z]|] eqn:Hg2.
      * destruct Hat as (? & _ & _ & ?). congruence.
      * destruct Hat as [_ ?]. congruence.
      * destruct Hat as [_ ?]. congruence.
    + destruct (pick_packets_frame sh positions _ _ _ _ p H4 Hs3 Hs2 Hins)
        as (_ & _ & _ & _ & Hfr).
      destruct (Hfr Hp Hni) as [Hair _]. rewrite Hair in Hd.
      by destruct (Hall p d Hp Hd).
Qed.

Lemma X3_witness :
  legal_world 1 (reset_world (reset 1 (2, 2) [0; 1; 2])) ∧
  shape (air (reset_world (reset 1 (2, 2) [0; 1; 2]))) = (2, 2) ∧
  air_legal 1 (reset_world (reset 1 (2, 2) [0; 1; 2])) ∧
  filter (λ t, is_dropzone t = true)
    (objects (ground (reset_world (reset 1 (2, 2) [0; 1; 2])))) ≡ₚ new_dropzones 1 ∧
  ∀ d p pk, drone_at (reset_world (reset 1 (2, 2) [0; 1; 2])) d p →
            getitem (ground (reset_world (reset 1 (2, 2) [0; 1; 2]))) p
            ≠ Some (TPacket pk).
Proof.
  apply (X3_reset_world 1 (2, 2) [0; 1; 2] _ (reset_random (reset 1 (2, 2) [0; 1; 2]))).
  by vm_compute.
Defined.

(** ** [step] on the worlds of [reset] *)

Lemma valid_actions_get_action actions (d : Drone) :
  valid_actions actions → ∃ a, get_action actions d = Ok a.
Proof.
  intros Hv. unfold get_action. destruct (actions !! index d) as [v|] eqn:Hd; [|by exists STAY].
  specialize (Hv _ _ Hd). unfold Action_of_value.
  repeat case_decide; eauto. lia.
Qed.

Lemma legal_world_room n self :
  legal_world n self →
  length (objects (ground self)) + length (cargo (objects (air self)))
    ≤ length (grid (ground self)).
Proof.
  intros ((_ & Hwg & Hsh) & _ & Hroom & Hcensus).
  apply Permutation_length in Hcensus.
  rewrite !length_app, length_new_packets, length_new_dropzones in Hcensus.
  rewrite Hwg, Hsh. lia.
Qed.

(** X4. On a legal world of at least one drone, [step] returns for every
    dict of valid actions, whatever the generator yields, and the world it
    returns is again a legal world of as many drones: an episode started by
    [reset] can be stepped for ever. *)
Theorem X4_step_keeps_legal (n : nat) self actions rs :
  legal_world n self → 0 < n → valid_actions actions →
  ∃ out, step self actions rs = Ok out ∧ legal_world n (grids out).
Proof.
  intros Hlegal Hn Hvalid.
  pose proof (legal_world_room _ _ Hlegal) as Hroom.
  destruct Hlegal as (Hwf & Hair & Hcells & Hcensus).
  destruct (step_total self actions rs) as [out Hstep]; [done|..|done|].
  - destruct Hwf as (Hwa & _ & _). intros Hnil.
    unfold Grid_wf in Hwa. rewrite Hnil in Hwa. simpl in Hwa. lia.
  - apply Forall_forall. intros d _. by apply valid_actions_get_action.
  - exists out. split; [done|].
    destruct (step_census _ _ _ _ Hwf Hstep) as (Hwf' & Hsh & Hidx & Htiles).
    split; [done|]. split; [by rewrite Hidx|].
    split; [by rewrite Hsh|]. by rewrite Htiles.
Qed.

Lemma X4_witness :
  ∃ out, step world_e actions_b [4; 7] = Ok out ∧ legal_world 1 (grids out).
Proof.
  apply (X4_step_keeps_legal 1 world_e actions_b [4; 7]).
  - exact world_e_legal.
  - lia.
  - exact actions_b_valid.
Defined.

(** ** Rewards and dones *)

Lemma crash_all_lookup_case r ds i :
  crash_all r ds !! i = if decide (i ∈ index <$> ds) then Some crash_reward else r !! i.
Proof.
  case_decide; [by apply crash_all_lookup|by apply crash_all_lookup_ne].
Qed.

Lemma air_navigation_rewards_inv actions st dp st' :
  rewards_inv actions st → air_navigation actions st dp = Ok st' → rewards_inv actions st'.
Proof.
  destruct dp as [d p]. intros (Hrange & Hcrash & Hresp & Hact) (a & _ & ->)%air_navigation_Ok.
  case_decide; [done|]. unfold rewards_inv; simpl. split_and!.
  - intros i r. destruct (decide (i = index d)) as [->|Hne].
    + rewrite lookup_insert_eq. intros [= <-]. by left.
    + rewrite lookup_insert_ne by done. apply Hrange.
  - intros i. rewrite fmap_app, elem_of_app. destruct (decide (i = index d)) as [->|Hne].
    + intros _. right. simpl. left.
    + rewrite lookup_insert_ne by done. intros ?%Hcrash. by left.
  - intros i. rewrite fmap_app, elem_of_app. destruct (decide (i = index d)) as [->|Hne].
    + intros _. by rewrite lookup_insert_eq.
    + rewrite lookup_insert_ne by done. intros [?|Hi]; [by apply Hresp|].
      simpl in Hi. by apply list_elem_of_singleton in Hi.
  - intros i Hi. destruct (decide (i = index d)) as [->|Hne].
    + by rewrite lookup_insert_eq.
    + rewrite lookup_insert_ne by done. by apply Hact.
Qed.

Lemma further_air_navigation_rewards_inv actions st item st' :
  rewards_inv actions st → further_air_navigation st item = Ok st' →
  rewards_inv actions st'.
Proof.
  intros (Hrange & Hcrash & Hresp & Hact) H.
  assert (∀ (drone : Drone) (t : Locals),
            rewards t = <[index drone := delivery_reward]> (rewards st) →
            air_respawns t = air_respawns st → rewards_inv actions t) as Hdeliver.
  { intros drone t Hr Ha. unfold rewards_inv. rewrite Hr, Ha. split_and!.
    - intros i r. destruct (decide (i = index drone)) as [->|Hne].
      + rewrite lookup_insert_eq. intros [= <-]. by right; right.
      + rewrite lookup_insert_ne by done. apply Hrange.
    - intros i. destruct (decide (i = index drone)) as [->|Hne].
      + by rewrite lookup_insert_eq.
      + rewrite lookup_insert_ne by done. apply Hcrash.
    - intros i Hi. destruct (decide (i = index drone)) as [->|Hne].
      + by rewrite lookup_insert_eq.
      + rewrite lookup_insert_ne by done. by apply Hresp.
    - intros i Hi. destruct (decide (i = index drone)) as [->|Hne].
      + by rewrite lookup_insert_eq.
      + rewrite lookup_insert_ne by done. by apply Hact. }
  destruct item as [q ds]. inv_further H;
    try (by unfold rewards_inv); try (by eapply Hdeliver).
  unfold rewards_inv; simpl. rewrite fmap_app, index_drop_packet.
  setoid_rewrite crash_all_lookup_case. setoid_rewrite elem_of_app. split_and!.
  - intros i r. destruct (decide (i ∈ index <$> ds)); [|apply Hrange].
    intros [= <-]. by left.
  - intros i. destruct (decide (i ∈ index <$> ds)); [by right|]. intros ?%Hcrash. by left.
  - intros i Hi. destruct (decide (i ∈ index <$> ds)); [done|].
    destruct Hi as [?|?]; [by apply Hresp|done].
  - intros i Hi. destruct (decide (i ∈ index <$> ds)); [done|]. by apply Hact.
Qed.

Lemma navigate_rewards_inv self actions st :
  navigate self actions = Ok st → rewards_inv actions st.
Proof.
  intros (_ & st1 & H1 & H2)%navigate_Ok.
  eapply (foldM_invariant (rewards_inv actions)); [|clear H2|exact H2].
  { intros item t t' _. apply further_air_navigation_rewards_inv. }
  eapply (foldM_invariant (rewards_inv actions)); [| |exact H1].
  { intros dp t t' _. apply air_navigation_rewards_inv. }
  unfold rewards_inv; simpl. split_and!.
  - intros i r. rewrite lookup_fmap. destruct (actions !! i); [|done].
    intros [= <-]. by right; left.
  - intros i. rewrite lookup_fmap. by destruct (actions !! i).
  - by intros i ?%elem_of_nil.
  - intros i [v Hv]. by rewrite lookup_fmap, Hv.
Qed.

(** X5. When [step] returns (drones with distinct indices): every reward is
    -1, 0 or 1; a drone is done exactly when its reward is -1, which is
    exactly when it is one of [info['air_respawns']]; and every index that
    has a done has a reward, among them every index named in [actions]. *)
Theorem X5_done_iff_crashed self actions rs out :
  Env_wf self → distinct_indices self → step self actions rs = Ok out →
  (∀ i r, r_rewards out !! i = Some r → r = (-1)%Z ∨ r = 0%Z ∨ r = 1%Z) ∧
  (∀ i, r_dones out !! i = Some true ↔ r_rewards out !! i = Some (-1)%Z) ∧
  (∀ i, r_dones out !! i = Some true ↔ i ∈ index <$> info_air_respawns out) ∧
  (∀ i, is_Some (r_dones out !! i) → is_Some (r_rewards out !! i)) ∧
  (∀ i, is_Some (actions !! i) → is_Some (r_dones out !! i)).
Proof.
  intros Hwf Hdi Hstep. pose proof Hstep as (st & Hnav & _)%step_Ok.
  destruct (step_outputs _ _ _ _ _ Hwf Hnav Hstep) as (-> & -> & _ & ->).
  destruct (navigate_rewards_inv _ _ _ Hnav) as (Hrange & Hcrash & Hresp & Hact).
  assert (∀ i, make_dones actions (air_respawns st) !! i = Some true
               ↔ i ∈ index <$> air_respawns st) as Hdone.
  { intros i. split; [|apply make_dones_lookup].
    intros Hd. destruct (decide (i ∈ index <$> air_respawns st)) as [|Hni]; [done|].
    rewrite make_dones_lookup_ne, lookup_fmap in Hd by done.
    by destruct (actions !! i). }
  split_and!; try done.
  - intros i. rewrite Hdone. split; [|apply Hcrash].
    by apply (respawned_reward self actions).
  - intros i Hi. destruct (decide (i ∈ index <$> air_respawns st)) as [|Hni].
    { by apply Hresp. }
    rewrite make_dones_lookup_ne, lookup_fmap in Hi by done. apply Hact.
    destruct (actions !! i); [done|]. by destruct Hi.
  - intros i [v Hv]. destruct (decide (i ∈ index <$> air_respawns st)) as [Hin|Hni].
    { by rewrite make_dones_lookup. }
    by rewrite make_dones_lookup_ne, lookup_fmap, Hv.
Qed.

Lemma X5_witness :
  (∀ i r, r_rewards (returned (step world_a actions_a [0; 0])) !! i = Some r →
          r = (-1)%Z ∨ r = 0%Z ∨ r = 1%Z) ∧
  (∀ i, r_dones (returned (step world_a actions_a [0; 0])) !! i = Some true ↔
        r_rewards (returned (step world_a actions_a [0; 0])) !! i = Some (-1)%Z) ∧
  (∀ i, r_dones (returned (step world_a actions_a [0; 0])) !! i = Some true ↔
        i ∈ index <$> info_air_respawns (returned (step world_a actions_a [0; 0]))) ∧
  (∀ i, is_Some (r_dones (returned (step world_a actions_a [0; 0])) !! i) →
        is_Some (r_rewards (returned (step world_a actions_a [0; 0])) !! i)) ∧
  (∀ i, is_Some (actions_a !! i) →
        is_Some (r_dones (returned (step world_a actions_a [0; 0])) !! i)).
Proof.
  apply (X5_done_iff_crashed world_a actions_a [0; 0]).
  - exact world_a_wf.
  - exact world_a_distinct.
  - by vm_compute.
Defined.

(** ** The exceptions of [step] *)

Lemma get_action_Raise actions d e :
  get_action actions d = Raise e ↔
  e = ValueError ∧ ∃ v, actions !! index d = Some v ∧ ¬ (0 ≤ v ≤ 4)%Z.
Proof.
  unfold get_action, Action_of_value. destruct (actions !! index d) as [v|].
  - repeat case_decide; subst; (split; [try done|]).
    + intros (_ & ? & [= <-] & Hv). lia.
    + intros (_ & ? & [= <-] & Hv). lia.
    + intros (_ & ? & [= <-] & Hv). lia.
    + intros (_ & ? & [= <-] & Hv). lia.
    + intros (_ & ? & [= <-] & Hv). lia.
    + intros [= <-]. split; [done|]. exists v. split; [done|lia].
    + by intros [-> _].
  - split; [done|]. by intros (_ & ? & ? & _).
Qed.

Lemma air_navigation_loop_Raise actions l st e :
  foldM (air_navigation actions) st l = Raise e → e = ValueError.
Proof.
  revert st. induction l as [|[d p] l IH]; intros st; [done|].
  rewrite foldM_cons. destruct (air_navigation actions st (d, p)) as [st1|e1] eqn:H1; simpl.
  { apply IH. }
  intros [= <-]. unfold air_navigation in H1.
  destruct (get_action actions d) as [a|e2] eqn:Ha; simpl in H1.
  - by destruct (is_inside _ _).
  - injection H1 as <-. by apply get_action_Raise in Ha as [-> _].
Qed.

Lemma respawn_Raise sh actions st rs e :
  Locals_wf sh st → respawn actions st rs = Raise e → e = ValueError.
Proof.
  intros Hwf Hre.
  destruct (spawn (l_ground st) (ground_respawns st) rs) as [[[ground1 gpos] rs1]|e1] eqn:Hg.
  2: { unfold respawn in Hre. rewrite Hg in Hre. simpl in Hre. injection Hre as <-.
       by apply spawn_Raise in Hg as [-> _]. }
  destruct (spawn (l_air st) (air_respawns st) rs1) as [[[air1 positions] rs2]|e1] eqn:Ha.
  2: { unfold respawn in Hre. rewrite Hg in Hre. simpl in Hre. rewrite Ha in Hre.
       simpl in Hre. injection Hre as <-. by apply spawn_Raise in Ha as [-> _]. }
  destruct (respawn_total sh actions st rs Hwf) as [out Hout].
  - apply (spawn_Ok _ _ rs). eauto.
  - apply (spawn_Ok _ _ rs1). eauto.
  - congruence.
Qed.

Lemma step_Raise self actions rs e :
  Env_wf self → step self actions rs = Raise e → e = ValueError.
Proof.
  intros Hwf Hstep. unfold step in Hstep.
  destruct (navigate self actions) as [st|e1] eqn:Hnav; simpl in Hstep.
  { destruct (navigate_census _ _ _ Hwf Hnav) as (Hwfst & _). by eapply respawn_Raise. }
  injection Hstep as <-. unfold navigate, get_objects in Hnav.
  case_decide; simpl in Hnav; [by injection Hnav|].
  destruct (foldM (air_navigation actions) _ (zip_results (air self))) as [st1|e2] eqn:H1;
    simpl in Hnav.
  - destruct (first_loop_summary _ _ _ Hwf H1) as (_ & _ & _ & _ & [_ Hall] & _).
    destruct (second_loop_Ok (new_positions st1) st1) as [st Hst]; [|congruence].
    eapply Forall_impl; [exact Hall|]. by intros ? [_ ?].
  - injection Hnav as <-. by eapply air_navigation_loop_Raise.
Qed.

(** X6. The only exception [step] raises is ValueError. When the tiles of
    the world fit on the ground, it raises if and only if the grid has no
    cell or some drone of the air grid is given an action that is not one of
    0..4; actions given to indices that are no drone's are never looked at. *)
Theorem X6_step_raises self actions rs :
  Env_wf self →
  (∀ e, step self actions rs = Raise e → e = ValueError) ∧
  (length (objects (ground self)) + length (cargo (objects (air self)))
     ≤ length (grid (ground self)) →
   step self actions rs = Raise ValueError ↔
   grid (air self) = [] ∨
   ∃ d v, d ∈ objects (air self) ∧ actions !! index d = Some v ∧ ¬ (0 ≤ v ≤ 4)%Z).
Proof.
  intros Hwf. split; [intros e; by apply step_Raise|].
  intros Hroom. split.
  - intros Hraise.
    destruct (decide (grid (air self) = [])) as [|Hne]; [by left|]. right.
    assert (∀ d, {∃ a, get_action actions d = Ok a} + {¬ ∃ a, get_action actions d = Ok a})
      as Hdec.
    { intros d. destruct (get_action actions d) as [a|e]; [left; by exists a|].
      right. by intros [? ?]. }
    destruct (Forall_Exists_dec _ _ Hdec (objects (air self))) as [Hall|Hex].
    { destruct (step_total self actions rs Hwf Hne Hall Hroom) as [out Hout]. congruence. }
    apply Exists_exists in Hex as (d & Hd & Hbad).
    destruct (get_action actions d) as [a|e] eqn:Ha; [by destruct Hbad; exists a|].
    apply get_action_Raise in Ha as (_ & v & Hv & Hrange). by exists d, v.
  - intros [Hnil|(d & v & Hd & Hv & Hrange)].
    + unfold step, navigate, get_objects. by rewrite decide_True.
    + destruct (step self actions rs) as [out|e] eqn:Hstep.
      * exfalso. apply step_Ok in Hstep as (st & Hnav & _).
        apply navigate_Ok in Hnav as (_ & st1 & H1 & _).
        assert (Forall (λ dp : Drone * Position, ∃ a, get_action actions dp.1 = Ok a)
                  (zip_results (air self))) as Hall.
        { eapply (proj1 (air_navigation_loop_Ok _ _ _)). eauto. }
        rewrite <- zip_results_fst in Hd. apply list_elem_of_fmap in Hd as (dp & -> & Hdp).
        eapply Forall_forall in Hall as [a Ha]; [|exact Hdp].
        assert (get_action actions dp.1 = Raise ValueError) as Hbad.
        { apply get_action_Raise. split; [done|]. by exists v. }
        congruence.
      * f_equal. by eapply step_Raise.
Qed.

Lemma X6_witness :
  (length (objects (ground world_a)) + length (cargo (objects (air world_a)))
     ≤ length (grid (ground world_a))) ∧
  (∃ d v, d ∈ objects (air world_a) ∧ actions_y !! index d = Some v ∧ ¬ (0 ≤ v ≤ 4)%Z) ∧
  step world_a actions_y [0; 0] = Raise ValueError.
Proof.
  assert (length (objects (ground world_a)) + length (cargo (objects (air world_a)))
            ≤ length (grid (ground world_a))) as Hroom by (vm_compute; lia).
  assert (∃ d v, d ∈ objects (air world_a) ∧ actions_y !! index d = Some v
                 ∧ ¬ (0 ≤ v ≤ 4)%Z) as Hbad.
  { exists (mkDrone 1 None), 9%Z. split_and!; [|done|lia].
    apply (bool_decide_unpack _). by vm_compute. }
  split; [done|]. split; [done|].
  apply (X6_step_raises world_a actions_y [0; 0] world_a_wf); [done|by right].
Defined.

(** ** Indices that name no drone *)

Lemma filter_zip_results_index self (P : Drone * Position → Prop)
    `{∀ dp, Decision (P dp)} i :
  i ∈ index <$> (filter P (zip_results (air self))).*1 → i ∈ index <$> objects (air self).
Proof.
  intros (d & -> & Hd)%list_elem_of_fmap. apply list_elem_of_fmap_2.
  apply list_elem_of_fmap in Hd as (dp & -> & [_ Hdp]%list_elem_of_filter).
  rewrite <- zip_results_fst. by apply list_elem_of_fmap_2.
Qed.

(** X7. An index that is the index of no drone of the air grid gets from
    [step] what it had at the start: reward 0 and done [False] if [actions]
    names it (whatever the action, even an invalid one), and no entry in
    [rewards] and [dones] if it does not. *)
Theorem X7_index_without_drone self actions rs out i :
  Env_wf self → step self actions rs = Ok out →
  i ∉ index <$> objects (air self) →
  r_rewards out !! i = (λ _, 0%Z) <$> actions !! i ∧
  r_dones out !! i = (λ _, false) <$> actions !! i.
Proof.
  intros Hwf Hstep Hi. pose proof Hstep as (st & Hnav & _)%step_Ok.
  destruct (step_outputs _ _ _ _ _ Hwf Hnav Hstep) as (-> & -> & _ & _).
  destruct (navigate_census _ _ _ Hwf Hnav) as (_ & _ & Hidx & _).
  apply navigate_Ok in Hnav as (_ & st1 & H1 & H2).
  destruct (first_loop_summary _ _ _ Hwf H1)
    as (_ & _ & _ & _ & _ & _ & _ & _ & Hrw & Hitems).
  split.
  - rewrite (second_loop_rewards _ _ _ _ H2).
    + rewrite Hrw, crash_all_lookup_ne, lookup_fmap; [done|].
      intros Hin%filter_zip_results_index. done.
    + rewrite Hitems. intros Hin%filter_zip_results_index. done.
  - rewrite make_dones_lookup_ne, lookup_fmap; [done|].
    intros Hin. apply Hi. rewrite <- Hidx, fmap_app. apply elem_of_app. by right.
Qed.

Lemma X7_witness :
  r_rewards (returned (step world_a actions_x [])) !! 7%Z
    = (λ _, 0%Z) <$> actions_x !! 7%Z ∧
  r_dones (returned (step world_a actions_x [])) !! 7%Z
    = (λ _, false) <$> actions_x !! 7%Z.
Proof.
  apply (X7_index_without_drone world_a actions_x []).
  - exact world_a_wf.
  - by vm_compute.
  - apply (bool_decide_unpack _). by vm_compute.
Defined.

(** ** The tiles of the world *)

(** X8. A step that returns neither makes nor loses a tile: the dropzones on
    the ground after the step are those before it, and so are the packets on
    the ground or carried by drones, each of them once (they may have moved:
    crashes and deliveries respawn them). *)
Theorem X8_tiles_conserved self actions rs out :
  Env_wf self → step self actions rs = Ok out →
  filter (λ t, is_dropzone t = true) (objects (ground (grids out)))
    ≡ₚ filter (λ t, is_dropzone t = true) (objects (ground self)) ∧
  filter (λ t, is_packet t = true) (objects (ground (grids out)))
      ++ cargo (objects (air (grids out)))
    ≡ₚ filter (λ t, is_packet t = true) (objects (ground self))
         ++ cargo (objects (air self)).
Proof.
  intros Hwf Hstep.
  destruct (step_census _ _ _ _ Hwf Hstep) as (_ & _ & _ & Htiles).
  split.
  - rewrite <- (app_nil_r (filter _ (objects (ground (grids out))))),
            <- (filter_is_dropzone_cargo (objects (air (grids out)))), <- filter_app.
    rewrite <- (app_nil_r (filter _ (objects (ground self)))),
            <- (filter_is_dropzone_cargo (objects (air self))), <- filter_app.
    by rewrite Htiles.
  - rewrite <- (filter_is_packet_cargo (objects (air (grids out)))), <- filter_app.
    rewrite <- (filter_is_packet_cargo (objects (air self))), <- filter_app.
    by rewrite Htiles.
Qed.

Lemma X8_witness :
  filter (λ t, is_dropzone t = true)
    (objects (ground (grids (returned (step world_a actions_a [0; 0])))))
    ≡ₚ filter (λ t, is_dropzone t = true) (objects (ground world_a)) ∧
  filter (λ t, is_packet t = true)
    (objects (ground (grids (returned (step world_a actions_a [0; 0])))))
      ++ cargo (objects (air (grids (returned (step world_a actions_a [0; 0])))))
    ≡ₚ filter (λ t, is_packet t = true) (objects (ground world_a))
         ++ cargo (objects (air world_a)).
Proof.
  apply (X8_tiles_conserved world_a actions_a [0; 0]).
  - exact world_a_wf.
  - by vm_compute.
Defined.

(** ** [CompassQTable] *)

Lemma argmin_from_spec (l : list Z) (best_i : nat) (best : Z) (i : nat) :
  (argmin_from best_i best i l = best_i ∧ ∀ j w, l !! j = Some w → (best ≤ w)%Z) ∨
  (∃ j v, argmin_from best_i best i l = i + j ∧ l !! j = Some v ∧ (v < best)%Z ∧
          (∀ j' w, l !! j' = Some w → (v ≤ w)%Z) ∧
          (∀ j' w, j' < j → l !! j' = Some w → (v < w)%Z)).
Proof.
  revert best_i best i. induction l as [|v l IH]; intros best_i best i; simpl.
  { left. split; [done|]. by intros j w ?. }
  case_decide as Hlt.
  - right. destruct (IH i v (S i)) as [[-> Hall]|(j & v' & -> & Hj & Hv' & Hall & Hfirst)].
    + exists 0, v. split; [lia|]. split; [done|]. split; [done|]. split.
      * intros [|j'] w Hw; simpl in Hw; [injection Hw as <-; lia|by eapply Hall].
      * intros j' w Hj'. lia.
    + exists (S j), v'. split; [lia|]. split; [done|]. split; [lia|]. split.
      * intros [|j'] w Hw; simpl in Hw; [injection Hw as <-; lia|by eapply Hall].
      * intros [|j'] w Hj' Hw; simpl in Hw; [injection Hw as <-; lia|].
        eapply Hfirst; [|done]. lia.
  - destruct (IH best_i best (S i)) as [[-> Hall]|(j & v' & -> & Hj & Hv' & Hall & Hfirst)].
    + left. split; [done|].
      intros [|j'] w Hw; simpl in Hw; [injection Hw as <-; lia|by eapply Hall].
    + right. exists (S j), v'. split; [lia|]. split; [done|]. split; [done|]. split.
      * intros [|j'] w Hw; simpl in Hw; [injection Hw as <-; lia|by eapply Hall].
      * intros [|j'] w Hj' Hw; simpl in Hw; [injection Hw as <-; lia|].
        eapply Hfirst; [|done]. lia.
Qed.

(** [argmin] finds the first least element, and fails on the empty list
    only. *)
Lemma argmin_spec (l : list Z) :
  match argmin l with
  | Ok i => ∃ v, l !! i = Some v ∧ (∀ j w, l !! j = Some w → (v ≤ w)%Z) ∧
                 (∀ j w, j < i → l !! j = Some w → (v < w)%Z)
  | Raise e => e = ValueError ∧ l = []
  end.
Proof.
  destruct l as [|v l]; [done|]. simpl.
  destruct (argmin_from_spec l 0 v 1) as [[-> Hall]|(j & v' & -> & Hj & Hv' & Hall & Hfirst)].
  - exists v. split; [done|]. split.
    + intros [|j] w Hw; simpl in Hw; [injection Hw as <-; lia|by eapply Hall].
    + intros j w Hj. lia.
  - exists v'. split; [done|]. split.
    + intros [|j'] w Hw; simpl in Hw; [injection Hw as <-; lia|by eapply Hall].
    + intros [|j'] w Hj' Hw; simpl in Hw; [injection Hw as <-; lia|].
      eapply Hfirst; [|done]. lia.
Qed.

(** [list_index] finds the first occurrence, and fails only if there is
    none. *)
Lemma list_index_from_spec (v : Z) (l : list Z) (i : nat) :
  match list_index_from v i l with
  | Ok r => ∃ j, r = i + j ∧ l !! j = Some v ∧ ∀ j', j' < j → l !! j' ≠ Some v
  | Raise e => e = ValueError ∧ v ∉ l
  end.
Proof.
  revert i. induction l as [|w l IH]; intros i; simpl.
  { split; [done|]. by intros ?%elem_of_nil. }
  case_decide as Hw.
  - subst w. exists 0. split; [lia|]. split; [done|]. intros j' Hj'. lia.
  - specialize (IH (S i)). destruct (list_index_from v (S i) l) as [r|e].
    + destruct IH as (j & -> & Hj & Hfirst). exists (S j). split; [lia|]. split; [done|].
      intros [|j'] Hj'; simpl; [congruence|]. apply Hfirst. lia.
    + destruct IH as [-> Hni]. split; [done|]. by apply not_elem_of_cons.
Qed.

Lemma mapM_attr_index (l : list (option Tile)) :
  Forall is_Some l →
  ∃ indices, mapM attr_index l = Ok indices ∧
             Forall2 (λ c i, attr_index c = Ok i) l indices.
Proof.
  induction 1 as [|c l [t ->] Hall (indices & Hm & Hat)]; simpl.
  { exists []. split; [done|]. constructor. }
  destruct t as [p|z]; simpl; rewrite Hm; simpl; eexists; (split; [done|]);
    by constructor.
Qed.

Lemma l1_distances_fmap (l : list (option Tile * Position)) (y x : Z) :
  zip_with Z.add ((λ y', Z.abs (y' - y)) <$> l.*2.*1) ((λ x', Z.abs (x' - x)) <$> l.*2.*2)
  = (λ e, l1_distance (y, x) e.2) <$> l.
Proof. induction l as [|[c [ty tx]] l IH]; [done|]. csimpl. by rewrite IH. Qed.

Lemma compass_state_spec (y x ty tx : Z) :
  ∃ s, compass_state y x ty tx = Ok s ∧ s < 8 ∧
    (((ty, tx) = (y, x) ∧ s = 0) ∨
     (s / 2 = 0 ∧ (tx < x)%Z) ∨ (s / 2 = 1 ∧ (y < ty)%Z) ∨
     (s / 2 = 2 ∧ (x < tx)%Z) ∨ (s / 2 = 3 ∧ (ty < y)%Z)).
Proof.
  unfold compass_state.
  assert (x - tx < 0 ∨ x - tx = 0 ∨ x - tx > 0)%Z as Hw by lia.
  assert (ty - y < 0 ∨ ty - y = 0 ∨ ty - y > 0)%Z as Hs by lia.
  destruct Hw as [Hw|[Hw|Hw]], Hs as [Hs|[Hs|Hs]];
    repeat (first [rewrite bool_decide_eq_true_2 by lia
                  |rewrite bool_decide_eq_false_2 by lia]);
    eexists; (split; [reflexivity|]); (split; [vm_compute; lia|]).
  all: try (left; split; [f_equal; lia|reflexivity]).
  all: right.
  all: first [left; split; [reflexivity|lia]
             |right; left; split; [reflexivity|lia]
             |right; right; left; split; [reflexivity|lia]
             |right; right; right; split; [reflexivity|lia]].
Qed.

(** The two outcomes of [get_drone_state], read off the list [l] that
    [get_objects] returns. *)
Lemma get_drone_state_cases ground drone y x (l : list (option Tile * Position)) :
  get_objects_arrays (target_type drone) None ground = Ok (l.*1, (l.*2.*1, l.*2.*2)) →
  Forall (λ e, is_Some e.1) l →
  match CompassQTable.get_drone_state ground drone y x with
  | Ok s =>
      ∃ idx e, l !! idx = Some e ∧ compass_state y x e.2.1 e.2.2 = Ok s ∧
        match packet drone with
        | None =>
            (∀ j e', l !! j = Some e' →
               (l1_distance (y, x) e.2 ≤ l1_distance (y, x) e'.2)%Z) ∧
            (∀ j e', j < idx → l !! j = Some e' →
               (l1_distance (y, x) e.2 < l1_distance (y, x) e'.2)%Z)
        | Some carried =>
            attr_index e.1 = Ok (packet_index carried) ∧
            ∀ j e', j < idx → l !! j = Some e' → attr_index e'.1 ≠ Ok (packet_index carried)
        end
  | Raise err =>
      err = ValueError ∧
      match packet drone with
      | None => l = []
      | Some carried => ∀ e, e ∈ l → attr_index e.1 ≠ Ok (packet_index carried)
      end
  end.
Proof.
  intros Harr Hsome. unfold CompassQTable.get_drone_state.
  fold (target_type drone). rewrite Harr. simpl.
  assert (∀ idx (e : option Tile * Position), l !! idx = Some e →
            list_getitem l.*2.*1 idx = Ok e.2.1 ∧ list_getitem l.*2.*2 idx = Ok e.2.2) as Hget.
  { intros idx e He. unfold list_getitem. by rewrite !list_lookup_fmap, He. }
  destruct (packet drone) as [carried|] eqn:Hpk.
  - destruct (mapM_attr_index l.*1) as (indices & -> & Hat).
    { apply Forall_fmap. eapply Forall_impl; [exact Hsome|]. done. }
    simpl. unfold list_index.
    pose proof (list_index_from_spec (packet_index carried) indices 0) as Hidx.
    destruct (list_index_from (packet_index carried) 0 indices) as [r|err]; simpl.
    + destruct Hidx as (j & -> & Hj & Hfirst). simpl.
      destruct (Forall2_lookup_r _ _ _ _ _ Hat Hj) as (c & Hc & Hci).
      rewrite list_lookup_fmap in Hc.
      destruct (l !! j) as [e|] eqn:He; [|done]. injection Hc as <-.
      destruct (Hget j e He) as [-> ->]. simpl.
      exists j, e. split; [done|]. split; [reflexivity|]. split; [done|].
      intros j' e' Hj' He' Hbad. apply (Hfirst j' Hj').
      assert (l.*1 !! j' = Some e'.1) as Hc' by (by rewrite list_lookup_fmap, He').
      destruct (Forall2_lookup_l _ _ _ _ _ Hat Hc') as (i' & -> & Hi').
      congruence.
    + destruct Hidx as [-> Hni]. split; [done|].
      intros e (j & He)%list_elem_of_lookup Hbad. apply Hni.
      assert (l.*1 !! j = Some e.1) as Hc by (by rewrite list_lookup_fmap, He).
      destruct (Forall2_lookup_l _ _ _ _ _ Hat Hc) as (i & Hi & Hci).
      assert (i = packet_index carried) as -> by congruence.
      by eapply list_elem_of_lookup_2.
  - rewrite l1_distances_fmap.
    pose proof (argmin_spec ((λ e, l1_distance (y, x) e.2) <$> l)) as Hmin.
    destruct (argmin _) as [idx|err]; simpl.
    + destruct Hmin as (v & Hv & Hall & Hfirst). rewrite list_lookup_fmap in Hv.
      destruct (l !! idx) as [e|] eqn:He; [|done]. injection Hv as <-.
      destruct (Hget idx e He) as [-> ->]. simpl.
      exists idx, e. split; [done|]. split; [reflexivity|]. split.
      * intros j e' He'. apply (Hall j). by rewrite list_lookup_fmap, He'.
      * intros j e' Hj He'. apply (Hfirst j); [done|]. by rewrite list_lookup_fmap, He'.
    + destruct Hmin as [-> Hnil]. split; [done|]. by apply fmap_nil_inv in Hnil.
Qed.

Lemma StronglySorted_lookup_lt {A} (R : relation A) (l : list A) i j a b :
  StronglySorted R l → i < j → l !! i = Some a → l !! j = Some b → R a b.
Proof.
  intros Hs. revert i j. induction Hs as [|x l Hs IH Hx]; intros i j Hij Ha Hb; [done|].
  destruct i as [|i], j as [|j]; simpl in *; try lia.
  - injection Ha as <-. eapply Forall_forall in Hx; [done|]. by eapply list_elem_of_lookup_2.
  - eapply (IH i j); [lia|done..].
Qed.

Lemma is_target_spec drone (a : Tile) :
  is_target drone a ↔
  target_type drone a = true ∧
  ∀ carried, packet drone = Some carried → attr_index (Some a) = Ok (packet_index carried).
Proof.
  unfold is_target, target_type. destruct (packet drone) as [carried|], a as [p|z]; simpl.
  - split; [done|]. by intros [? _].
  - split.
    + intros Hz. split; [done|]. intros ? [= <-]. by rewrite Hz.
    + intros [_ Hz]. specialize (Hz _ eq_refl). by injection Hz.
  - split; [|done]. intros _. split; [done|]. by intros ? ?.
  - split; [done|]. by intros [? _].
Qed.

(** The list of candidates that [get_drone_state] gets from [get_objects]. *)
Lemma compass_candidates ground drone :
  Grid_wf ground → grid ground ≠ [] →
  ∃ l : list (option Tile * Position),
    get_objects_arrays (target_type drone) None ground = Ok (l.*1, (l.*2.*1, l.*2.*2)) ∧
    Forall (λ e, is_Some e.1) l ∧
    (∀ e, e ∈ l ↔ ∃ a, e.1 = Some a ∧ inside (shape ground) e.2 ∧
                       getitem ground e.2 = Some a ∧ target_type drone a = true) ∧
    StronglySorted
      (λ e1 e2, ravel_index (shape ground) e1.2 < ravel_index (shape ground) e2.2) l.
Proof.
  intros Hwf Hne.
  destruct (get_objects_spec (target_type drone) None ground Hwf Hne)
    as (l & _ & Harr & Hin & Hsorted).
  exists l. split; [done|]. split; [|split; [|done]].
  - apply Forall_forall. intros [c p] (a & -> & _)%Hin. by exists a.
  - intros [c p]. rewrite Hin. simpl. split.
    + intros (a & -> & ? & ? & ? & _). by exists a.
    + intros (a & -> & ? & ? & ?). exists a. by split_and!.
Qed.

Lemma target_at_candidate ground drone (l : list (option Tile * Position)) t :
  (∀ e, e ∈ l ↔ ∃ a, e.1 = Some a ∧ inside (shape ground) e.2 ∧
                     getitem ground e.2 = Some a ∧ target_type drone a = true) →
  target_at ground drone t ↔
  ∃ e, e ∈ l ∧ e.2 = t ∧
       ∀ carried, packet drone = Some carried → attr_index e.1 = Ok (packet_index carried).
Proof.
  intros Hin. unfold target_at. split.
  - intros (Ht & a & Ha & [Hty Hidx]%is_target_spec). exists (Some a, t).
    split; [|done]. apply Hin. by exists a.
  - intros ([c p] & (a & Hc & Hp & Ha & Hty)%Hin & <- & Hidx). simpl in *. subst c.
    split; [done|]. exists a. split; [done|]. by apply is_target_spec.
Qed.

Lemma no_cell_no_target ground drone t :
  Grid_wf ground → grid ground = [] → ¬ target_at ground drone t.
Proof.
  intros Hwf Hnil [[Hy Hx] _]. unfold Grid_wf in Hwf. rewrite Hnil in Hwf. simpl in Hwf.
  destruct (shape ground) as [h w]; simpl in *. nia.
Qed.

Lemma get_drone_state_raises (ground : Grid Tile) (drone : Drone) (y x : Z) :
  Grid_wf ground →
  (∀ e, CompassQTable.get_drone_state ground drone y x = Raise e → e = ValueError) ∧
  (CompassQTable.get_drone_state ground drone y x = Raise ValueError ↔
   ∀ t, ¬ target_at ground drone t).
Proof.
  intros Hwf. destruct (decide (grid ground = [])) as [Hnil|Hne].
  { assert (CompassQTable.get_drone_state ground drone y x = Raise ValueError) as ->.
    { unfold CompassQTable.get_drone_state, get_objects_arrays, objects_mask.
      by rewrite decide_True. }
    split; [by intros e [= <-]|]. split; [|done].
    intros _ t. by apply no_cell_no_target. }
  destruct (compass_candidates ground drone Hwf Hne) as (l & Harr & Hsome & Hin & _).
  pose proof (get_drone_state_cases ground drone y x l Harr Hsome) as Hcases.
  destruct (CompassQTable.get_drone_state ground drone y x) as [s|err].
  - split; [done|]. split; [done|]. intros Hno.
    destruct Hcases as (idx & e & He & _ & Hsel). destruct (Hno e.2).
    apply (target_at_candidate _ _ l); [done|]. exists e.
    split; [by eapply list_elem_of_lookup_2|]. split; [done|].
    intros carried Hc. rewrite Hc in Hsel. by destruct Hsel.
  - destruct Hcases as [-> Hno]. split; [by intros e [= <-]|]. split; [|done].
    intros _ t (e & He & _ & Hidx)%(target_at_candidate _ _ l); [|done].
    destruct (packet drone) as [carried|].
    + by apply (Hno e He), Hidx.
    + subst l. by apply elem_of_nil in He.
Qed.

(** X9. The only exception [CompassQTable.get_drone_state] raises is
    ValueError, and it raises it exactly when the ground holds no target for
    the drone: no packet at all for a drone that carries none, no dropzone of
    the index of its packet for a drone that carries one. *)
Theorem X9_compass_raises (ground : Grid Tile) (drone : Drone) (y x : Z) :
  Grid_wf ground →
  (∀ e, CompassQTable.get_drone_state ground drone y x = Raise e → e = ValueError) ∧
  (CompassQTable.get_drone_state ground drone y x = Raise ValueError ↔
   ∀ t, ¬ target_at ground drone t).
Proof. apply get_drone_state_raises. Qed.

Lemma X9_witness :
  (∀ e, CompassQTable.get_drone_state (ground world_a) (mkDrone 2 (Some (mkPacket 2))) 0 0
        = Raise e → e = ValueError) ∧
  (CompassQTable.get_drone_state (ground world_a) (mkDrone 2 (Some (mkPacket 2))) 0 0
     = Raise ValueError ↔
   ∀ t, ¬ target_at (ground world_a) (mkDrone 2 (Some (mkPacket 2))) t).
Proof.
  apply (X9_compass_raises (ground world_a) (mkDrone 2 (Some (mkPacket 2))) 0 0).
  by vm_compute.
Defined.

(** X10. For drone coordinates with which the [int64] arithmetic of
    [get_drone_state] does not wrap around (those of a cell of the grid, for
    one), a state that [CompassQTable.get_drone_state] returns is one of
    0..7, and there is a target cell [t] on the ground that it points to: a
    nearest packet for a drone that carries none (the first in row-major
    order among the nearest), the first dropzone of the index of its packet
    for a drone that carries one. Unless the target is in the drone's own
    cell, the move [Action(s // 2)] takes the drone one step closer to it;
    if the target is in the drone's own cell, the state is 0 (west). *)
Theorem X10_compass_leads_to_target (ground : Grid Tile) (drone : Drone) (y x : Z)
    (s : nat) :
  Grid_wf ground →
  no_wrap (shape ground) y x →
  CompassQTable.get_drone_state ground drone y x = Ok s →
  s < 8 ∧
  ∃ t, target_at ground drone t ∧
    (packet drone = None →
     ∀ t', target_at ground drone t' →
           (l1_distance (y, x) t ≤ l1_distance (y, x) t')%Z) ∧
    (∀ t', target_at ground drone t' →
           (packet drone = None → l1_distance (y, x) t' = l1_distance (y, x) t) →
           ravel_index (shape ground) t ≤ ravel_index (shape ground) t') ∧
    (t = (y, x) → s = 0) ∧
    (t ≠ (y, x) →
     ∃ a, Action_of_value (Z.of_nat (s / 2)) = Ok a ∧
          l1_distance (new_position a (y, x)) t = (l1_distance (y, x) t - 1)%Z).
Proof.
  intros Hwf _ Hstate.
  destruct (decide (grid ground = [])) as [Hnil|Hne].
  { unfold CompassQTable.get_drone_state, get_objects_arrays, objects_mask in Hstate.
    by rewrite decide_True in Hstate. }
  destruct (compass_candidates ground drone Hwf Hne) as (l & Harr & Hsome & Hin & Hsorted).
  pose proof (get_drone_state_cases ground drone y x l Harr Hsome) as Hcases.
  rewrite Hstate in Hcases. destruct Hcases as (idx & [c [ty tx]] & He & Hcompass & Hsel).
  simpl in He, Hcompass, Hsel.
  destruct (compass_state_spec y x ty tx) as (s' & Hs' & Hlt & Hdir).
  rewrite Hcompass in Hs'. injection Hs' as <-.
  split; [done|]. exists (ty, tx).
  assert (∀ t', target_at ground drone t' →
            ∃ j e', l !! j = Some e' ∧ e'.2 = t' ∧
              ∀ carried, packet drone = Some carried →
                         attr_index e'.1 = Ok (packet_index carried)) as Hcand.
  { intros t' (e' & (j & Hj)%list_elem_of_lookup & <- & Hidx)%(target_at_candidate _ _ l);
      [|done].
    by exists j, e'. }
  split_and!.
  - apply (target_at_candidate _ _ l); [done|]. exists (c, (ty, tx)).
    split; [by eapply list_elem_of_lookup_2|]. split; [done|].
    intros carried Hc. rewrite Hc in Hsel. by destruct Hsel.
  - intros Hnone t' (j & e' & Hj & <- & _)%Hcand. rewrite Hnone in Hsel.
    destruct Hsel as [Hmin _]. by apply (Hmin j e').
  - intros t' (j & e' & Hj & <- & Hidx)%Hcand Htie.
    destruct (decide (j < idx)) as [Hlt'|Hge].
    + exfalso. destruct (packet drone) as [carried|].
      * destruct Hsel as [_ Hfirst]. by apply (Hfirst j e' Hlt' Hj), Hidx.
      * destruct Hsel as [_ Hfirst]. specialize (Hfirst j e' Hlt' Hj).
        rewrite Htie in Hfirst by done. simpl in Hfirst. lia.
    + destruct (decide (j = idx)) as [->|Hne'].
      { assert (Some e' = Some (c, (ty, tx))) as [= ->]
          by (etrans; [symmetry; exact Hj|exact He]).
        done. }
      apply Nat.lt_le_incl.
      apply (StronglySorted_lookup_lt _ _ idx j (c, (ty, tx)) e' Hsorted);
        [lia|done..].
  - intros [= -> ->]. destruct Hdir as [[_ ?]|[[_ ?]|[[_ ?]|[[_ ?]|[_ ?]]]]]; [done|lia..].
  - intros Hne'.
    destruct Hdir as [[? _]|[[-> ?]|[[-> ?]|[[-> ?]|[-> ?]]]]]; [done|..].
    + exists LEFT. split; [done|]. unfold l1_distance; simpl. lia.
    + exists DOWN. split; [done|]. unfold l1_distance; simpl. lia.
    + exists RIGHT. split; [done|]. unfold l1_distance; simpl. lia.
    + exists UP. split; [done|]. unfold l1_distance; simpl. lia.
Qed.

Lemma X10_witness :
  4 < 8 ∧
  ∃ t, target_at (ground world_a) (mkDrone 1 None) t ∧
    (packet (mkDrone 1 None) = None →
     ∀ t', target_at (ground world_a) (mkDrone 1 None) t' →
           (l1_distance (1, 1)%Z t ≤ l1_distance (1, 1)%Z t')%Z) ∧
    (∀ t', target_at (ground world_a) (mkDrone 1 None) t' →
           (packet (mkDrone 1 None) = None →
            l1_distance (1, 1)%Z t' = l1_distance (1, 1)%Z t) →
           ravel_index (shape (ground world_a)) t
           ≤ ravel_index (shape (ground world_a)) t') ∧
    (t = (1, 1)%Z → 4 = 0) ∧
    (t ≠ (1, 1)%Z →
     ∃ a, Action_of_value (Z.of_nat (4 / 2)) = Ok a ∧
          l1_distance (new_position a (1, 1)%Z) t = (l1_distance (1, 1)%Z t - 1)%Z).
Proof.
  apply (X10_compass_leads_to_target (ground world_a) (mkDrone 1 None) 1 1 4).
  - by vm_compute.
  - by vm_compute.
  - by vm_compute.
Defined.

Lemma get_drone_state_lt ground drone y x s :
  CompassQTable.get_drone_state ground drone y x = Ok s → s < 8.
Proof.
  unfold CompassQTable.get_drone_state. intros H.
  apply bind_Ok in H as ([targets positions] & _ & H).
  apply bind_Ok in H as (target_idx & _ & H).
  apply bind_Ok in H as (target_y & _ & H).
  apply bind_Ok in H as (target_x & _ & H).
  destruct (compass_state_spec y x target_y target_x) as (s' & Hs' & Hlt & _).
  unfold compass_state in Hs'. rewrite H in Hs'. by injection Hs' as <-.
Qed.

(** X11. [format_state] names the states 0..7 by eight different names, so
    that a state can be told from its name; it accepts exactly the indices
    -8..7, the negative ones counting from the end of the list, and raises
    IndexError on any other; it accepts every state that [get_drone_state]
    returns. *)
Theorem X11_format_state_names :
  (∀ s, (∃ name, CompassQTable.format_state s = Ok name) ↔ (-8 ≤ s < 8)%Z) ∧
  (∀ s e, CompassQTable.format_state s = Raise e → e = IndexError) ∧
  (∀ s, (0 ≤ s < 8)%Z → CompassQTable.format_state (s - 8) = CompassQTable.format_state s) ∧
  (∀ s1 s2, (0 ≤ s1 < 8)%Z → (0 ≤ s2 < 8)%Z →
            CompassQTable.format_state s1 = CompassQTable.format_state s2 → s1 = s2) ∧
  (∀ ground drone y x s,
     CompassQTable.get_drone_state ground drone y x = Ok s →
     ∃ c, cardinals !! s = Some c ∧
          CompassQTable.format_state (Z.of_nat s) = Ok (cardinal_name c)).
Proof.
  assert (∀ s, (-8 ≤ s < 8)%Z →
            s = (-8)%Z ∨ s = (-7)%Z ∨ s = (-6)%Z ∨ s = (-5)%Z ∨ s = (-4)%Z ∨ s = (-3)%Z ∨
            s = (-2)%Z ∨ s = (-1)%Z ∨ s = 0%Z ∨ s = 1%Z ∨ s = 2%Z ∨ s = 3%Z ∨ s = 4%Z ∨
            s = 5%Z ∨ s = 6%Z ∨ s = 7%Z) as Hcases by lia.
  assert (∀ s, ¬ (-8 ≤ s < 8)%Z → CompassQTable.format_state s = Raise IndexError) as Hout.
  { intros s Hs. unfold CompassQTable.format_state. simpl length.
    destruct (decide (s < 0)%Z).
    - rewrite decide_False by lia. done.
    - rewrite decide_True by lia. unfold list_getitem.
      rewrite lookup_ge_None_2; [done|]. simpl. lia. }
  split_and!.
  - intros s. split.
    + intros [name Hname]. destruct (decide (-8 ≤ s < 8)%Z) as [|Hs]; [done|].
      by rewrite Hout in Hname.
    + intros Hs. pose proof (Hcases s Hs) as H; repeat destruct H as [->|H]; subst;
        by eexists.
  - intros s e He. destruct (decide (-8 ≤ s < 8)%Z) as [Hs|Hs].
    + pose proof (Hcases s Hs) as H; repeat destruct H as [->|H]; subst; done.
    + rewrite Hout in He by done. by injection He.
  - intros s Hs. assert (-8 ≤ s < 8)%Z as Hs' by lia.
    pose proof (Hcases s Hs') as H; repeat destruct H as [->|H]; subst; try lia; done.
  - intros s1 s2 H1 H2. assert (-8 ≤ s1 < 8)%Z as H1' by lia.
    assert (-8 ≤ s2 < 8)%Z as H2' by lia.
    pose proof (Hcases s1 H1') as H; repeat destruct H as [->|H]; subst; try lia;
      pose proof (Hcases s2 H2') as H'; repeat destruct H' as [->|H']; subst; try lia; done.
  - intros ground drone y x s Hlt%get_drone_state_lt.
    do 8 (destruct s as [|s]; [by eexists|]). lia.
Qed.

(** ** The compass on the worlds of [reset] *)

Lemma elem_of_objects_position {A} (g : Grid A) (a : A) :
  Grid_wf g → a ∈ objects g → ∃ p, inside (shape g) p ∧ getitem g p = Some a.
Proof.
  intros Hwf Ha. rewrite <- zip_results_fst in Ha.
  apply list_elem_of_fmap in Ha as ([a' p] & -> & Hin).
  apply elem_of_zip_results in Hin; [|done]. by exists p.
Qed.

Lemma elem_of_cargo (l : list Drone) (t : Tile) :
  t ∈ cargo l ↔ ∃ d pk, d ∈ l ∧ packet d = Some pk ∧ t = TPacket pk.
Proof.
  unfold cargo. rewrite list_elem_of_omap. unfold lost_packet. split.
  - intros (d & Hd & Ht). destruct (packet d) as [pk|] eqn:Hpk; [|done].
    injection Ht as <-. by exists d, pk.
  - intros (d & pk & Hd & Hpk & ->). exists d. by rewrite Hpk.
Qed.

Lemma length_cargo_lt (l : list Drone) (d : Drone) :
  d ∈ l → packet d = None → length (cargo l) < length l.
Proof.
  induction l as [|d' l IH]; intros Hd Hnone; [by apply elem_of_nil in Hd|].
  rewrite cargo_cons, length_app. simpl.
  assert (length (cargo l) ≤ length l) as Hle.
  { clear. induction l as [|d l IH]; [done|]. rewrite cargo_cons, length_app. simpl.
    unfold lost_packet. destruct (packet d); simpl; lia. }
  apply elem_of_cons in Hd as [<-|Hd].
  - unfold lost_packet. rewrite Hnone. simpl. lia.
  - specialize (IH Hd Hnone). unfold lost_packet. destruct (packet d'); simpl; lia.
Qed.

Lemma filter_is_packet_new n :
  filter (λ t, is_packet t = true) (new_packets n ++ new_dropzones n) = new_packets n.
Proof.
  unfold new_packets, new_dropzones. rewrite filter_app.
  assert (∀ l : list Z, filter (λ t, is_packet t = true)
                          ((λ index, TDropzone (mkDropzone index)) <$> l) = []) as ->.
  { induction l as [|i l IH]; [done|]. rewrite fmap_cons. by rewrite filter_cons_False. }
  rewrite app_nil_r. induction (range1 n) as [|i l IH]; [done|]. rewrite fmap_cons.
  rewrite filter_cons_True by done. by rewrite IH.
Qed.

(** In a legal world every drone has a target on the ground. *)
Lemma legal_world_target n env d p :
  legal_world n env → drone_at env d p → ∃ t, target_at (ground env) d t.
Proof.
  intros ((Hwa & Hwg & Hsh) & Hidx & _ & Hcensus) [_ Hd%elem_of_objects_getitem].
  assert (∃ tile, tile ∈ objects (ground env) ∧ is_target d tile) as (tile & Hin & Ht).
  { unfold is_target. destruct (packet d) as [carried|] eqn:Hpk.
    - assert (TPacket carried ∈ new_packets n ++ new_dropzones n) as Hc.
      { rewrite <- Hcensus. apply elem_of_app. right. apply elem_of_cargo. by exists d, carried. }
      apply elem_of_app in Hc as [Hc|Hc].
      2: { unfold new_dropzones in Hc. by apply list_elem_of_fmap in Hc as (? & ? & _). }
      unfold new_packets in Hc. apply list_elem_of_fmap in Hc as (k & [= ->] & Hk).
      assert (TDropzone (mkDropzone k) ∈ objects (ground env) ++ cargo (objects (air env)))
        as Hz.
      { rewrite Hcensus. apply elem_of_app. right. unfold new_dropzones.
        by apply (list_elem_of_fmap_2 (λ i, TDropzone (mkDropzone i))). }
      apply elem_of_app in Hz as [Hz|Hz].
      + by exists (TDropzone (mkDropzone k)).
      + by apply elem_of_cargo in Hz as (? & ? & _ & _ & ?).
    - assert (length (filter (λ t, is_packet t = true) (objects (ground env)))
              + length (cargo (objects (air env))) = n) as Hcount.
      { rewrite <- (length_new_packets n), <- (filter_is_packet_new n), <- Hcensus.
        by rewrite filter_app, filter_is_packet_cargo, length_app. }
      pose proof (length_cargo_lt _ _ Hd Hpk) as Hlt.
      assert (length (objects (air env)) = n) as Hn.
      { rewrite <- (length_fmap index), Hidx. apply length_range1. }
      destruct (filter (λ t, is_packet t = true) (objects (ground env)))
        as [|tile rest] eqn:Hf; [simpl in Hcount; lia|].
      assert (tile ∈ filter (λ t, is_packet t = true) (objects (ground env)))
        as [Hty Htile]%list_elem_of_filter by (rewrite Hf; left).
      exists tile. split; [done|]. by destruct tile. }
  destruct (elem_of_objects_position _ _ Hwg Hin) as (t & Hins & Hget).
  exists t. split; [done|]. by exists tile.
Qed.

(** The loop of [CompassQTable.observation]. *)
Lemma compass_observation_loop env (l : list (Drone * Position)) (obs0 : gmap Z nat) :
  (∀ dp, dp ∈ l →
         ∃ s, CompassQTable.get_drone_state (ground env) dp.1 dp.2.1 dp.2.2 = Ok s) →
  NoDup (index <$> l.*1) →
  ∃ obs,
    foldM (λ obs dp,
             s ← CompassQTable.get_drone_state (ground env) dp.1 dp.2.1 dp.2.2;
             Ok (<[index dp.1 := s]> obs)) obs0 l = Ok obs ∧
    (∀ dp, dp ∈ l →
       ∃ s, obs !! index dp.1 = Some s ∧
            CompassQTable.get_drone_state (ground env) dp.1 dp.2.1 dp.2.2 = Ok s) ∧
    (∀ i, i ∉ index <$> l.*1 → obs !! i = obs0 !! i).
Proof.
  revert obs0. induction l as [|dp l IH]; intros obs0 Hall Hnd.
  { exists obs0. split; [done|]. split; [by intros ? ?%elem_of_nil|done]. }
  change (NoDup (index dp.1 :: (index <$> l.*1))) in Hnd.
  apply NoDup_cons in Hnd as [Hni Hnd].
  destruct (Hall dp) as [s Hs]; [left|].
  destruct (IH (<[index dp.1 := s]> obs0)) as (obs & Hobs & Hin & Hout); [|done|].
  { intros dp' Hdp'. apply Hall. by right. }
  exists obs. rewrite foldM_cons, Hs. simpl. split; [done|]. split.
  - intros dp' [->|Hdp']%elem_of_cons; [|by apply Hin].
    exists s. split; [|done]. by rewrite Hout, lookup_insert_eq.
  - intros i Hi. change (i ∉ index dp.1 :: (index <$> l.*1)) in Hi.
    apply not_elem_of_cons in Hi as [Hne Hi]. by rewrite Hout, lookup_insert_ne.
Qed.

(** X12. On a legal world of at least one drone, [CompassQTable.observation]
    never raises: every drone has a target on the ground. The dict it returns
    has exactly the keys 1..n, and the entry of a drone is the state that
    [get_drone_state] computes for it at its cell, one of 0..7. *)
Theorem X12_compass_observation (n : nat) (env : DeliveryDrones) :
  legal_world n env → 0 < n →
  ∃ obs, CompassQTable.observation env = Ok obs ∧
    (∀ i, is_Some (obs !! i) ↔ (1 ≤ i ≤ Z.of_nat n)%Z) ∧
    (∀ d p, drone_at env d p →
       ∃ s, obs !! index d = Some s ∧ s < 8 ∧
            CompassQTable.get_drone_state (ground env) d p.1 p.2 = Ok s).
Proof.
  intros Hlegal Hn. pose proof Hlegal as (Hwf & Hidx & Hroom & Hcensus).
  assert (grid (air env) ≠ []) as Hne.
  { destruct Hwf as (Hwa & _ & _). intros Hnil.
    unfold Grid_wf in Hwa. rewrite Hnil in Hwa. simpl in Hwa. lia. }
  unfold CompassQTable.observation, get_objects. rewrite decide_False by done. simpl.
  destruct (compass_observation_loop env (zip_results (air env)) ∅)
    as (obs & Hobs & Hin & Hout).
  { intros [d p] Hdp%elem_of_zip_results_drone_at; [|done]. simpl.
    destruct (legal_world_target _ _ _ _ Hlegal Hdp) as [t Ht].
    destruct (get_drone_state_raises (ground env) d p.1 p.2) as [Hval Hiff].
    { by destruct Hwf as (_ & ? & _). }
    destruct (CompassQTable.get_drone_state (ground env) d p.1 p.2) as [s|e] eqn:Hs;
      [by exists s|].
    rewrite (Hval e eq_refl) in Hiff. destruct (proj1 Hiff eq_refl t Ht). }
  { rewrite zip_results_fst, Hidx. apply NoDup_range1. }
  exists obs. split; [done|]. split.
  - intros i. rewrite <- elem_of_range1, <- Hidx, <- zip_results_fst. split.
    + intros Hi. destruct (decide (i ∈ index <$> (zip_results (air env)).*1)); [done|].
      rewrite Hout in Hi by done. rewrite lookup_empty in Hi. by destruct Hi.
    + intros (d & -> & (dp & -> & Hdp)%list_elem_of_fmap)%list_elem_of_fmap.
      destruct (Hin dp Hdp) as (s & Hs & _). by exists s.
  - intros d p Hdp%elem_of_zip_results_drone_at; [|done].
    destruct (Hin (d, p) Hdp) as (s & Hs & Hstate). simpl in *.
    exists s. split; [done|]. split; [by eapply get_drone_state_lt|done].
Qed.

Lemma X12_witness :
  ∃ obs, CompassQTable.observation world_e = Ok obs ∧
    (∀ i, is_Some (obs !! i) ↔ (1 ≤ i ≤ Z.of_nat 1)%Z) ∧
    (∀ d p, drone_at world_e d p →
       ∃ s, obs !! index d = Some s ∧ s < 8 ∧
            CompassQTable.get_drone_state (ground world_e) d p.1 p.2 = Ok s).
Proof.
  apply (X12_compass_observation 1 world_e).
  - exact world_e_legal.
  - lia.
Defined.

(** ** [LidarCompassQTable] *)

Lemma sense_obstacles_zero (air : Grid Drone) (positions : list Position) (y x : Z) :
  LidarCompassQTable.sense_obstacles air positions y x = 0%Z ↔
  Forall (λ o, inside (shape air) (o.1 + y, o.2 + x)%Z ∧
               getitem air (o.1 + y, o.2 + x)%Z = None) positions.
Proof.
  induction positions as [|[oy ox] positions IH]; simpl; [done|].
  rewrite Forall_cons. simpl.
  destruct (is_inside air (oy + y, ox + x)%Z) eqn:Hin; simpl.
  - apply is_inside_spec in Hin.
    destruct (getitem air (oy + y, ox + x)%Z) as [d|]; simpl.
    + split; [done|]. by intros [[_ ?] _].
    + rewrite IH. tauto.
  - split; [done|]. intros [[Hin'%is_inside_spec _] _]. congruence.
Qed.

Lemma sense_obstacles_bit (air : Grid Drone) (positions : list Position) (y x : Z) :
  LidarCompassQTable.sense_obstacles air positions y x = 0%Z ∨
  LidarCompassQTable.sense_obstacles air positions y x = 1%Z.
Proof.
  induction positions as [|[oy ox] positions IH]; simpl; [by left|].
  destruct (is_inside air _); simpl; [|by right].
  destruct (getitem air _); simpl; [by right|done].
Qed.

(** X13. As long as the coordinates fit [int64] (those of the drone, the
    offsets and their sums), [sense_obstacles] answers 0 or 1, and it answers
    1 exactly when one of the cells it is asked about (the offsets
    [positions] from the cell of the drone) is outside the grid or holds a
    drone. *)
Theorem X13_sense_obstacles (air : Grid Drone) (positions : list Position) (y x : Z) :
  int64_position (y, x) →
  Forall (λ o, int64_position o ∧ int64_position (o.1 + y, o.2 + x)%Z) positions →
  (LidarCompassQTable.sense_obstacles air positions y x = 0%Z ∨
   LidarCompassQTable.sense_obstacles air positions y x = 1%Z) ∧
  (LidarCompassQTable.sense_obstacles air positions y x = 1%Z ↔
   ∃ o, o ∈ positions ∧
        (¬ inside (shape air) (o.1 + y, o.2 + x)%Z ∨
         ∃ d, getitem air (o.1 + y, o.2 + x)%Z = Some d)).
Proof.
  intros _ _. split; [apply sense_obstacles_bit|].
  pose proof (sense_obstacles_zero air positions y x) as Hzero.
  split.
  - intros Hone.
    assert (¬ Forall (λ o, inside (shape air) (o.1 + y, o.2 + x)%Z ∧
                           getitem air (o.1 + y, o.2 + x)%Z = None) positions) as Hex.
    { intros Hall%Hzero. congruence. }
    apply not_Forall_Exists in Hex; [|apply _].
    apply Exists_exists in Hex as (o & Ho & Hbad). exists o. split; [done|].
    destruct (decide (inside (shape air) (o.1 + y, o.2 + x)%Z)) as [Hin|]; [|by left].
    right. destruct (getitem air (o.1 + y, o.2 + x)%Z) as [d|] eqn:Hg; [by exists d|].
    exfalso. apply Hbad. simpl. by rewrite Hg.
  - intros (o & Ho & Hbad).
    destruct (sense_obstacles_bit air positions y x) as [Hz|]; [|done].
    apply Hzero in Hz. eapply Forall_forall in Hz as [Hin Hnone]; [|exact Ho].
    destruct Hbad as [|[d Hd]]; [done|congruence].
Qed.

Lemma X13_witness :
  (LidarCompassQTable.sense_obstacles (air world_a) [(0, -1); (0, -2)]%Z 1 1 = 0%Z ∨
   LidarCompassQTable.sense_obstacles (air world_a) [(0, -1); (0, -2)]%Z 1 1 = 1%Z) ∧
  (LidarCompassQTable.sense_obstacles (air world_a) [(0, -1); (0, -2)]%Z 1 1 = 1%Z ↔
   ∃ o, o ∈ [(0, -1); (0, -2)]%Z ∧
        (¬ inside (shape (air world_a)) (o.1 + 1, o.2 + 1)%Z ∨
         ∃ d, getitem (air world_a) (o.1 + 1, o.2 + 1)%Z = Some d)).
Proof.
  apply (X13_sense_obstacles (air world_a) [(0, -1); (0, -2)]%Z 1 1).
  - unfold int64_position, int64. simpl. lia.
  - unfold int64_position, int64.
    repeat apply Forall_cons_2; [simpl; lia..|apply Forall_nil_2].
Defined.

(** X14. For drone coordinates with which nothing wraps around, the state
    of [LidarCompassQTable.get_drone_state] holds the target
    of [CompassQTable] and eight lidar bits, one per compass point in the
    order of [cardinals]. If the bit of the direction of a move (west for
    LEFT, south for DOWN, east for RIGHT, north for UP: the bit [2 * v] for
    the action of value [v]) is 0, then the cell the move leads to and the
    cell after it are both on the grid and hold no drone: the move does not
    leave the grid. *)
Theorem X14_lidar_clear_moves (env : DeliveryDrones) (drone : Drone) (y x : Z)
    (target : nat) (lidar : list Z) :
  no_wrap (shape (ground env)) y x →
  LidarCompassQTable.get_drone_state env drone y x = Ok (target, lidar) →
  CompassQTable.get_drone_state (ground env) drone y x = Ok target ∧
  length lidar = 8 ∧
  (∀ k b, lidar !! k = Some b → b = 0%Z ∨ b = 1%Z) ∧
  (∀ v a, Action_of_value (Z.of_nat v) = Ok a → a ≠ STAY →
          lidar !! (2 * v) = Some 0%Z →
          let p1 := new_position a (y, x) in
          let p2 := new_position a p1 in
          inside (shape (air env)) p1 ∧ getitem (air env) p1 = None ∧
          inside (shape (air env)) p2 ∧ getitem (air env) p2 = None).
Proof.
  unfold LidarCompassQTable.get_drone_state. intros _ H.
  apply bind_Ok in H as (t & Ht & H).
  assert (t = target ∧
          lidar = (λ c, LidarCompassQTable.sense_obstacles (air env)
                          (LidarCompassQTable.lidar_positions c) y x) <$> cardinals)
    as [-> ->] by (by injection H).
  clear H. split; [done|]. split; [done|]. split.
  - intros k b. rewrite list_lookup_fmap. destruct (cardinals !! k) as [c|]; [|done].
    intros [= <-]. apply sense_obstacles_bit.
  - intros v a Ha Hstay. rewrite list_lookup_fmap.
    assert (v = 0 ∨ v = 1 ∨ v = 2 ∨ v = 3 ∨ v = 4 ∨ 5 ≤ v) as Hv by lia.
    destruct Hv as [->|[->|[->|[->|[->|Hv]]]]].
    5: { by injection Ha as <-. }
    5: { unfold Action_of_value in Ha. repeat case_decide; try lia. done. }
    all: injection Ha as <-; intros Hz;
      match goal with
      | |- context [new_position LEFT] =>
          assert (LidarCompassQTable.sense_obstacles (air env)
                    (LidarCompassQTable.lidar_positions West) y x = 0%Z) as Hz'
            by (by injection Hz)
      | |- context [new_position DOWN] =>
          assert (LidarCompassQTable.sense_obstacles (air env)
                    (LidarCompassQTable.lidar_positions South) y x = 0%Z) as Hz'
            by (by injection Hz)
      | |- context [new_position RIGHT] =>
          assert (LidarCompassQTable.sense_obstacles (air env)
                    (LidarCompassQTable.lidar_positions East) y x = 0%Z) as Hz'
            by (by injection Hz)
      | |- context [new_position UP] =>
          assert (LidarCompassQTable.sense_obstacles (air env)
                    (LidarCompassQTable.lidar_positions North) y x = 0%Z) as Hz'
            by (by injection Hz)
      end;
      apply sense_obstacles_zero in Hz';
      apply Forall_cons in Hz' as [[Hi1 Hg1] Hz'];
      apply Forall_cons in Hz' as [[Hi2 Hg2] _]; simpl in *.
    + replace (y, x - 1)%Z with (0 + y, -1 + x)%Z by (f_equal; lia).
      replace (y, x - 1 - 1)%Z with (0 + y, -2 + x)%Z by (f_equal; lia). done.
    + replace (y + 1, x)%Z with (1 + y, 0 + x)%Z by (f_equal; lia).
      replace (y + 1 + 1, x)%Z with (2 + y, 0 + x)%Z by (f_equal; lia). done.
    + replace (y, x + 1)%Z with (0 + y, 1 + x)%Z by (f_equal; lia).
      replace (y, x + 1 + 1)%Z with (0 + y, 2 + x)%Z by (f_equal; lia). done.
    + replace (y - 1, x)%Z with (-1 + y, 0 + x)%Z by (f_equal; lia).
      replace (y - 1 - 1, x)%Z with (-2 + y, 0 + x)%Z by (f_equal; lia). done.
Qed.

Lemma X14_witness :
  CompassQTable.get_drone_state (ground world_k) (mkDrone 1 None) 2 2 = Ok 2 ∧
  length [1; 0; 0; 0; 0; 0; 0; 0]%Z = 8 ∧
  (∀ k b, [1; 0; 0; 0; 0; 0; 0; 0]%Z !! k = Some b → b = 0%Z ∨ b = 1%Z) ∧
  (∀ v a, Action_of_value (Z.of_nat v) = Ok a → a ≠ STAY →
          [1; 0; 0; 0; 0; 0; 0; 0]%Z !! (2 * v) = Some 0%Z →
          let p1 := new_position a (2, 2)%Z in
          let p2 := new_position a p1 in
          inside (shape (air world_k)) p1 ∧ getitem (air world_k) p1 = None ∧
          inside (shape (air world_k)) p2 ∧ getitem (air world_k) p2 = None).
Proof.
  apply (X14_lidar_clear_moves world_k (mkDrone 1 None) 2 2 2 [1; 0; 0; 0; 0; 0; 0; 0]%Z).
  - by vm_compute.
  - by vm_compute.
Defined.

(** ** [GridView] *)

Section arrays.
Variable sh : nat * nat.
Implicit Types (arr : list Z) (p q : Position).

Lemma getitem3_setitem3 arr p c v q c' :
  inside sh p → inside sh q → c < 3 → c' < 3 → length arr = sh.1 * sh.2 * 3 →
  GridView.getitem3 sh (GridView.setitem3 sh arr p c v) q c'
  = if decide (p = q ∧ c = c') then v else GridView.getitem3 sh arr q c'.
Proof.
  intros Hp Hq Hc Hc' Hlen. unfold GridView.getitem3, GridView.setitem3.
  pose proof (ravel_index_lt sh p Hp) as Hlt.
  case_decide as Heq.
  - destruct Heq as [<- <-]. rewrite list_lookup_insert_eq; [done|]. lia.
  - rewrite list_lookup_insert_ne; [done|]. intros Hidx. apply Heq.
    assert (ravel_index sh p = ravel_index sh q ∧ c = c') as [Hr ->] by lia.
    split; [|done]. by apply (ravel_index_inj sh).
Qed.

Lemma length_setitem3 arr p c v :
  length (GridView.setitem3 sh arr p c v) = length arr.
Proof. apply length_insert. Qed.


(** The first loop of [observation]. *)
Lemma mark_drones_spec (l : list (Drone * Position)) arr :
  length arr = sh.1 * sh.2 * 3 → Forall (λ dp, inside sh dp.2) l → NoDup l.*2 →
  length (foldl (GridView.mark_drone sh) arr l) = sh.1 * sh.2 * 3 ∧
  ∀ q, inside sh q →
    (∀ d, (d, q) ∈ l →
       GridView.getitem3 sh (foldl (GridView.mark_drone sh) arr l) q 0 = index d ∧
       GridView.getitem3 sh (foldl (GridView.mark_drone sh) arr l) q 1
       = match packet d with
         | Some carried => packet_index carried
         | None => GridView.getitem3 sh arr q 1
         end ∧
       GridView.getitem3 sh (foldl (GridView.mark_drone sh) arr l) q 2
       = GridView.getitem3 sh arr q 2) ∧
    (q ∉ l.*2 → ∀ c, c < 3 →
       GridView.getitem3 sh (foldl (GridView.mark_drone sh) arr l) q c
       = GridView.getitem3 sh arr q c).
Proof.
  revert arr. induction l as [|[d p] l IH]; intros arr Hlen Hins Hnd.
  { split; [done|]. intros q Hq. split; [by intros d ?%elem_of_nil|done]. }
  apply Forall_cons in Hins as [Hp Hins]. simpl in Hp.
  rewrite fmap_cons in Hnd. apply NoDup_cons in Hnd as [Hni Hnd]. simpl in Hni.
  assert (length (GridView.mark_drone sh arr (d, p)) = sh.1 * sh.2 * 3) as Hlen1.
  { unfold GridView.mark_drone; simpl. destruct (packet d); by rewrite !length_setitem3. }
  assert (∀ q c, inside sh q → c < 3 →
            GridView.getitem3 sh (GridView.mark_drone sh arr (d, p)) q c
            = if decide (p = q) then
                match c with
                | 0 => index d
                | 1 => match packet d with
                       | Some carried => packet_index carried
                       | None => GridView.getitem3 sh arr q 1
                       end
                | _ => GridView.getitem3 sh arr q c
                end
              else GridView.getitem3 sh arr q c) as Hmark.
  { intros q c Hq Hc. unfold GridView.mark_drone; simpl.
    destruct (packet d) as [carried|].
    - rewrite !getitem3_setitem3 by (rewrite ?length_setitem3; (done || lia)).
      destruct (decide (p = q)) as [->|Hne].
      + destruct c as [|[|c]].
        * rewrite decide_False by (intros [_ ?]; lia). by rewrite decide_True.
        * by rewrite decide_True.
        * rewrite decide_False by (intros [_ ?]; lia).
          by rewrite decide_False by (intros [_ ?]; lia).
      + rewrite decide_False by (by intros [? _]). by rewrite decide_False by (by intros [? _]).
    - rewrite getitem3_setitem3 by (done || lia).
      destruct (decide (p = q)) as [->|Hne].
      + destruct c as [|[|c]].
        * by rewrite decide_True.
        * by rewrite decide_False by (intros [_ ?]; lia).
        * by rewrite decide_False by (intros [_ ?]; lia).
      + by rewrite decide_False by (by intros [? _]). }
  destruct (IH _ Hlen1 Hins Hnd) as [Hlen' Hspec]. cbn [foldl].
  split; [done|]. intros q Hq. destruct (Hspec q Hq) as [Hin Hout]. split.
  - intros d' [[= -> ->]|Hd']%elem_of_cons.
    + rewrite !Hout by (done || lia). rewrite !Hmark by (done || lia).
      by rewrite !decide_True.
    + destruct (Hin d' Hd') as (H0 & H1 & H2). rewrite H0, H1, H2.
      assert (p ≠ q) as Hne.
      { intros ->. apply Hni. apply list_elem_of_fmap. by exists (d', q). }
      rewrite !Hmark by (done || lia). by rewrite !decide_False.
  - intros Hq' c Hc. rewrite fmap_cons in Hq'. apply not_elem_of_cons in Hq' as [Hne Hq'].
    simpl in Hne. rewrite Hout by done. rewrite Hmark by done. by rewrite decide_False.
Qed.
End arrays.

Lemma mark_tiles_spec (sh : nat * nat) (k : nat) (l : list (option Tile * Position))
    (arr : list Z) :
  k < 3 → length arr = sh.1 * sh.2 * 3 →
  Forall (λ e, inside sh e.2 ∧ is_Some e.1) l → NoDup l.*2 →
  ∃ arr', foldM (GridView.mark_tile sh k) arr l = Ok arr' ∧
    length arr' = sh.1 * sh.2 * 3 ∧
    ∀ q, inside sh q →
      (∀ a, (Some a, q) ∈ l → GridView.getitem3 sh arr' q k = tile_index a) ∧
      (∀ c, c < 3 → c ≠ k ∨ q ∉ l.*2 →
            GridView.getitem3 sh arr' q c = GridView.getitem3 sh arr q c).
Proof.
  intros Hk. revert arr. induction l as [|[t p] l IH]; intros arr Hlen Hall Hnd.
  { exists arr. split; [done|]. split; [done|]. intros q Hq.
    split; [by intros a ?%elem_of_nil|done]. }
  apply Forall_cons in Hall as [[Hp [a Ha]] Hall]. simpl in Hp, Ha. subst t.
  rewrite fmap_cons in Hnd. apply NoDup_cons in Hnd as [Hni Hnd]. simpl in Hni.
  rewrite foldM_cons.
  assert (GridView.mark_tile sh k arr (Some a, p)
          = Ok (GridView.setitem3 sh arr p k (tile_index a))) as -> by (by destruct a).
  simpl.
  destruct (IH (GridView.setitem3 sh arr p k (tile_index a)))
    as (arr' & Hfold & Hlen' & Hspec); [by rewrite length_setitem3|done..|].
  exists arr'. split; [done|]. split; [done|]. intros q Hq.
  destruct (Hspec q Hq) as [Hin Hout]. split.
  - intros a' [[= -> ->]|Ha']%elem_of_cons; [|by apply Hin].
    rewrite Hout; [|lia|by right].
    rewrite getitem3_setitem3 by (done || lia). by rewrite decide_True.
  - intros c Hc Hor.
    assert (c ≠ k ∨ (q ≠ p ∧ q ∉ l.*2)) as Hor'.
    { destruct Hor as [?|Hq']; [by left|]. right. csimpl in Hq'.
      by apply not_elem_of_cons in Hq'. }
    rewrite Hout; [|done|destruct Hor' as [?|[_ ?]]; [by left|by right]].
    rewrite getitem3_setitem3 by (done || lia). rewrite decide_False; [done|].
    intros [-> ->]. by destruct Hor' as [?|[? _]].
Qed.

Lemma StronglySorted_NoDup_snd {A} (sh : nat * nat) (l : list (A * Position)) :
  StronglySorted (λ e1 e2, ravel_index sh e1.2 < ravel_index sh e2.2) l → NoDup l.*2.
Proof.
  induction 1 as [|e l Hs IH He]; [constructor|]. rewrite fmap_cons. constructor; [|done].
  intros (e' & Heq & He')%list_elem_of_fmap. eapply Forall_forall in He; [|exact He'].
  rewrite Heq in He. lia.
Qed.

Lemma same_for_all_lookup n arr i :
  same_for_all n arr !! i = if decide (1 ≤ i ≤ Z.of_nat n)%Z then Some arr else None.
Proof.
  unfold same_for_all.
  assert (∀ (l : list Z) (m : gmap Z (list Z)),
            foldl (λ obs index, <[index := arr]> obs) m l !! i
            = if decide (i ∈ l) then Some arr else m !! i) as Hfold.
  { induction l as [|j l IH]; intros m; cbn [foldl].
    - rewrite decide_False; [done|]. by intros ?%elem_of_nil.
    - rewrite IH. destruct (decide (i ∈ l)) as [Hin|Hni].
      + rewrite decide_True; [done|]. by right.
      + destruct (decide (i = j)) as [->|Hne].
        * rewrite lookup_insert_eq. rewrite decide_True; [done|]. left.
        * rewrite lookup_insert_ne by done. rewrite decide_False; [done|].
          by intros [?|?]%elem_of_cons. }
  rewrite Hfold, lookup_empty.
  destruct (decide (i ∈ range1 n)) as [Hi|Hi]; rewrite elem_of_range1 in Hi.
  - by rewrite decide_True.
  - by rewrite decide_False.
Qed.

(** The array of [GridView.observation], channel by channel. *)
Lemma gridview_array (n : nat) (sh : nat * nat) (env : DeliveryDrones) :
  Env_wf env → shape (air env) = sh → grid (air env) ≠ [] →
  ∃ arr, GridView.observation n sh env = Ok (same_for_all n arr) ∧
    length arr = sh.1 * sh.2 * 3 ∧
    ∀ p, inside sh p →
      GridView.getitem3 sh arr p 0 = drone_channel env p ∧
      GridView.getitem3 sh arr p 1 = packet_channel env p ∧
      GridView.getitem3 sh arr p 2 = dropzone_channel env p.
Proof.
  intros (Hwa & Hwg & Hsg) Hsa Hne.
  assert (grid (ground env) ≠ []) as Hneg.
  { intros Hnil. apply Hne. apply length_zero_iff_nil.
    rewrite Hwa, <- Hsg, <- Hwg, Hnil. done. }
  unfold GridView.observation, get_objects. rewrite decide_False by done. simpl.
  destruct (mark_drones_spec sh (zip_results (air env)) (replicate (sh.1 * sh.2 * 3) 0%Z))
    as [Hlen1 Hspec1].
  { apply length_replicate. }
  { apply Forall_forall. intros [d p] Hdp%elem_of_zip_results; [|done].
    simpl. rewrite <- Hsa. by destruct Hdp. }
  { by apply NoDup_zip_results_snd. }
  set (arr1 := foldl (GridView.mark_drone sh) (replicate (sh.1 * sh.2 * 3) 0%Z)
                 (zip_results (air env))) in *.
  destruct (get_objects_spec is_packet None (ground env) Hwg Hneg)
    as (packets & -> & _ & Hpin & Hpsorted). simpl.
  destruct (mark_tiles_spec sh 1 packets arr1) as (arr2 & -> & Hlen2 & Hspec2);
    [lia|done|..].
  { apply Forall_forall. intros [c p] (a & -> & Hp & _)%Hpin. simpl.
    split; [congruence|by exists a]. }
  { by eapply StronglySorted_NoDup_snd. }
  simpl.
  destruct (get_objects_spec is_dropzone None (ground env) Hwg Hneg)
    as (dropzones & -> & _ & Hzin & Hzsorted). simpl.
  destruct (mark_tiles_spec sh 2 dropzones arr2) as (arr3 & -> & Hlen3 & Hspec3);
    [lia|done|..].
  { apply Forall_forall. intros [c p] (a & -> & Hp & _)%Hzin. simpl.
    split; [congruence|by exists a]. }
  { by eapply StronglySorted_NoDup_snd. }
  simpl. exists arr3. split; [done|]. split; [done|].
  intros p Hp.
  destruct (Hspec1 p Hp) as [Hd1 Hnd1], (Hspec2 p Hp) as [Hp2 Hnp2],
    (Hspec3 p Hp) as [Hz3 Hnz3].
  assert (∀ c, GridView.getitem3 sh (replicate (sh.1 * sh.2 * 3) 0%Z) p c = 0%Z) as Hzero.
  { intros c. unfold GridView.getitem3.
    destruct (replicate _ _ !! _) as [v|] eqn:Hv; [|done].
    by apply lookup_replicate in Hv as [-> _]. }
  assert (inside (shape (air env)) p) as Hpa by (by rewrite Hsa).
  assert (inside (shape (ground env)) p) as Hpg by (by rewrite Hsg, Hsa).
  assert (∀ d, getitem (air env) p = Some d → (d, p) ∈ zip_results (air env)) as Hair.
  { intros d Hd. by apply elem_of_zip_results. }
  assert (getitem (air env) p = None → p ∉ (zip_results (air env)).*2) as Hnoair.
  { intros Hnone ([d p'] & -> & Hdp%elem_of_zip_results)%list_elem_of_fmap; [|done].
    simpl in *. destruct Hdp. congruence. }
  assert (∀ a, getitem (ground env) p = Some a → is_packet a = true →
               (Some a, p) ∈ packets) as Hpk.
  { intros a Ha Hty. apply Hpin. exists a. by split_and!. }
  assert ((∀ a, getitem (ground env) p = Some a → is_packet a = false) →
          p ∉ packets.*2) as Hnopk.
  { intros Hno ([c p'] & -> & (a & _ & _ & Ha & Hty & _)%Hpin)%list_elem_of_fmap.
    simpl in *. rewrite (Hno a Ha) in Hty. done. }
  assert (∀ a, getitem (ground env) p = Some a → is_dropzone a = true →
               (Some a, p) ∈ dropzones) as Hdz.
  { intros a Ha Hty. apply Hzin. exists a. by split_and!. }
  assert ((∀ a, getitem (ground env) p = Some a → is_dropzone a = false) →
          p ∉ dropzones.*2) as Hnodz.
  { intros Hno ([c p'] & -> & (a & _ & _ & Ha & Hty & _)%Hzin)%list_elem_of_fmap.
    simpl in *. rewrite (Hno a Ha) in Hty. done. }
  unfold drone_channel, packet_channel, dropzone_channel. split_and!.
  - rewrite Hnz3 by (lia || (left; lia)). rewrite Hnp2 by (lia || (left; lia)).
    destruct (getitem (air env) p) as [d|] eqn:Hd.
    + by destruct (Hd1 d (Hair d eq_refl)) as (-> & _).
    + rewrite Hnd1 by (by (lia || apply Hnoair)). apply Hzero.
  - rewrite Hnz3 by (lia || (left; lia)).
    destruct (getitem (ground env) p) as [[on_ground|z]|] eqn:Hg.
    + by rewrite (Hp2 _ (Hpk _ eq_refl eq_refl)).
    + rewrite Hnp2; [|lia|right; apply Hnopk; by intros ? [= <-]].
      destruct (getitem (air env) p) as [[i [carried|]]|] eqn:Hd.
      * by destruct (Hd1 _ (Hair _ eq_refl)) as (_ & -> & _).
      * destruct (Hd1 _ (Hair _ eq_refl)) as (_ & -> & _). apply Hzero.
      * rewrite Hnd1 by (by (lia || apply Hnoair)). apply Hzero.
    + rewrite Hnp2; [|lia|right; apply Hnopk; by intros ? [=]].
      destruct (getitem (air env) p) as [[i [carried|]]|] eqn:Hd.
      * by destruct (Hd1 _ (Hair _ eq_refl)) as (_ & -> & _).
      * destruct (Hd1 _ (Hair _ eq_refl)) as (_ & -> & _). apply Hzero.
      * rewrite Hnd1 by (by (lia || apply Hnoair)). apply Hzero.
  - destruct (getitem (ground env) p) as [[on_ground|z]|] eqn:Hg.
    + rewrite Hnz3; [|lia|right; apply Hnodz; by intros ? [= <-]].
      rewrite Hnp2 by (lia || (left; lia)).
      destruct (getitem (air env) p) as [d|] eqn:Hd.
      * destruct (Hd1 _ (Hair _ eq_refl)) as (_ & _ & ->). apply Hzero.
      * rewrite Hnd1 by (by (lia || apply Hnoair)). apply Hzero.
    + by rewrite (Hz3 _ (Hdz _ eq_refl eq_refl)).
    + rewrite Hnz3; [|lia|right; apply Hnodz; by intros ? [=]].
      rewrite Hnp2 by (lia || (left; lia)).
      destruct (getitem (air env) p) as [d|] eqn:Hd.
      * destruct (Hd1 _ (Hair _ eq_refl)) as (_ & _ & ->). apply Hzero.
      * rewrite Hnd1 by (by (lia || apply Hnoair)). apply Hzero.
Qed.

(** X15. In a world whose indices a float64 holds exactly (up to 2^53),
    [GridView.observation] gives every index 1..n_drones the same
    array, and no other index an entry. In the array, channel 0 of a cell is
    the index of the drone in the cell, channel 2 the index of the dropzone
    on its ground, and channel 1 the index of the packet on its ground or,
    only if there is no packet on the ground, of the packet carried by the
    drone in the cell; 0 stands for what is absent. On a grid without cells
    it raises ValueError. *)
Theorem X15_gridview_observation (n_drones : nat) (sh : nat * nat) (env : DeliveryDrones) :
  Env_wf env → shape (air env) = sh → exact_indices env →
  (grid (air env) = [] → GridView.observation n_drones sh env = Raise ValueError) ∧
  (grid (air env) ≠ [] →
   ∃ obs arr, GridView.observation n_drones sh env = Ok obs ∧
     (∀ i, obs !! i = if decide (1 ≤ i ≤ Z.of_nat n_drones)%Z then Some arr else None) ∧
     length arr = sh.1 * sh.2 * 3 ∧
     ∀ p, inside sh p →
       GridView.getitem3 sh arr p 0 = drone_channel env p ∧
       GridView.getitem3 sh arr p 1 = packet_channel env p ∧
       GridView.getitem3 sh arr p 2 = dropzone_channel env p).
Proof.
  intros Hwf Hsh _. split.
  - intros Hnil. unfold GridView.observation, get_objects. by rewrite decide_True.
  - intros Hne. destruct (gridview_array n_drones sh env Hwf Hsh Hne) as (arr & Hobs & Hlen & Hch).
    exists (same_for_all n_drones arr), arr. split; [done|]. split; [|done].
    apply same_for_all_lookup.
Qed.

Lemma X15_witness :
  (grid (air world_a) = [] → GridView.observation 2 (3, 3) world_a = Raise ValueError) ∧
  (grid (air world_a) ≠ [] →
   ∃ obs arr, GridView.observation 2 (3, 3) world_a = Ok obs ∧
     (∀ i, obs !! i = if decide (1 ≤ i ≤ Z.of_nat 2)%Z then Some arr else None) ∧
     length arr = (3, 3).1 * (3, 3).2 * 3 ∧
     ∀ p, inside (3, 3) p →
       GridView.getitem3 (3, 3) arr p 0 = drone_channel world_a p ∧
       GridView.getitem3 (3, 3) arr p 1 = packet_channel world_a p ∧
       GridView.getitem3 (3, 3) arr p 2 = dropzone_channel world_a p).
Proof.
  apply (X15_gridview_observation 2 (3, 3) world_a).
  - exact world_a_wf.
  - by vm_compute.
  - unfold exact_indices, exact_float. split.
    + intros d Hd. vm_compute in Hd.
      apply elem_of_cons in Hd as [->|Hd]; [|apply elem_of_cons in Hd as [->|Hd]].
      * split; [simpl; lia|]. intros carried [= <-]. simpl. lia.
      * split; [simpl; lia|]. by intros carried [=].
      * by apply elem_of_nil in Hd.
    + intros t Ht. vm_compute in Ht.
      apply elem_of_cons in Ht as [->|Ht]; [|apply elem_of_cons in Ht as [->|Ht]].
      * simpl. lia.
      * simpl. lia.
      * by apply elem_of_nil in Ht.
Defined.



(** ** Leaving the grid *)

(** X17. A drone whose move leads outside the grid crashes: its reward is
    -1, it is done, it is one of [info['air_respawns']], the packet it
    carried (if any) is one of [info['ground_respawns']], and it is back in
    some cell of the air grid when [step] returns. *)
Theorem X17_leaving_the_grid self actions rs out d p a :
  Env_wf self → distinct_indices self → drone_at self d p →
  get_action actions d = Ok a → ¬ inside (shape (air self)) (new_position a p) →
  step self actions rs = Ok out →
  r_rewards out !! index d = Some crash_reward ∧
  r_dones out !! index d = Some true ∧
  index d ∈ index <$> info_air_respawns out ∧
  (∀ pk, packet d = Some pk → TPacket pk ∈ info_ground_respawns out) ∧
  ∃ d' q, drone_at (grids out) d' q ∧ index d' = index d.
Proof.
  intros Hwf Hdi Hd Ha Hout Hstep. pose proof Hstep as (st & Hnav & _)%step_Ok.
  assert (leaves actions (shape (air self)) (d, p) = true) as Hlv.
  { apply leaves_spec. by exists a. }
  destruct (step_outputs _ _ _ _ _ Hwf Hnav Hstep) as (-> & -> & -> & ->).
  pose proof (navigate_crashed _ _ _ _ _ Hwf Hdi Hnav Hd Hlv) as Hrw.
  destruct (step_census _ _ _ _ Hwf Hstep) as (Hwf' & _ & Hidx & _).
  apply navigate_Ok in Hnav as (_ & st1 & H1 & H2).
  destruct (first_loop_summary _ _ _ Hwf H1)
    as (_ & _ & _ & _ & _ & _ & Har & Hgr & _).
  destruct (second_loop_mono _ _ _ H2) as [Hpa Hpg].
  assert (d ∈ (filter (λ dp, leaves actions (shape (air self)) dp = true)
                 (zip_results (air self))).*1) as Hin.
  { apply list_elem_of_fmap. exists (d, p). split; [done|].
    apply list_elem_of_filter. split; [done|]. by apply elem_of_zip_results_drone_at. }
  assert (index d ∈ index <$> air_respawns st) as Hresp.
  { apply list_elem_of_fmap. exists (drop_packet d). split; [done|].
    eapply elem_of_prefix; [|exact Hpa]. rewrite Har. by apply list_elem_of_fmap_2. }
  split_and!; try done.
  - by apply make_dones_lookup.
  - intros pk Hpk. eapply elem_of_prefix; [|exact Hpg]. rewrite Hgr.
    apply elem_of_cargo. by exists d, pk.
  - assert (index d ∈ index <$> objects (air (grids out))) as Hback.
    { rewrite Hidx. apply list_elem_of_fmap_2.
      destruct Hd as [_ Hd]. by eapply elem_of_objects_getitem. }
    apply list_elem_of_fmap in Hback as (d' & Heq & Hd').
    destruct Hwf' as (Hwa' & _).
    destruct (elem_of_objects_position _ _ Hwa' Hd') as (q & Hq & Hget).
    by exists d', q.
Qed.

Lemma X17_witness :
  r_rewards (returned (step world_a actions_a [0; 0]))
    !! index (mkDrone 2 (Some (mkPacket 2))) = Some crash_reward ∧
  r_dones (returned (step world_a actions_a [0; 0]))
    !! index (mkDrone 2 (Some (mkPacket 2))) = Some true ∧
  index (mkDrone 2 (Some (mkPacket 2)))
    ∈ index <$> info_air_respawns (returned (step world_a actions_a [0; 0])) ∧
  (∀ pk, packet (mkDrone 2 (Some (mkPacket 2))) = Some pk →
         TPacket pk ∈ info_ground_respawns (returned (step world_a actions_a [0; 0]))) ∧
  ∃ d' q, drone_at (grids (returned (step world_a actions_a [0; 0]))) d' q ∧
          index d' = index (mkDrone 2 (Some (mkPacket 2))).
Proof.
  apply (X17_leaving_the_grid world_a actions_a [0; 0] _
           (mkDrone 2 (Some (mkPacket 2))) (0, 0)%Z LEFT).
  - exact world_a_wf.
  - exact world_a_distinct.
  - split; by vm_compute.
  - by vm_compute.
  - vm_compute. intros [_ [? _]]. done.
  - by vm_compute.
Defined.

(** ** Dropzones stay where they are *)

Lemma further_air_navigation_dropzone sh st k ds st' q z :
  further_air_navigation st (k, ds) = Ok st' → Locals_wf sh st →
  inside sh k → inside sh q →
  getitem (l_ground st) q = Some (TDropzone z) ∨ TDropzone z ∈ ground_respawns st →
  getitem (l_ground st') q = Some (TDropzone z) ∨ TDropzone z ∈ ground_respawns st'.
Proof.
  intros H (Hsa & Hsg & Hwa & Hwg) Hk Hq [Hg|Hr].
  2: { right. apply further_air_navigation_mono in H as [_ Hpre].
       by eapply elem_of_prefix. }
  destruct (decide (q = k)) as [->|Hne].
  - unfold further_air_navigation in H. case_decide.
    { injection H as <-. by left. }
    destruct ds as [|drone ds]; [done|]. rewrite Hg in H.
    destruct (packet drone) as [carried|].
    + case_decide.
      * injection H as <-. right. simpl. apply elem_of_app. right. right. left.
      * injection H as <-. by left.
    + injection H as <-. by left.
  - left. rewrite <- Hg.
    eapply further_air_navigation_frame; [done|congruence|by rewrite Hsa..|done].
Qed.

Lemma respawn_dropzone sh actions st rs out q z :
  respawn actions st rs = Ok out → Locals_wf sh st → inside sh q →
  getitem (l_ground st) q = Some (TDropzone z) →
  getitem (ground (grids out)) q = Some (TDropzone z).
Proof.
  intros (ground1 & gpos & rs1 & air1 & positions & Hg & Ha & Hp & _)%respawn_Ok
         (Hsa & Hsg & Hwa & Hwg) Hq Hz.
  destruct (spawn_spec _ _ _ _ _ _ Hwg Hg) as (Hsg1 & Hwg1 & _ & _ & Hallg & _ & Hfrg & _).
  destruct (spawn_spec _ _ _ _ _ _ Hwa Ha) as (Hsa1 & Hwa1 & _ & Hnd & Hall & _).
  assert (getitem ground1 q = Some (TDropzone z)) as Hz1.
  { rewrite Hfrg; [done|by rewrite Hsg|]. intros Hin.
    eapply Forall_forall in Hallg as [_ Hnone]; [|exact Hin]. congruence. }
  assert (Forall (inside sh) positions) as Hins.
  { eapply Forall_impl; [exact Hall|]. intros p [Hp' _]. by rewrite <- Hsa. }
  destruct (decide (q ∈ positions)) as [Hin|Hni].
  - pose proof (pick_packets_at sh positions _ _ _ _ q Hp) as Hat.
    rewrite Hz1 in Hat. destruct Hat as [_ ->]; [congruence..|done|done|done|done].
  - destruct (pick_packets_frame sh positions _ _ _ _ q Hp) as (_ & _ & _ & _ & Hfr);
      [congruence..|done|].
    by destruct (Hfr Hq Hni) as [_ ->].
Qed.

(** X18. A dropzone stays in its cell for as long as no delivery is made to
    it: after a step that returns, it is where it was unless it is one of
    [info['ground_respawns']]. *)
Theorem X18_dropzone_stays self actions rs out q z :
  Env_wf self → step self actions rs = Ok out →
  inside (shape (air self)) q → getitem (ground self) q = Some (TDropzone z) →
  getitem (ground (grids out)) q = Some (TDropzone z) ∨
  TDropzone z ∈ info_ground_respawns out.
Proof.
  intros Hwf Hstep Hq Hz. pose proof Hstep as (st & Hnav & Hre)%step_Ok.
  destruct (step_outputs _ _ _ _ _ Hwf Hnav Hstep) as (_ & _ & -> & _).
  destruct (navigate_census _ _ _ Hwf Hnav) as (Hwfst & _).
  apply navigate_Ok in Hnav as (_ & st1 & H1 & H2).
  destruct (first_loop_summary _ _ _ Hwf H1) as (Hwf1 & Hg1 & _ & _ & [_ Hall] & _).
  assert (Locals_wf (shape (air self)) st ∧
          (getitem (l_ground st) q = Some (TDropzone z) ∨
           TDropzone z ∈ ground_respawns st)) as [_ [Hst|Hst]].
  { eapply (foldM_invariant
              (λ t, Locals_wf (shape (air self)) t ∧
                    (getitem (l_ground t) q = Some (TDropzone z) ∨
                     TDropzone z ∈ ground_respawns t))); [| |exact H2].
    - intros [k ds] t t' Hin [Hwft Ht] Hstep'. split.
      + by eapply further_air_navigation_wf.
      + eapply further_air_navigation_dropzone; [done..| |done|done].
        eapply Forall_forall in Hall; [|exact Hin]. by destruct Hall.
    - split; [done|]. left. by rewrite Hg1. }
  - left. by eapply respawn_dropzone.
  - by right.
Qed.

Lemma X18_witness :
  getitem (ground (grids (returned (step world_a actions_a [0; 0])))) (2, 2)%Z
    = Some (TDropzone (mkDropzone 1)) ∨
  TDropzone (mkDropzone 1)
    ∈ info_ground_respawns (returned (step world_a actions_a [0; 0])).
Proof.
  apply (X18_dropzone_stays world_a actions_a [0; 0]).
  - exact world_a_wf.
  - by vm_compute.
  - by vm_compute.
  - by vm_compute.
Defined.

(** ** The reward of a drone that survives *)

Lemma no_reward_not_delivery actions i : no_reward actions i ≠ Some delivery_reward.
Proof. unfold no_reward. rewrite lookup_fmap. by destruct (actions !! i). Qed.

(** X19. A drone that survives the move to its destination (it moves inside
    the grid and no other drone heads for the same cell) is at its
    destination when [step] returns, and its reward is 1 exactly when it
    made a delivery: the destination holds a dropzone and the drone carried
    the packet of the same index. In every other case its reward is what it
    was at the start: 0 if [actions] names the drone, no entry if not. *)
Theorem X19_reward_iff_delivery self actions rs out d p q :
  Env_wf self → distinct_indices self → survives self actions d p q →
  step self actions rs = Ok out →
  (r_rewards out !! index d = Some delivery_reward ↔
   ∃ z pk, getitem (ground self) q = Some (TDropzone z) ∧ packet d = Some pk ∧
           packet_index pk = dropzone_index z) ∧
  (r_rewards out !! index d ≠ Some delivery_reward →
   r_rewards out !! index d = no_reward actions (index d)) ∧
  ∃ d', getitem (air (grids out)) q = Some d' ∧ index d' = index d.
Proof.
  intros Hwf Hdi Hsurv Hstep. pose proof Hstep as (st & Hnav & _)%step_Ok.
  destruct (survivor_lands _ _ _ _ _ _ _ _ Hwf Hdi Hsurv Hnav Hstep) as (Hland & _).
  destruct (step_outputs _ _ _ _ _ Hwf Hnav Hstep) as (-> & _).
  survivor_iteration Hwf Hdi Hnav Hsurv.
  pose proof (no_reward_not_delivery actions (index d)) as Hnr.
  rewrite Hrwf. rewrite Hgq in Hb. split; [|split; [|done]].
  - repeat case_match; simplify_eq; simpl.
    all: try (rewrite lookup_insert_eq; split; [intros _; by eauto|done]).
    all: rewrite Hrw; split; [done|].
    all: intros (z' & pk' & ? & ? & ?); simplify_eq.
  - repeat case_match; simplify_eq; simpl; try done.
    by rewrite lookup_insert_eq.
Qed.

Lemma X19_witness :
  (r_rewards (returned (step world_e actions_b [4; 7]))
     !! index (mkDrone 1 (Some (mkPacket 1))) = Some delivery_reward ↔
   ∃ z pk, getitem (ground world_e) (1, 2)%Z = Some (TDropzone z) ∧
           packet (mkDrone 1 (Some (mkPacket 1))) = Some pk ∧
           packet_index pk = dropzone_index z) ∧
  (r_rewards (returned (step world_e actions_b [4; 7]))
     !! index (mkDrone 1 (Some (mkPacket 1))) ≠ Some delivery_reward →
   r_rewards (returned (step world_e actions_b [4; 7]))
     !! index (mkDrone 1 (Some (mkPacket 1)))
   = no_reward actions_b (index (mkDrone 1 (Some (mkPacket 1))))) ∧
  ∃ d', getitem (air (grids (returned (step world_e actions_b [4; 7])))) (1, 2)%Z
          = Some d' ∧
        index d' = index (mkDrone 1 (Some (mkPacket 1))).
Proof.
  apply (X19_reward_iff_delivery world_e actions_b [4; 7] _
           (mkDrone 1 (Some (mkPacket 1))) (1, 1)%Z (1, 2)%Z).
  - by vm_compute.
  - vm_compute. apply NoDup_singleton.
  - exact world_e_survives.
  - by vm_compute.
Defined.
